(** * zip-mcp: the archive engine of [src/utils/compression.ts]

    A shallow embedding of [compressData], [decompressData] and
    [getZipInfo], of the tools of [src/index.ts] that call them
    ([compress], [decompress], [getZipInfo], with [exists] and
    [getAllFiles]), and of the part of the third-party package
    [@zip.js/zip.js] these functions call ([ZipWriter], [ZipReader],
    [Entry.getData]).

    The engine is translated line by line.  The package is not part of
    the repository; module [ZipJs] is a model of its observable behaviour
    at the level of central-directory records, generic in what the package
    does with the bytes of an entry (deflate, the password cipher and the
    output writer). *)

From Stdlib Require Import List String Ascii Strings.Byte ZArith QArith Bool Arith Lia Lqa.
From Stdlib Require Import DecimalString.
Import ListNotations.
#[local] Close Scope Q_scope.

(** ** JavaScript values *)

(** The contents of a [Uint8Array] or of a [Blob]. *)
Definition bytes := list byte.

(** A JavaScript [Error]: the engine only ever reads and writes
    [message]. *)
Record Error := new_Error { message : string }.

(** The outcome of an [async] function: the promise is fulfilled with a
    value or rejected with the error that was thrown. *)
Inductive Promise (A : Type) : Type :=
| Resolved (a : A)
| Rejected (e : Error).

Arguments Resolved {A} a.
Arguments Rejected {A} e.

Definition bind {A B} (p : Promise A) (k : A -> Promise B) : Promise B :=
  match p with
  | Resolved a => k a
  | Rejected e => Rejected e
  end.

Declare Scope promise_scope.
Delimit Scope promise_scope with promise.
Notation "'await' x <- p ;; k" := (bind p (fun x => k))
  (at level 61, x name, p at next level, right associativity) : promise_scope.
Open Scope promise_scope.

(** [try { body } catch (error) { throw new Error(prefix + error.message) }] *)
Definition try_catch_rethrow {A} (prefix : string) (body : Promise A) : Promise A :=
  match body with
  | Resolved a => Resolved a
  | Rejected error => Rejected (new_Error (prefix ++ message error)%string)
  end.

(** A JavaScript [number] that is finite: a rational, the whole number
    [n] being [inject_Z n].  The code only compares such numbers and hands
    them on; [NaN], which [||] replaces as it does [0] and which the
    parameter schema refuses, and the infinities are left out. *)
Definition number := Q.
Bind Scope Q_scope with number.

(** [a || b] on an optional number: [undefined] and [0] are falsy. *)
Definition js_or (a : option number) (b : number) : number :=
  match a with
  | Some n => if Qeq_bool n 0 then b else n
  | None => b
  end.

(** Truthiness of an optional number, as tested by [a && ...]. *)
Definition truthy (a : option number) : bool :=
  match a with
  | Some n => negb (Qeq_bool n 0)
  | None => false
  end.

(** [a > b] on numbers. *)
Definition js_gt (a b : number) : bool := negb (Qle_bool a b).

(** [TextEncoder.encode] and [TextDecoder.decode]: a [string] is kept as
    its UTF-8 bytes. *)
Definition TextEncoder_encode (s : string) : bytes := list_byte_of_string s.
Definition TextDecoder_decode (b : bytes) : string := string_of_list_byte b.

(** [encryptionStrength?: 1 | 2 | 3] *)
Inductive EncryptionStrength := Strength1 | Strength2 | Strength3.

(** ** String helpers of the JavaScript runtime *)

(** The UTF-8 encoding of a code point, given by its bytes. *)
Definition utf8 (encoding : list N) : list ascii := map ascii_of_N encoding.

(** The code points [String.prototype.trim] removes, a [string] being
    kept as its UTF-8 bytes: the white space of ECMAScript (U+0009, U+000B,
    U+000C, U+FEFF and the space separators U+0020, U+00A0, U+1680,
    U+2000 to U+200A, U+202F, U+205F, U+3000) and its line terminators
    (U+000A, U+000D, U+2028, U+2029). *)
Definition white_space : list (list ascii) :=
  map utf8
    [ [9]; [10]; [11]; [12]; [13]; [32];
      [194; 160];
      [225; 154; 128];
      [226; 128; 128]; [226; 128; 129]; [226; 128; 130]; [226; 128; 131];
      [226; 128; 132]; [226; 128; 133]; [226; 128; 134]; [226; 128; 135];
      [226; 128; 136]; [226; 128; 137]; [226; 128; 138];
      [226; 128; 168]; [226; 128; 169]; [226; 128; 175];
      [226; 129; 159];
      [227; 128; 128];
      [239; 187; 191] ]%N.

(** [s] without the prefix [p], when it starts with it. *)
Fixpoint without_prefix (p s : list ascii) : option (list ascii) :=
  match p, s with
  | [], _ => Some s
  | a :: p', b :: s' => if Ascii.eqb a b then without_prefix p' s' else None
  | _ :: _, [] => None
  end.

(** [s] without its first character, when that is one of [spaces]. *)
Fixpoint without_space (spaces : list (list ascii)) (s : list ascii)
  : option (list ascii) :=
  match spaces with
  | [] => None
  | p :: rest =>
      match without_prefix p s with
      | Some r => Some r
      | None => without_space rest s
      end
  end.

(** Removes leading characters of [spaces], at most [fuel] of them. *)
Fixpoint strip (spaces : list (list ascii)) (fuel : nat) (s : list ascii)
  : list ascii :=
  match fuel with
  | O => s
  | S fuel' =>
      match without_space spaces s with
      | Some r => strip spaces fuel' r
      | None => s
      end
  end.

(** A string has no more characters than bytes, which bounds the loop. *)
Definition trimStart (s : string) : string :=
  string_of_list_ascii
    (strip white_space (String.length s) (list_ascii_of_string s)).

(** The same from the end: the bytes are read backwards. *)
Definition trimEnd (s : string) : string :=
  string_of_list_ascii
    (rev (strip (map (@rev ascii) white_space) (String.length s)
            (rev (list_ascii_of_string s)))).

Definition trim (s : string) : string := trimEnd (trimStart s).

Definition endsWith (s suffix : string) : bool :=
  let n := String.length s in
  let m := String.length suffix in
  (m <=? n) && String.eqb (substring (n - m) m s) suffix.

(** [haystack.includes(needle)] *)
Fixpoint includes (haystack needle : string) : bool :=
  prefix needle haystack ||
  match haystack with
  | String _ r => includes r needle
  | EmptyString => false
  end.

(** ** The package [@zip.js/zip.js]

    The engine imports the package and calls [new ZipWriter], [add],
    [close], [new ZipReader], [getEntries], [Entry.getData] and reads
    [ZipReader.comment].  An archive buffer is represented by what the
    package parses out of it: the central-directory records in stored
    order, each with the bytes of its local record, and the archive
    comment.  The declared sizes of a record are fields of their own, as in
    the container format: nothing ties them to the stored bytes.

    Left out: the limits of the format (a name longer than 65535 bytes,
    sizes that need the 64-bit records) and the two-second resolution of
    the stored time.  What is stored for a directory entry is immaterial
    to the engine, which skips such entries in both of its readers. *)
Module ZipJs.

(** What the cipher makes of stored bytes under a password: the plain
    bytes, a refusal by its password check, or a refusal by its check of
    the data. *)
Inductive Decryption :=
| Decrypted (d : bytes)
| WrongPassword
| BadSignature.

(** What the package does with the bytes of an entry, left abstract: the
    deflate codec with the error its decoder reports, the password cipher,
    and the array a [Uint8ArrayWriter] returns once the [content] of a
    record that declares [declared] bytes was written to it.

    Three facts are taken for granted: what was deflated at a whole level
    from 1 to 9 inflates to the same bytes; what was encrypted under a
    password decrypts under it; content of the declared size comes back as
    it is.  Nothing is said of another password, nor of a record that
    declares a size its content does not have. *)
Class Codec : Type := {
  deflate : number -> bytes -> bytes;
  inflate : bytes -> option bytes;
  inflate_error : Error;
  encrypt : string -> EncryptionStrength -> bytes -> bytes;
  decrypt : string -> bytes -> Decryption;
  Uint8ArrayWriter_getData : forall (declared : nat) (content : bytes), bytes;
  inflate_deflate : forall (level : Z) d,
    (1 <= level <= 9)%Z -> inflate (deflate (inject_Z level) d) = Some d;
  decrypt_encrypt : forall p s d, decrypt p (encrypt p s d) = Decrypted d;
  getData_of_declared_size : forall d,
    Uint8ArrayWriter_getData (List.length d) d = d
}.

(** Error messages of the package. *)
Definition ERR_DUPLICATED_NAME := new_Error "File already exists".
Definition ERR_ENCRYPTED := new_Error "File contains encrypted entry".
Definition ERR_INVALID_PASSWORD := new_Error "Invalid password".
Definition ERR_INVALID_SIGNATURE := new_Error "Invalid signature".
Definition ERR_EOCDR_NOT_FOUND := new_Error "End of central directory not found".
Definition ERR_UNSUPPORTED_COMPRESSION := new_Error "Compression method not supported".

Definition DIRECTORY_SIGNATURE : string := "/".

Inductive CompressionMethod :=
| Store
| Deflate
| OtherMethod (code : Z).

(** One central-directory record together with the bytes of its local
    record. *)
Record Entry := {
  filename : string;
  directory : bool;
  encrypted : bool;
  compressionMethod : CompressionMethod;
  uncompressedSize : nat;
  compressedSize : nat;
  lastModDate : Z;
  comment : string;
  rawData : bytes
}.

(** The bytes handed to [new Uint8ArrayReader] or [new BlobReader]. *)
Inductive ArchiveBuffer :=
| Zip (entries : list Entry) (archiveComment : bytes)
| NotZip (raw : bytes).

(** Options of [new ZipWriter(writer, options)] the engine sets. *)
Record WriterOptions := {
  level : number;
  password : option string;
  encryptionStrength : option EncryptionStrength
}.

Record ZipWriter := {
  options : WriterOptions;
  files : list Entry
}.

Definition new_ZipWriter (o : WriterOptions) : ZipWriter :=
  {| options := o; files := [] |}.

Definition filenames (zipWriter : ZipWriter) : list string :=
  map filename (files zipWriter).

(** [Boolean(password && password.length)]: the password that
    encrypts, if any. *)
Definition encryption_password (o : WriterOptions) : option string :=
  match password o with
  | Some p => if String.eqb p "" then None else Some p
  | None => None
  end.

(** The strength used when none is given. *)
Definition strength_or_default (s : option EncryptionStrength) : EncryptionStrength :=
  match s with
  | Some s => s
  | None => Strength3
  end.

Section WithCodec.
Context {codec : Codec}.

(** The record and stored bytes of one added entry: the data is
    deflated unless the level is 0 or the entry is a directory, and the
    result is encrypted when a non-empty password is set. *)
Definition new_entry (o : WriterOptions) (now : Z) (name : string) (reader : bytes)
  : Entry :=
  let directory := endsWith name DIRECTORY_SIGNATURE in
  let compressed := negb (Qeq_bool (level o) 0) && negb directory in
  let deflated := if compressed then deflate (level o) reader else reader in
  let raw :=
    match encryption_password o with
    | Some p => encrypt p (strength_or_default (encryptionStrength o)) deflated
    | None => deflated
    end in
  {| filename := name;
     directory := directory;
     encrypted := match encryption_password o with Some _ => true | None => false end;
     compressionMethod := if compressed then Deflate else Store;
     uncompressedSize := List.length reader;
     compressedSize := List.length raw;
     lastModDate := now;
     comment := "";
     rawData := raw |}.

(** [zipWriter.add(name, reader)] at clock reading [now]: the name is
    trimmed, a name already added is refused, a name ending in the
    separator makes a directory entry. *)
Definition add (zipWriter : ZipWriter) (now : Z) (name : string) (reader : bytes)
  : Promise ZipWriter :=
  let name := trim name in
  if existsb (String.eqb name) (filenames zipWriter) then
    Rejected ERR_DUPLICATED_NAME
  else
    Resolved
      {| options := options zipWriter;
         files := files zipWriter ++ [new_entry (options zipWriter) now name reader] |}.

(** [zipWriter.close()]: no archive comment is ever set by the
    engine. *)
Definition close (zipWriter : ZipWriter) : Promise ArchiveBuffer :=
  Resolved (Zip (files zipWriter) []).

Record ZipReader := {
  reader : ArchiveBuffer;
  readerPassword : option string
}.

Definition new_ZipReader (data : ArchiveBuffer) (password : option string) : ZipReader :=
  {| reader := data; readerPassword := password |}.

(** [zipReader.getEntries()]: the password plays no part. *)
Definition getEntries (zipReader : ZipReader) : Promise (list Entry) :=
  match reader zipReader with
  | Zip entries _ => Resolved entries
  | NotZip _ => Rejected ERR_EOCDR_NOT_FOUND
  end.

(** [zipReader.comment] once the entries were read. *)
Definition readerComment (zipReader : ZipReader) : option bytes :=
  match reader zipReader with
  | Zip _ c => Some c
  | NotZip _ => None
  end.

(** [typeof entry.getData === 'function']: every entry the package
    returns carries the method. *)
Definition has_getData (entry : Entry) : bool := true.

(** [entry.getData(new Uint8ArrayWriter())]: a method other than store
    and deflate is refused first; an encrypted entry needs a non-empty
    password, which the cipher checks; the data is inflated unless it was
    stored, and written to the writer, which was set up for the declared
    size. *)
Definition getData (zipReader : ZipReader) (entry : Entry) : Promise bytes :=
  match compressionMethod entry with
  | OtherMethod _ => Rejected ERR_UNSUPPORTED_COMPRESSION
  | Store | Deflate =>
      await plain <-
        (if encrypted entry then
           match readerPassword zipReader with
           | Some p =>
               if String.eqb p "" then Rejected ERR_ENCRYPTED
               else match decrypt p (rawData entry) with
                    | Decrypted d => Resolved d
                    | WrongPassword => Rejected ERR_INVALID_PASSWORD
                    | BadSignature => Rejected ERR_INVALID_SIGNATURE
                    end
           | None => Rejected ERR_ENCRYPTED
           end
         else Resolved (rawData entry)) ;;
      await content <-
        match compressionMethod entry with
        | Store => Resolved plain
        | _ =>
            match inflate plain with
            | Some d => Resolved d
            | None => Rejected inflate_error
            end
        end ;;
      Resolved (Uint8ArrayWriter_getData (uncompressedSize entry) content)
  end.

End WithCodec.

End ZipJs.

(** ** [src/utils/compression.ts] *)

(** [level?: number]; [undefined] is [None]. *)
Module CompressionOptions.
Record t := {
  level : option number;
  password : option string;
  encryptionStrength : option EncryptionStrength
}.
(** [options: CompressionOptions = {}] *)
Definition empty : t :=
  {| level := None; password := None; encryptionStrength := None |}.
End CompressionOptions.

Module DecompressionOptions.
Record t := { password : option string }.
Definition empty : t := {| password := None |}.
End DecompressionOptions.

Module ZipInfo.
Record t := {
  filename : string;
  size : nat;
  compressedSize : nat;
  lastModDate : Z;
  encrypted : bool;
  comment : option string
}.
End ZipInfo.

Module ZipMetadata.
Record t := {
  files : list ZipInfo.t;
  totalSize : nat;
  totalCompressedSize : nat;
  comment : option string
}.
End ZipMetadata.

(** [Uint8Array | Blob | string] *)
Inductive FileData :=
| U8 (b : bytes)
| Blob (b : bytes)
| Str (s : string).

(** [{ name: string, data: Uint8Array | Blob | string }] *)
Module Item.
Record t := { name : string; data : FileData }.
End Item.

(** The first parameter of [compressData]: one datum or an array of
    named data. *)
Inductive Data :=
| One (d : FileData)
| Array (items : list Item.t).

(** [{ name: string, data: Uint8Array }], an element of the result of
    [decompressData]. *)
Module Extracted.
Record t := { name : string; data : bytes }.
End Extracted.

Section Engine.
Context {codec : ZipJs.Codec}.

(** [if (typeof fileData === 'string') fileData = encoder.encode(fileData)] *)
Definition encode_if_string (fileData : FileData) : FileData :=
  match fileData with
  | Str s => U8 (TextEncoder_encode s)
  | _ => fileData
  end.

(** The reader built for [zipWriter.add]: [TextReader], [BlobReader] or
    [Uint8ArrayReader] by the type of [fileData]. *)
Definition reader_of (fileData : FileData) : bytes :=
  match fileData with
  | Str s => TextEncoder_encode s
  | Blob b => b
  | U8 b => b
  end.

(** [for (const item of data) { ... await zipWriter.add(item.name, ...) }] *)
Fixpoint add_items (zipWriter : ZipJs.ZipWriter) (now : Z) (data : list Item.t)
  : Promise ZipJs.ZipWriter :=
  match data with
  | [] => Resolved zipWriter
  | item :: rest =>
      let fileData := encode_if_string (Item.data item) in
      await zipWriter' <- ZipJs.add zipWriter now (Item.name item) (reader_of fileData) ;;
      add_items zipWriter' now rest
  end.

(** The body of the [try] block of [compressData]: every item is
    added, then the writer is closed. *)
Definition write_all (zipWriter : ZipJs.ZipWriter) (now : Z) (data : Data)
  : Promise ZipJs.ArchiveBuffer :=
  await zipWriter' <-
    match data with
    | Array items => add_items zipWriter now items
    | One d =>
        let fileData := encode_if_string d in
        ZipJs.add zipWriter now "file" (reader_of fileData)
    end ;;
  ZipJs.close zipWriter'.

(** [compressData(data, options)], run at clock reading [now]. *)
Definition compressData (now : Z) (data : Data) (options : CompressionOptions.t)
  : Promise ZipJs.ArchiveBuffer :=
  let zipWriter := ZipJs.new_ZipWriter
    {| ZipJs.level := js_or (CompressionOptions.level options) 5;
       ZipJs.password := CompressionOptions.password options;
       ZipJs.encryptionStrength := CompressionOptions.encryptionStrength options |} in
  try_catch_rethrow "压缩失败: " (write_all zipWriter now data).

(** [for (const entry of entries) { if (!entry.directory && ...) {...} }]
    of [decompressData]. *)
Fixpoint extract_entries (zipReader : ZipJs.ZipReader) (entries : list ZipJs.Entry)
  (results : list Extracted.t) : Promise (list Extracted.t) :=
  match entries with
  | [] => Resolved results
  | entry :: rest =>
      if negb (ZipJs.directory entry) && ZipJs.has_getData entry then
        await data <- ZipJs.getData zipReader entry ;;
        extract_entries zipReader rest
          (results ++ [ {| Extracted.name := ZipJs.filename entry;
                           Extracted.data := data |} ])
      else extract_entries zipReader rest results
  end.

(** [decompressData(data, options)] *)
Definition decompressData (data : ZipJs.ArchiveBuffer) (options : DecompressionOptions.t)
  : Promise (list Extracted.t) :=
  try_catch_rethrow "解压失败: "
    (let zipReader := ZipJs.new_ZipReader data (DecompressionOptions.password options) in
     await entries <- ZipJs.getEntries zipReader ;;
     await results <- extract_entries zipReader entries [] ;;
     Resolved results).

Definition info_of (entry : ZipJs.Entry) : ZipInfo.t :=
  {| ZipInfo.filename := ZipJs.filename entry;
     ZipInfo.size := ZipJs.uncompressedSize entry;
     ZipInfo.compressedSize := ZipJs.compressedSize entry;
     ZipInfo.lastModDate := ZipJs.lastModDate entry;
     ZipInfo.encrypted := ZipJs.encrypted entry;
     ZipInfo.comment := Some (ZipJs.comment entry) |}.

(** [for (const entry of entries) { if (!entry.directory) {...} }] of
    [getZipInfo], with its three accumulators. *)
Fixpoint collect_info (entries : list ZipJs.Entry) (files : list ZipInfo.t)
  (totalSize totalCompressedSize : nat) : list ZipInfo.t * nat * nat :=
  match entries with
  | [] => (files, totalSize, totalCompressedSize)
  | entry :: rest =>
      if negb (ZipJs.directory entry) then
        collect_info rest (files ++ [info_of entry])
          (totalSize + ZipJs.uncompressedSize entry)
          (totalCompressedSize + ZipJs.compressedSize entry)
      else collect_info rest files totalSize totalCompressedSize
  end.

(** [getZipInfo(data, options)] *)
Definition getZipInfo (data : ZipJs.ArchiveBuffer) (options : DecompressionOptions.t)
  : Promise ZipMetadata.t :=
  try_catch_rethrow "获取压缩包信息失败: "
    (let zipReader := ZipJs.new_ZipReader data (DecompressionOptions.password options) in
     await entries <- ZipJs.getEntries zipReader ;;
     let '(files, totalSize, totalCompressedSize) := collect_info entries [] 0 0 in
     Resolved
       {| ZipMetadata.files := files;
          ZipMetadata.totalSize := totalSize;
          ZipMetadata.totalCompressedSize := totalCompressedSize;
          ZipMetadata.comment :=
            match ZipJs.readerComment zipReader with
            | Some c => Some (TextDecoder_decode c)
            | None => None
            end |}).

End Engine.

(** ** [src/index.ts]: the options of the [compress] tool

    The path of the options from the request to [compressData]; the file
    system work of the tool around it follows further down. *)
Module CompressTool.

(** [args.options] as described by the parameter schema. *)
Record Options := {
  level : option number;
  comment : option string;
  password : option string;
  encryptionStrength : option EncryptionStrength;
  overwrite : option bool
}.

(** [level: z.number().min(0).max(9).optional()] *)
Definition schema_accepts (options : option Options) : bool :=
  match options with
  | Some o =>
      match level o with
      | Some l => Qle_bool 0 l && Qle_bool l 9
      | None => true
      end
  | None => true
  end.

(** [args.options?.level] *)
Definition requested_level (options : option Options) : option number :=
  match options with
  | Some o => level o
  | None => None
  end.

(** [const { overwrite, ...compressionOptions } = args.options || {}]
    followed by
    [if (compressionOptions?.level && compressionOptions.level > 3)
       compressionOptions.level = 3]. *)
Definition compressionOptions (options : option Options) : CompressionOptions.t :=
  match options with
  | Some o =>
      {| CompressionOptions.level :=
           if truthy (level o) && match level o with
                                  | Some l => js_gt l 3
                                  | None => false
                                  end
           then Some 3%Q else level o;
         CompressionOptions.password := password o;
         CompressionOptions.encryptionStrength := encryptionStrength o |}
  | None => CompressionOptions.empty
  end.

(** The level [compressData] hands to [new ZipWriter] for a request. *)
Definition writer_level (options : option Options) : number :=
  js_or (CompressionOptions.level (compressionOptions options)) 5.

(** The call [compressData(filesToCompress, compressionOptions)] of
    [execute]; [None] when the schema refuses the request, in which case
    [execute] does not run. *)
Definition execute {codec : ZipJs.Codec} (now : Z)
  (filesToCompress : list (string * bytes)) (options : option Options)
  : option (Promise ZipJs.ArchiveBuffer) :=
  if schema_accepts options then
    Some (compressData now
            (Array (map (fun f => {| Item.name := fst f; Item.data := U8 (snd f) |})
                        filesToCompress))
            (compressionOptions options))
  else None.

End CompressTool.

(** ** Notions used to state the properties *)

(** A sequence of (name, byte-content) pairs as the argument of
    [compressData] and as the result of [decompressData]. *)
Definition items_of (entries : list (string * bytes)) : list Item.t :=
  map (fun e => {| Item.name := fst e; Item.data := U8 (snd e) |}) entries.

Definition extracted_of (entries : list (string * bytes)) : list Extracted.t :=
  map (fun e => {| Extracted.name := fst e; Extracted.data := snd e |}) entries.

(** Only the last occurrence of every name is kept, in input order. *)
Fixpoint last_occurrences (entries : list (string * bytes)) : list (string * bytes) :=
  match entries with
  | [] => []
  | e :: rest =>
      if existsb (String.eqb (fst e)) (map fst rest)
      then last_occurrences rest
      else e :: last_occurrences rest
  end.

(** The round trip as the specification words it: writing [entries] with
    [options] and reading the buffer back with the same password yields
    the entries, the last occurrence of each name surviving. *)
Definition round_trip {codec : ZipJs.Codec} (now : Z)
  (entries : list (string * bytes)) (options : CompressionOptions.t) : Prop :=
  exists buffer,
    compressData now (Array (items_of entries)) options = Resolved buffer /\
    decompressData buffer
      {| DecompressionOptions.password := CompressionOptions.password options |} =
    Resolved (extracted_of (last_occurrences entries)).

(** A name the writer stores unchanged and as a file: it has no white
    space around it and does not end in the separator. *)
Definition file_name (n : string) : Prop :=
  trim n = n /\ endsWith n ZipJs.DIRECTORY_SIGNATURE = false.

(** A whole number from [low] to 9. *)
Definition whole_from (low : Z) (l : number) : Prop :=
  exists n : Z, l = inject_Z n /\ (low <= n <= 9)%Z.

(** [level] is absent or one of 0, 1, ..., 9. *)
Definition valid_level (l : option number) : Prop :=
  match l with
  | Some l => whole_from 0 l
  | None => True
  end.

(** The sum of the byte lengths of extracted entries. *)
Definition content_size (out : list Extracted.t) : nat :=
  list_sum (map (fun x => List.length (Extracted.data x)) out).

Definition is_file (entry : ZipJs.Entry) : bool := negb (ZipJs.directory entry).

(** The metadata of an archive stated over its records, without the loop
    of [getZipInfo]. *)
Definition metadata_of (entries : list ZipJs.Entry) (archiveComment : bytes)
  : ZipMetadata.t :=
  {| ZipMetadata.files := map info_of (filter is_file entries);
     ZipMetadata.totalSize :=
       list_sum (map ZipJs.uncompressedSize (filter is_file entries));
     ZipMetadata.totalCompressedSize :=
       list_sum (map ZipJs.compressedSize (filter is_file entries));
     ZipMetadata.comment := Some (TextDecoder_decode archiveComment) |}.

(** The entry [add] stores for an item of the array. *)
Definition entry_of {codec : ZipJs.Codec} (now : Z) (o : ZipJs.WriterOptions)
  (item : Item.t) : ZipJs.Entry :=
  ZipJs.new_entry o now (Item.name item) (reader_of (Item.data item)).

(** The writer options [compressData] builds from its [options]. *)
Definition writer_options (options : CompressionOptions.t) : ZipJs.WriterOptions :=
  {| ZipJs.level := js_or (CompressionOptions.level options) 5;
     ZipJs.password := CompressionOptions.password options;
     ZipJs.encryptionStrength := CompressionOptions.encryptionStrength options |}.

(** An entry as [add] builds it under the writer options [o]. *)
Definition written_by {codec : ZipJs.Codec} (o : ZipJs.WriterOptions) (now : Z)
  (entry : ZipJs.Entry) : Prop :=
  exists n d, entry = ZipJs.new_entry o now n d.

(** The writer with another encryption strength. *)
Definition with_strength (s : option EncryptionStrength) (zipWriter : ZipJs.ZipWriter)
  : ZipJs.ZipWriter :=
  {| ZipJs.options :=
       {| ZipJs.level := ZipJs.level (ZipJs.options zipWriter);
          ZipJs.password := ZipJs.password (ZipJs.options zipWriter);
          ZipJs.encryptionStrength := s |};
     ZipJs.files := ZipJs.files zipWriter |}.

Definition map_promise {A B} (f : A -> B) (p : Promise A) : Promise B :=
  match p with
  | Resolved a => Resolved (f a)
  | Rejected e => Rejected e
  end.

(** The errors [getData] can throw: those of the package and the one
    of the decoder. *)
Definition getData_errors {codec : ZipJs.Codec} : list Error :=
  [ZipJs.ERR_ENCRYPTED; ZipJs.ERR_INVALID_PASSWORD; ZipJs.ERR_INVALID_SIGNATURE;
   ZipJs.inflate_error; ZipJs.ERR_UNSUPPORTED_COMPRESSION].

(** The error [decompressData] throws for an error [e] of the package,
    and likewise for [compressData]. *)
Definition decompress_error (e : Error) : Error :=
  new_Error ("解压失败: " ++ message e)%string.

Definition compress_error (e : Error) : Error :=
  new_Error ("压缩失败: " ++ message e)%string.

(** The password check of the cipher refuses [q] for the first entry of
    the archive. *)
Definition password_refused {codec : ZipJs.Codec} (q : string)
  (buffer : ZipJs.ArchiveBuffer) : Prop :=
  match buffer with
  | ZipJs.Zip (entry :: _) _ =>
      ZipJs.decrypt q (ZipJs.rawData entry) = ZipJs.WrongPassword
  | _ => False
  end.

(** ** A reference instance of the codecs

    An instance that computes: deflate prefixes the level, the cipher
    prefixes the strength, the length of the password and the password
    itself, and the writer pads short content with zero bytes up to the
    declared size.  It shows that the laws of [ZipJs.Codec] can be met
    and lets the engine be run on concrete inputs. *)
Module RefCodec.

Definition level_byte (level : number) : byte :=
  match Byte.of_N (Z.to_N (Qnum level / Z.pos (Qden level))) with
  | Some b => b
  | None => xff
  end.

Definition deflate (level : number) (d : bytes) : bytes := level_byte level :: d.

Definition inflate (b : bytes) : option bytes :=
  match b with
  | _ :: d => Some d
  | [] => None
  end.

Definition strength_byte (s : EncryptionStrength) : byte :=
  match s with
  | Strength1 => x01
  | Strength2 => x02
  | Strength3 => x03
  end.

Definition encrypt (p : string) (s : EncryptionStrength) (d : bytes) : bytes :=
  let key := list_byte_of_string p in
  strength_byte s :: repeat x01 (List.length key) ++ x00 :: key ++ d.

(** Reads the unary length up to the terminating zero byte. *)
Fixpoint read_length (b : bytes) : option (nat * bytes) :=
  match b with
  | x00 :: r => Some (0, r)
  | x01 :: r =>
      match read_length r with
      | Some (n, t) => Some (S n, t)
      | None => None
      end
  | _ => None
  end.

Definition decrypt (q : string) (b : bytes) : ZipJs.Decryption :=
  match b with
  | _ :: r =>
      match read_length r with
      | Some (n, t) =>
          if String.eqb (string_of_list_byte (firstn n t)) q
          then ZipJs.Decrypted (skipn n t) else ZipJs.WrongPassword
      | None => ZipJs.BadSignature
      end
  | [] => ZipJs.BadSignature
  end.

Definition Uint8ArrayWriter_getData (declared : nat) (content : bytes) : bytes :=
  content ++ repeat x00 (declared - List.length content).

#[export] Instance codec : ZipJs.Codec.
Proof.
  assert (Hlen : forall n t, read_length (repeat x01 n ++ x00 :: t) = Some (n, t)).
  { induction n as [|n IH]; intros t; simpl; [reflexivity|]. now rewrite IH. }
  assert (Hdec : forall p q s d,
             decrypt q (encrypt p s d)
             = if String.eqb p q then ZipJs.Decrypted d else ZipJs.WrongPassword).
  { intros p q s d. unfold decrypt, encrypt. rewrite Hlen.
    rewrite firstn_app, Nat.sub_diag, firstn_all. simpl.
    rewrite app_nil_r, string_of_list_byte_of_string.
    rewrite skipn_app, Nat.sub_diag, skipn_all. reflexivity. }
  refine {| ZipJs.deflate := deflate; ZipJs.inflate := inflate;
            ZipJs.inflate_error := new_Error "invalid stored block lengths";
            ZipJs.encrypt := encrypt; ZipJs.decrypt := decrypt;
            ZipJs.Uint8ArrayWriter_getData := Uint8ArrayWriter_getData |}.
  - reflexivity.
  - intros p s d. now rewrite Hdec, String.eqb_refl.
  - intros d. unfold Uint8ArrayWriter_getData.
    rewrite Nat.sub_diag. apply app_nil_r.
Defined.

End RefCodec.

(** ** Concrete inputs *)
Module Sample.

Definition hello : bytes := list_byte_of_string "hello".
Definition world : bytes := list_byte_of_string "world".

Definition two_files : list (string * bytes) :=
  [("a.txt"%string, hello); ("docs/b.txt"%string, world)].

Definition same_name : list (string * bytes) :=
  [("a.txt"%string, hello); ("a.txt"%string, world)].

Definition folder : list (string * bytes) := [("docs/"%string, [])].

Definition slash_name : list (string * bytes) := [("notes/"%string, hello)].

Definition one_file (n : string) : list (string * bytes) := [(n, hello)].

Definition options (l : option number) (p : option string) : CompressionOptions.t :=
  {| CompressionOptions.level := l;
     CompressionOptions.password := p;
     CompressionOptions.encryptionStrength := None |}.

Definition with_password (p : option string) : DecompressionOptions.t :=
  {| DecompressionOptions.password := p |}.

(** The record of a stored file of three bytes. *)
Definition plain : ZipJs.Entry :=
  {| ZipJs.filename := "a.txt";
     ZipJs.directory := false;
     ZipJs.encrypted := false;
     ZipJs.compressionMethod := ZipJs.Store;
     ZipJs.uncompressedSize := 3;
     ZipJs.compressedSize := 3;
     ZipJs.lastModDate := 0;
     ZipJs.comment := "";
     ZipJs.rawData := [x61; x62; x63] |}.

(** A file written under the password "p". *)
Definition secret : ZipJs.Entry :=
  ZipJs.new_entry (codec := RefCodec.codec)
    {| ZipJs.level := 5; ZipJs.password := Some "p"%string;
       ZipJs.encryptionStrength := None |} 0 "secret.txt" hello.

(** The record of a directory. *)
Definition docs : ZipJs.Entry :=
  {| ZipJs.filename := "docs/";
     ZipJs.directory := true;
     ZipJs.encrypted := false;
     ZipJs.compressionMethod := ZipJs.Store;
     ZipJs.uncompressedSize := 0;
     ZipJs.compressedSize := 0;
     ZipJs.lastModDate := 0;
     ZipJs.comment := "";
     ZipJs.rawData := [] |}.

End Sample.

(** ** Further notions: what the writer stores *)

(** The name [add] stores for an item. *)
Definition stored_name (item : Item.t) : string := trim (Item.name item).

(** The entry [add] stores for an item: as [entry_of], under the trimmed
    name. *)
Definition stored_entry {codec : ZipJs.Codec} (now : Z) (o : ZipJs.WriterOptions)
  (item : Item.t) : ZipJs.Entry :=
  ZipJs.new_entry o now (stored_name item) (reader_of (Item.data item)).

(** The names are pairwise distinct and none of them is in [seen]. *)
Fixpoint distinct_from (seen names : list string) : bool :=
  match names with
  | [] => true
  | n :: rest =>
      if existsb (String.eqb n) seen then false
      else distinct_from (seen ++ [n]) rest
  end.

Definition distinctb (names : list string) : bool := distinct_from [] names.

(** An item that is written as a file, not as a directory. *)
Definition is_file_item (item : Item.t) : bool :=
  negb (endsWith (stored_name item) ZipJs.DIRECTORY_SIGNATURE).

(** What [decompressData] returns for an item that was written as a
    file. *)
Definition extracted_item (item : Item.t) : Extracted.t :=
  {| Extracted.name := stored_name item;
     Extracted.data := reader_of (Item.data item) |}.

(** The same data as a byte array. *)
Definition as_bytes (d : FileData) : FileData := U8 (reader_of d).

Definition data_as_bytes (data : Data) : Data :=
  match data with
  | One d => One (as_bytes d)
  | Array items =>
      Array (map (fun i => {| Item.name := Item.name i;
                              Item.data := as_bytes (Item.data i) |}) items)
  end.

(** Whether the writer built from [options] encrypts. *)
Definition encrypts (options : CompressionOptions.t) : bool :=
  match ZipJs.encryption_password (writer_options options) with
  | Some _ => true
  | None => false
  end.

(** ** [src/index.ts]: the tools

    The tools talk to the file system through [fs/promises], to the
    console, and compute paths with [path].  A tool is embedded as the tree
    of its interactions: every call the source awaits is a node whose
    branches are the possible answers.  The functions of [path], the
    number formatting of the runtime and the byte layout of the container
    are parameters. *)

(** A caught value of type [unknown]. *)
Inductive Unknown :=
| IsError (e : Error)
| IsString (s : string)
| IsOther.

(** [formatError] *)
Definition formatError (error : Unknown) : string :=
  match error with
  | IsError e => message e
  | IsString s => s
  | IsOther => "未知错误"
  end.

(** [`${n}`] for a count. *)
Definition show_nat (n : nat) : string := NilEmpty.string_of_uint (Nat.to_uint n).

Module Fs.

Record Stats := { isDirectory : bool }.

(** The calls of [fs/promises] and of the console made by the tools, each
    with the type of its answer.  [mkdir] is always called with
    [{ recursive: true }]. *)
Inductive Call : Type -> Type :=
| access (path : string) : Call (Promise unit)
| stat (path : string) : Call (Promise Stats)
| readdir (path : string) : Call (Promise (list string))
| readFile (path : string) : Call (Promise bytes)
| writeFile (path : string) (data : bytes) : Call (Promise unit)
| mkdir (path : string) : Call (Promise unit)
| console_warn (text : string) : Call unit.

End Fs.

(** What the tools take from the runtime without the source defining it:
    [path.join], [path.dirname], [path.basename], [path.relative]; the
    formatting of fractions, [(a / b).toFixed(2)] and
    [((1 - a / b) * 100).toFixed(2)], and of dates; and the bytes of an
    archive buffer, which the model of the package leaves abstract. *)
Class Runtime : Type := {
  path_join : string -> string -> string;
  path_dirname : string -> string;
  path_basename : string -> string;
  path_relative : string -> string -> string;
  quotient_toFixed2 : nat -> nat -> string;
  saving_toFixed2 : nat -> nat -> string;
  toLocaleString : Z -> string;
  bytes_of_archive : ZipJs.ArchiveBuffer -> bytes;
  archive_of_bytes : bytes -> ZipJs.ArchiveBuffer
}.

(** The body of an [async] function that calls the file system: it has
    returned, it has thrown, or it awaits the answer to a call.
    [OutOfFuel] marks a recursion cut off by its bound. *)
Inductive Async (A : Type) : Type :=
| Return (a : A)
| Throw (e : Error)
| OutOfFuel
| Await {X : Type} (call : Fs.Call X) (k : X -> Async A).

Arguments Return {A} a.
Arguments Throw {A} e.
Arguments OutOfFuel {A}.
Arguments Await {A X} call k.

Fixpoint and_then {A B} (p : Async A) (k : A -> Async B) : Async B :=
  match p with
  | Return a => k a
  | Throw e => Throw e
  | OutOfFuel => OutOfFuel
  | Await call k' => Await call (fun x => and_then (k' x) k)
  end.

Declare Scope async_scope.
Delimit Scope async_scope with async.
Bind Scope async_scope with Async.
Notation "'await' x <- p ;; k" := (and_then p (fun x => k))
  (at level 61, x name, p at next level, right associativity) : async_scope.

(** [await fs.f(...)]: a rejected promise throws. *)
Definition perform {X} (call : Fs.Call (Promise X)) : Async X :=
  Await call (fun answer =>
    match answer with
    | Resolved x => Return x
    | Rejected e => Throw e
    end).

(** [await p] for a promise of the engine. *)
Definition settle {A} (p : Promise A) : Async A :=
  match p with
  | Resolved a => Return a
  | Rejected e => Throw e
  end.

(** [try { body } catch (error) { handler }] *)
Fixpoint try_catch {A} (body : Async A) (handler : Error -> Async A) : Async A :=
  match body with
  | Return a => Return a
  | Throw e => handler e
  | OutOfFuel => OutOfFuel
  | Await call k => Await call (fun x => try_catch (k x) handler)
  end.

(** [exists]: whether [fs.access] succeeds. *)
Definition exists_ (filePath : string) : Async bool :=
  Await (Fs.access filePath) (fun answer =>
    match answer with
    | Resolved _ => Return true
    | Rejected _ => Return false
    end).

Module CompressArgs.
(** [z.union([z.string(), z.array(z.string())])] *)
Inductive Input :=
| Path (p : string)
| Paths (ps : list string).
Record t := {
  input : Input;
  output : string;
  options : option CompressTool.Options
}.
End CompressArgs.

Module DecompressArgs.
Record Options := {
  password : option string;
  overwrite : option bool;
  createDirectories : option bool
}.
Record t := {
  input : string;
  output : string;
  options : option Options
}.
End DecompressArgs.

Module InfoArgs.
Record Options := { password : option string }.
Record t := {
  input : string;
  options : option Options
}.
End InfoArgs.

(** [a ?? b] on an optional boolean. *)
Definition nullish_or (a : option bool) (b : bool) : bool :=
  match a with
  | Some v => v
  | None => b
  end.

Section Tools.
Context {runtime : Runtime} {codec : ZipJs.Codec}.
Local Open Scope async_scope.

(** The loop of [getAllFiles], the recursive call being [recurse]. *)
Fixpoint getAllFiles_loop (recurse : string -> list string -> Async (list string))
  (dirPath basePath : string) (files : list string) (fileList : list string)
  : Async (list string) :=
  match files with
  | [] => Return fileList
  | file :: rest =>
      let filePath := path_join dirPath file in
      await stat <- perform (Fs.stat filePath) ;;
      if Fs.isDirectory stat then
        await fileList' <- recurse filePath fileList ;;
        getAllFiles_loop recurse dirPath basePath rest fileList'
      else
        getAllFiles_loop recurse dirPath basePath rest
          (fileList ++ [path_relative basePath filePath])
  end.

(** [getAllFiles(dirPath, fileList, basePath)], nested at most [fuel]
    directories deep. *)
Fixpoint getAllFiles (fuel : nat) (dirPath : string) (fileList : list string)
  (basePath : string) : Async (list string) :=
  match fuel with
  | O => OutOfFuel
  | S fuel' =>
      await files <- perform (Fs.readdir dirPath) ;;
      getAllFiles_loop (fun filePath fileList' => getAllFiles fuel' filePath fileList' basePath)
        dirPath basePath files fileList
  end.

(** [for (const relPath of files) {...}] of the [compress] tool. *)
Fixpoint read_listed_files (inputPath baseDir : string) (files : list string)
  (filesToCompress : list Item.t) : Async (list Item.t) :=
  match files with
  | [] => Return filesToCompress
  | relPath :: rest =>
      let fullPath := path_join inputPath relPath in
      await data <- perform (Fs.readFile fullPath) ;;
      read_listed_files inputPath baseDir rest
        (filesToCompress ++
           [ {| Item.name := path_join baseDir relPath; Item.data := U8 data |} ])
  end.

(** [for (const inputPath of inputPaths) {...}] of the [compress] tool. *)
Fixpoint collect_inputs (fuel : nat) (inputPaths : list string)
  (filesToCompress : list Item.t) : Async (list Item.t) :=
  match inputPaths with
  | [] => Return filesToCompress
  | inputPath :: rest =>
      await found <- exists_ inputPath ;;
      if negb found then
        Throw (new_Error ("找不到输入路径: " ++ inputPath))
      else
        await stats <- perform (Fs.stat inputPath) ;;
        await filesToCompress' <-
          (if Fs.isDirectory stats then
             let baseDir := path_basename inputPath in
             await files <- getAllFiles fuel inputPath [] inputPath ;;
             read_listed_files inputPath baseDir files filesToCompress
           else
             await data <- perform (Fs.readFile inputPath) ;;
             Return (filesToCompress ++
                       [ {| Item.name := path_basename inputPath;
                            Item.data := U8 data |} ])) ;;
        collect_inputs fuel rest filesToCompress'
  end.

(** [execute] of the [compress] tool; the result is the list of the
    texts of [content]. *)
Definition compress_execute (fuel : nat) (now : Z) (args : CompressArgs.t)
  : Async (list string) :=
  try_catch
    (let outputPath := CompressArgs.output args in
     let shouldOverwrite :=
       nullish_or match CompressArgs.options args with
                  | Some o => CompressTool.overwrite o
                  | None => None
                  end false in
     await outputExists <- exists_ outputPath ;;
     if outputExists && negb shouldOverwrite then
       Throw (new_Error ("输出文件 " ++ outputPath ++ " 已存在。设置 overwrite: true 以覆盖。"))
     else
       let outputDir := path_dirname outputPath in
       await dirExists <- exists_ outputDir ;;
       await _ <- (if negb dirExists then perform (Fs.mkdir outputDir) else Return tt) ;;
       let inputPaths :=
         match CompressArgs.input args with
         | CompressArgs.Paths ps => ps
         | CompressArgs.Path p => [p]
         end in
       await filesToCompress <- collect_inputs fuel inputPaths [] ;;
       await result <-
         settle (compressData now (Array filesToCompress)
                   (CompressTool.compressionOptions (CompressArgs.options args))) ;;
       await _ <- perform (Fs.writeFile outputPath (bytes_of_archive result)) ;;
       Return [ ("压缩完成。已创建 " ++ outputPath ++ " 文件，包含 "
                 ++ show_nat (List.length filesToCompress) ++ " 个文件。")%string ])
    (fun error => Return [ ("压缩失败: " ++ formatError (IsError error))%string ]).

(** [for (const file of result) {...}] of the [decompress] tool. *)
Fixpoint write_extracted (outputPath : string) (overwrite : bool)
  (result : list Extracted.t) (extractedFiles : list string) : Async (list string) :=
  match result with
  | [] => Return extractedFiles
  | file :: rest =>
      let outputFilePath := path_join outputPath (Extracted.name file) in
      let outputFileDir := path_dirname outputFilePath in
      await dirExists <- exists_ outputFileDir ;;
      await _ <- (if negb dirExists then perform (Fs.mkdir outputFileDir) else Return tt) ;;
      await fileExists <- exists_ outputFilePath ;;
      if fileExists && negb overwrite then
        Await (Fs.console_warn ("跳过已存在的文件: " ++ outputFilePath))
          (fun _ => write_extracted outputPath overwrite rest extractedFiles)
      else
        await _ <- perform (Fs.writeFile outputFilePath (Extracted.data file)) ;;
        write_extracted outputPath overwrite rest
          (extractedFiles ++ [Extracted.name file])
  end.

(** [execute] of the [decompress] tool. *)
Definition decompress_execute (args : DecompressArgs.t) : Async (list string) :=
  try_catch
    (let inputPath := DecompressArgs.input args in
     let outputPath := DecompressArgs.output args in
     let options := DecompressArgs.options args in
     let overwrite :=
       nullish_or match options with
                  | Some o => DecompressArgs.overwrite o
                  | None => None
                  end false in
     let createDirectories :=
       nullish_or match options with
                  | Some o => DecompressArgs.createDirectories o
                  | None => None
                  end true in
     await inputExists <- exists_ inputPath ;;
     if negb inputExists then
       Throw (new_Error ("找不到输入文件: " ++ inputPath))
     else
       await outputExists <- exists_ outputPath ;;
       await _ <-
         (if outputExists then
            await stats <- perform (Fs.stat outputPath) ;;
            if negb (Fs.isDirectory stats) then
              Throw (new_Error ("输出路径不是目录: " ++ outputPath))
            else Return tt
          else if createDirectories then perform (Fs.mkdir outputPath)
          else Throw (new_Error ("输出目录不存在: " ++ outputPath))) ;;
       await zipData <- perform (Fs.readFile inputPath) ;;
       await result <-
         settle (decompressData (archive_of_bytes zipData)
                   {| DecompressionOptions.password :=
                        match options with
                        | Some o => DecompressArgs.password o
                        | None => None
                        end |}) ;;
       await extractedFiles <- write_extracted outputPath overwrite result [] ;;
       Return [ ("解压完成。已将 " ++ show_nat (List.length extractedFiles)
                 ++ " 个文件解压到 " ++ outputPath)%string ])
    (fun error => Return [ ("解压失败: " ++ formatError (IsError error))%string ]).

(** [formatSize] of the [getZipInfo] tool. *)
Definition formatSize (size : nat) : string :=
  if size <? 1024 then (show_nat size ++ " B")%string
  else if size <? 1024 * 1024 then (quotient_toFixed2 size 1024 ++ " KB")%string
  else if size <? 1024 * 1024 * 1024
       then (quotient_toFixed2 size (1024 * 1024) ++ " MB")%string
  else (quotient_toFixed2 size (1024 * 1024 * 1024) ++ " GB")%string.

(** One line of [filesInfo]. *)
Definition file_line (file : ZipInfo.t) : string :=
  ("- " ++ ZipInfo.filename file ++ ": 原始大小=" ++ formatSize (ZipInfo.size file)
   ++ ", 压缩后=" ++ formatSize (ZipInfo.compressedSize file)
   ++ ", 修改日期=" ++ toLocaleString (ZipInfo.lastModDate file)
   ++ ", 加密=" ++ (if ZipInfo.encrypted file then "是" else "否"))%string.

(** The [content] built from the metadata. *)
Definition info_content (fileName : string) (metadata : ZipMetadata.t) : list string :=
  let compressionRatio :=
    if 0 <? ZipMetadata.totalSize metadata
    then (saving_toFixed2 (ZipMetadata.totalCompressedSize metadata)
            (ZipMetadata.totalSize metadata) ++ "%")%string
    else "0%"%string in
  let filesInfo :=
    String.concat (String "010"%char EmptyString)
      (map file_line (ZipMetadata.files metadata)) in
  [ ("ZIP文件 " ++ String "034"%char fileName
     ++ String "034"%char " 信息概览：")%string;
    ("总文件数: " ++ show_nat (List.length (ZipMetadata.files metadata)))%string;
    ("总大小: " ++ formatSize (ZipMetadata.totalSize metadata))%string;
    ("压缩后大小: " ++ formatSize (ZipMetadata.totalCompressedSize metadata))%string;
    ("压缩率: " ++ compressionRatio)%string;
    match ZipMetadata.comment metadata with
    | Some c => if String.eqb c "" then ""%string else ("注释: " ++ c)%string
    | None => ""%string
    end;
    (String "010"%char "文件详情:" ++ String "010"%char filesInfo)%string ].

(** [execute] of the [getZipInfo] tool. *)
Definition info_execute (args : InfoArgs.t) : Async (list string) :=
  try_catch
    (let inputPath := InfoArgs.input args in
     await inputExists <- exists_ inputPath ;;
     if negb inputExists then
       Throw (new_Error ("找不到输入文件: " ++ inputPath))
     else
       await zipData <- perform (Fs.readFile inputPath) ;;
       await metadata <-
         settle (getZipInfo (archive_of_bytes zipData)
                   {| DecompressionOptions.password :=
                        match InfoArgs.options args with
                        | Some o => InfoArgs.password o
                        | None => None
                        end |}) ;;
       Return (info_content (path_basename inputPath) metadata))
    (fun error => Return [ ("获取ZIP信息失败: " ++ formatError (IsError error))%string ]).

End Tools.

(** ** Runs of a tool

    A run pairs every call with the answer the file system gave.  [runs]
    ranges over all file systems; [eval] and [trace_of] follow one oracle
    that answers every call. *)

Inductive Event :=
| event {X : Type} (call : Fs.Call X) (answer : X).

Inductive Outcome (A : Type) : Type :=
| Returned (a : A)
| Threw (e : Error)
| Unfinished.

Arguments Returned {A} a.
Arguments Threw {A} e.
Arguments Unfinished {A}.

Fixpoint runs {A} (p : Async A) (trace : list Event) (o : Outcome A) : Prop :=
  match p with
  | Return a => trace = [] /\ o = Returned a
  | Throw e => trace = [] /\ o = Threw e
  | OutOfFuel => trace = [] /\ o = Unfinished
  | Await call k =>
      exists answer rest, trace = event call answer :: rest /\ runs (k answer) rest o
  end.

Definition Oracle := forall X, Fs.Call X -> X.

Fixpoint eval {A} (w : Oracle) (p : Async A) : Outcome A :=
  match p with
  | Return a => Returned a
  | Throw e => Threw e
  | OutOfFuel => Unfinished
  | Await call k => eval w (k (w _ call))
  end.

Fixpoint trace_of {A} (w : Oracle) (p : Async A) : list Event :=
  match p with
  | Await call k => event call (w _ call) :: trace_of w (k (w _ call))
  | _ => []
  end.

(** The path and data of a [writeFile] event. *)
Definition write_of (e : Event) : option (string * bytes) :=
  match e with
  | event call _ =>
      match call with
      | Fs.writeFile path data => Some (path, data)
      | _ => None
      end
  end.

(** The path of a [mkdir] event. *)
Definition mkdir_of (e : Event) : option string :=
  match e with
  | event call _ =>
      match call with
      | Fs.mkdir path => Some path
      | _ => None
      end
  end.

(** The path of an [access] event that was answered by a rejection: the
    path was reported as missing. *)
Definition missing_of (e : Event) : option string :=
  match e with
  | event call answer =>
      match call in Fs.Call X return X -> option string with
      | Fs.access path =>
          fun answer => match answer with
                        | Rejected _ => Some path
                        | Resolved _ => None
                        end
      | _ => fun _ => None
      end answer
  end.

(** The path of a [readFile] event and the bytes it was answered with,
    if any. *)
Definition read_of (e : Event) : option (string * option bytes) :=
  match e with
  | event call answer =>
      match call in Fs.Call X return X -> option (string * option bytes) with
      | Fs.readFile path =>
          fun answer => match answer with
                        | Resolved data => Some (path, Some data)
                        | Rejected _ => Some (path, None)
                        end
      | _ => fun _ => None
      end answer
  end.

(** The [writeFile] calls of a trace, in order. *)
Fixpoint writes (trace : list Event) : list (string * bytes) :=
  match trace with
  | [] => []
  | e :: rest =>
      match write_of e with
      | Some w => w :: writes rest
      | None => writes rest
      end
  end.

(** The calls of a trace that change the file system: [writeFile] and
    [mkdir]. *)
Fixpoint changes (trace : list Event) : list Event :=
  match trace with
  | [] => []
  | e :: rest =>
      match write_of e, mkdir_of e with
      | None, None => changes rest
      | _, _ => e :: changes rest
      end
  end.

(** Every [writeFile] of the trace comes right after an [access] of the
    same path that reported it missing; [previous] is the event before the
    trace. *)
Fixpoint writes_guarded (previous : option Event) (trace : list Event) : Prop :=
  match trace with
  | [] => True
  | e :: rest =>
      match write_of e with
      | Some (path, _) =>
          match previous with
          | Some before => missing_of before = Some path
          | None => False
          end
      | None => True
      end /\ writes_guarded (Some e) rest
  end.

(** A directory tree on disk: a regular file, or a directory with its
    named children in the order [readdir] lists them. *)
Inductive Tree :=
| FileTree (data : bytes)
| DirTree (children : Forest)
with Forest :=
| NoChild
| Child (name : string) (child : Tree) (rest : Forest).

Fixpoint child_names (children : Forest) : list string :=
  match children with
  | NoChild => []
  | Child name _ rest => name :: child_names rest
  end.

Section Trees.
Context {runtime : Runtime}.

(** The paths of the regular files at and below [path], depth first,
    children in listed order. *)
Fixpoint tree_files (path : string) (t : Tree) : list string :=
  match t with
  | FileTree _ => [path]
  | DirTree children => forest_files path children
  end
with forest_files (dirPath : string) (children : Forest) : list string :=
  match children with
  | NoChild => []
  | Child name child rest =>
      tree_files (path_join dirPath name) child ++ forest_files dirPath rest
  end.

(** The number of directories nested in one another, the tree itself
    included. *)
Fixpoint tree_depth (t : Tree) : nat :=
  match t with
  | FileTree _ => 0
  | DirTree children => S (forest_depth children)
  end
with forest_depth (children : Forest) : nat :=
  match children with
  | NoChild => 0
  | Child _ child rest => Nat.max (tree_depth child) (forest_depth rest)
  end.

(** The oracle answers [stat] and [readdir] as the tree at [path]
    says. *)
Fixpoint describes (w : Oracle) (path : string) (t : Tree) : Prop :=
  match t with
  | FileTree _ => w _ (Fs.stat path) = Resolved {| Fs.isDirectory := false |}
  | DirTree children =>
      w _ (Fs.stat path) = Resolved {| Fs.isDirectory := true |} /\
      w _ (Fs.readdir path) = Resolved (child_names children) /\
      describes_children w path children
  end
with describes_children (w : Oracle) (dirPath : string) (children : Forest) : Prop :=
  match children with
  | NoChild => True
  | Child name child rest =>
      describes w (path_join dirPath name) child /\
      describes_children w dirPath rest
  end.

End Trees.

(** The [mkdir] calls of a trace, in order. *)
Fixpoint mkdirs (trace : list Event) : list string :=
  match trace with
  | [] => []
  | e :: rest =>
      match mkdir_of e with
      | Some path => path :: mkdirs rest
      | None => mkdirs rest
      end
  end.

(** The [readFile] calls of a trace with their answers, in order. *)
Fixpoint reads (trace : list Event) : list (string * option bytes) :=
  match trace with
  | [] => []
  | e :: rest =>
      match read_of e with
      | Some r => r :: reads rest
      | None => reads rest
      end
  end.

(** The trace is empty or starts with a call other than [writeFile]. *)
Definition starts_quietly (trace : list Event) : Prop :=
  match trace with
  | [] => True
  | e :: _ => write_of e = None
  end.

(** A body that, in every run, calls neither [writeFile] nor [mkdir]. *)
Definition reads_only {A} (p : Async A) : Prop :=
  forall trace o, runs p trace o -> changes trace = [].

(** The options of the tools as [execute] reads them. *)
Definition compress_overwrite (args : CompressArgs.t) : bool :=
  nullish_or match CompressArgs.options args with
             | Some o => CompressTool.overwrite o
             | None => None
             end false.

Definition decompress_overwrite (args : DecompressArgs.t) : bool :=
  nullish_or match DecompressArgs.options args with
             | Some o => DecompressArgs.overwrite o
             | None => None
             end false.

Definition decompress_password (args : DecompressArgs.t) : DecompressionOptions.t :=
  {| DecompressionOptions.password :=
       match DecompressArgs.options args with
       | Some o => DecompressArgs.password o
       | None => None
       end |}.

(** The text of the [compress] tool on success. *)
Definition compress_done (outputPath : string) (count : nat) : string :=
  ("压缩完成。已创建 " ++ outputPath ++ " 文件，包含 " ++ show_nat count ++ " 个文件。")%string.

(** The text of the [decompress] tool on success. *)
Definition decompress_done (outputPath : string) (count : nat) : string :=
  ("解压完成。已将 " ++ show_nat count ++ " 个文件解压到 " ++ outputPath)%string.

(** ** A reference runtime and a sample disk

    A runtime that computes, for running the tools on concrete inputs:
    paths are joined with a slash, fractions are cut to their integer part,
    and a few byte strings stand for the archives of [Sample]. *)
Module RefRuntime.

Definition join (a b : string) : string := (a ++ "/" ++ b)%string.

(** The position after the last slash of [s], counted from [i]. *)
Fixpoint after_last_slash (s : string) (i : nat) (found : nat) : nat :=
  match s with
  | EmptyString => found
  | String c r =>
      after_last_slash r (S i) (if Ascii.eqb c "/" then S i else found)
  end.

Definition basename (p : string) : string :=
  let k := after_last_slash p 0 0 in substring k (String.length p - k) p.

Definition dirname (p : string) : string :=
  match after_last_slash p 0 0 with
  | 0 => "."%string
  | 1 => "/"%string
  | S k => substring 0 k p
  end.

Definition relative (base p : string) : string :=
  let k := S (String.length base) in substring k (String.length p - k) p.

(** [(n / d).toFixed(2)] for a quotient that is not negative: the
    hundredths are rounded to the nearest, a tie upwards. *)
Definition fixed2 (n d : nat) : string :=
  let hundredths := (200 * n + d) / (2 * d) in
  let cents := hundredths mod 100 in
  (show_nat (hundredths / 100) ++ "."
   ++ (if Nat.ltb cents 10 then "0" else "") ++ show_nat cents)%string.

(** [((1 - c / t) * 100).toFixed(2)] *)
Definition saving (c t : nat) : string :=
  if Nat.leb c t then fixed2 (100 * (t - c)) t
  else ("-" ++ fixed2 (100 * (c - t)) t)%string.

Definition archive_table (b : bytes) : ZipJs.ArchiveBuffer :=
  if String.eqb (string_of_list_byte b) "PK-plain"
  then ZipJs.Zip [Sample.plain; Sample.docs] []
  else if String.eqb (string_of_list_byte b) "PK-secret"
  then ZipJs.Zip [Sample.plain; Sample.secret] []
  else ZipJs.NotZip b.

Definition archive_bytes (a : ZipJs.ArchiveBuffer) : bytes :=
  match a with
  | ZipJs.Zip entries c => List.concat (map ZipJs.rawData entries) ++ c
  | ZipJs.NotZip raw => raw
  end.

#[export] Instance runtime : Runtime :=
  {| path_join := join;
     path_dirname := dirname;
     path_basename := basename;
     path_relative := relative;
     quotient_toFixed2 := fixed2;
     saving_toFixed2 := saving;
     toLocaleString := fun z => NilEmpty.string_of_int (Z.to_int z);
     bytes_of_archive := archive_bytes;
     archive_of_bytes := archive_table |}.

End RefRuntime.

Module SampleDisk.

Definition ENOENT : Error := new_Error "ENOENT: no such file or directory".

Definition directories : list string :=
  ["/in"; "/in/sub"; "/in/empty"; "/out"]%string.

Definition regular_files : list (string * bytes) :=
  [("/in/a.txt"%string, Sample.hello);
   ("/in/sub/b.txt"%string, Sample.world);
   ("/other/a.txt"%string, Sample.world);
   ("/plain.zip"%string, list_byte_of_string "PK-plain");
   ("/secret.zip"%string, list_byte_of_string "PK-secret");
   ("/out/a.txt"%string, Sample.world)].

Definition listing (path : string) : option (list string) :=
  if String.eqb path "/in" then Some ["a.txt"; "sub"; "empty"]%string
  else if String.eqb path "/in/sub" then Some ["b.txt"%string]
  else if String.eqb path "/in/empty" then Some []
  else if String.eqb path "/out" then Some ["a.txt"%string]
  else None.

Fixpoint content (files : list (string * bytes)) (path : string) : option bytes :=
  match files with
  | [] => None
  | (p, d) :: rest => if String.eqb p path then Some d else content rest path
  end.

Definition is_directory (path : string) : bool :=
  existsb (String.eqb path) directories.

(** A disk that answers every call from the tables above and accepts
    every write. *)
Definition disk : Oracle :=
  fun X call =>
    match call in Fs.Call X return X with
    | Fs.access path =>
        if is_directory path then Resolved tt
        else match content regular_files path with
             | Some _ => Resolved tt
             | None => Rejected ENOENT
             end
    | Fs.stat path =>
        if is_directory path then Resolved {| Fs.isDirectory := true |}
        else match content regular_files path with
             | Some _ => Resolved {| Fs.isDirectory := false |}
             | None => Rejected ENOENT
             end
    | Fs.readdir path =>
        match listing path with
        | Some names => Resolved names
        | None => Rejected ENOENT
        end
    | Fs.readFile path =>
        match content regular_files path with
        | Some d => Resolved d
        | None => Rejected ENOENT
        end
    | Fs.writeFile _ _ => Resolved tt
    | Fs.mkdir _ => Resolved tt
    | Fs.console_warn _ => tt
    end.

(** Requests to the tools. *)
Definition compress_args (inputs : list string) (output : string)
  (overwrite : option bool) : CompressArgs.t :=
  {| CompressArgs.input := CompressArgs.Paths inputs;
     CompressArgs.output := output;
     CompressArgs.options :=
       Some {| CompressTool.level := Some 9%Q;
               CompressTool.comment := Some "weekly"%string;
               CompressTool.password := None;
               CompressTool.encryptionStrength := None;
               CompressTool.overwrite := overwrite |} |}.

Definition decompress_args (input output : string) (password : option string)
  (overwrite : option bool) : DecompressArgs.t :=
  {| DecompressArgs.input := input;
     DecompressArgs.output := output;
     DecompressArgs.options :=
       Some {| DecompressArgs.password := password;
               DecompressArgs.overwrite := overwrite;
               DecompressArgs.createDirectories := None |} |}.

(** The tree below "/in". *)
Definition in_children : Forest :=
  Child "a.txt" (FileTree Sample.hello)
    (Child "sub" (DirTree (Child "b.txt" (FileTree Sample.world) NoChild))
       (Child "empty" (DirTree NoChild) NoChild)).

End SampleDisk.

(** ** Basic facts *)

Lemma bind_resolved {A B} (a : A) (k : A -> Promise B) :
  bind (Resolved a) k = k a.
Proof. reflexivity. Qed.

Example js_or_runs :
  js_or (Some 0%Q) 5 = 5%Q /\ js_or None 5 = 5%Q /\ js_or (Some 7%Q) 5 = 7%Q /\
  js_or (Some (-2)%Q) 5 = (-2)%Q /\ js_or (Some (5 # 2)%Q) 5 = (5 # 2)%Q.
Proof. repeat split. Qed.

(** [trim] on ASCII and on other white space: a no-break space (U+00A0)
    in front, an ideographic space (U+3000) and a line separator (U+2028)
    behind. *)
Example trim_runs :
  trim "  a b.txt "%string = "a b.txt"%string /\ trim "a.txt"%string = "a.txt"%string /\
  trim "   "%string = ""%string /\
  trim (string_of_list_ascii (utf8 [194; 160]%N) ++ "a.txt")%string = "a.txt"%string /\
  trim ("a.txt" ++ string_of_list_ascii (utf8 [227; 128; 128; 226; 128; 168]%N))%string
  = "a.txt"%string /\
  trim "压缩.txt"%string = "压缩.txt"%string.
Proof. repeat split. Qed.

(** The bound of the loop of [trimStart] is enough: what it returns does
    not start with white space any more. *)
Lemma without_prefix_length p : forall s r,
  without_prefix p s = Some r -> List.length s = List.length p + List.length r.
Proof.
  induction p as [|a p IH]; intros s r; simpl.
  - now intros [= ->].
  - destruct s as [|b s]; [discriminate|].
    destruct (Ascii.eqb a b); [|discriminate].
    intros H. simpl. now rewrite (IH _ _ H).
Qed.

Lemma without_space_shorter spaces s r :
  Forall (fun p => p <> []) spaces ->
  without_space spaces s = Some r -> List.length r < List.length s.
Proof.
  induction 1 as [|p spaces Hp _ IH]; simpl; [discriminate|].
  destruct (without_prefix p s) as [r'|] eqn:E; [|exact IH].
  intros [= ->]. apply without_prefix_length in E.
  destruct p; [contradiction | simpl in E; lia].
Qed.

Lemma strip_done spaces :
  Forall (fun p => p <> []) spaces ->
  forall fuel s, List.length s <= fuel ->
  without_space spaces (strip spaces fuel s) = None.
Proof.
  intros Hspaces. induction fuel as [|fuel IH]; intros s Hs; simpl.
  - destruct s; [|simpl in Hs; lia].
    destruct (without_space spaces []) as [r|] eqn:E; [|reflexivity].
    apply (without_space_shorter _ _ _ Hspaces) in E. simpl in E. lia.
  - destruct (without_space spaces s) as [r|] eqn:E; [|exact E].
    apply IH. apply (without_space_shorter _ _ _ Hspaces) in E. lia.
Qed.

Lemma trimStart_done s :
  without_space white_space (list_ascii_of_string (trimStart s)) = None.
Proof.
  unfold trimStart. rewrite list_ascii_of_string_of_list_ascii.
  apply strip_done.
  - unfold white_space. repeat constructor; discriminate.
  - clear. induction s as [|c s IH]; simpl; lia.
Qed.

Example endsWith_runs :
  endsWith "docs/" "/" = true /\ endsWith "docs/a.txt" "/" = false /\
  endsWith "" "/" = false.
Proof. repeat split. Qed.

Example includes_runs :
  includes "File already exists" "already" = true /\
  includes "File already exists" "a.txt" = false.
Proof. repeat split. Qed.

Lemma whole_eq_zero n : Qeq_bool (inject_Z n) 0 = (n =? 0)%Z.
Proof.
  unfold Qeq_bool, inject_Z. simpl. now rewrite Z.mul_1_r.
Qed.

Lemma whole_nonzero l : whole_from 1 l -> Qeq_bool l 0 = false.
Proof.
  intros [n [-> Hn]]. rewrite whole_eq_zero. apply Z.eqb_neq. lia.
Qed.

Lemma js_or_valid_level l :
  valid_level l -> whole_from 1 (js_or l 5).
Proof.
  destruct l as [l|]; simpl.
  - intros [n [-> Hn]]. rewrite whole_eq_zero.
    destruct (Z.eqb_spec n 0).
    + exists 5%Z. split; [reflexivity | lia].
    + exists n. split; [reflexivity | lia].
  - intros _. exists 5%Z. split; [reflexivity | lia].
Qed.

Lemma js_or_nonzero l n :
  Qeq_bool l 0 = false -> js_or (Some l) n = l.
Proof. intros Hl. simpl. now rewrite Hl. Qed.

Lemma existsb_eqb_absent n l :
  ~ In n l -> existsb (String.eqb n) l = false.
Proof.
  induction l as [|m l IH]; simpl; [reflexivity|].
  intros Hn. destruct (String.eqb_spec n m) as [->|_]; simpl.
  - exfalso. apply Hn. now left.
  - apply IH. intros Hin. apply Hn. now right.
Qed.

Lemma reader_of_encode d :
  reader_of (encode_if_string d) = reader_of d.
Proof. destruct d; reflexivity. Qed.

Lemma encryption_password_some o p :
  ZipJs.encryption_password o = Some p ->
  ZipJs.password o = Some p /\ String.eqb p "" = false.
Proof.
  unfold ZipJs.encryption_password.
  destruct (ZipJs.password o) as [q|]; [|discriminate].
  destruct (String.eqb q "") eqn:E; [discriminate|].
  intros [= ->]. now split.
Qed.

Section WriterFacts.
Context {codec : ZipJs.Codec}.
Variable now : Z.

Lemma add_file_name zipWriter n d :
  file_name n ->
  ~ In n (ZipJs.filenames zipWriter) ->
  ZipJs.add zipWriter now n d =
  Resolved {| ZipJs.options := ZipJs.options zipWriter;
              ZipJs.files := ZipJs.files zipWriter ++
                [ZipJs.new_entry (ZipJs.options zipWriter) now n d] |}.
Proof.
  intros [Htrim _] Hfresh. unfold ZipJs.add.
  rewrite Htrim, (existsb_eqb_absent _ _ Hfresh). reflexivity.
Qed.

(** Adding files with fresh, pairwise distinct names appends one entry
    per item, in order. *)
Lemma add_items_files items : forall zipWriter,
  Forall (fun i => file_name (Item.name i)) items ->
  NoDup (ZipJs.filenames zipWriter ++ map Item.name items) ->
  add_items zipWriter now items =
  Resolved {| ZipJs.options := ZipJs.options zipWriter;
              ZipJs.files := ZipJs.files zipWriter ++
                map (entry_of now (ZipJs.options zipWriter)) items |}.
Proof.
  induction items as [|item rest IH]; intros zipWriter Hnames Hnodup.
  - simpl. rewrite app_nil_r. now destruct zipWriter.
  - inversion Hnames as [|? ? Hname Hrest]; subst.
    simpl. rewrite reader_of_encode.
    rewrite add_file_name; [|assumption|].
    + rewrite bind_resolved, IH; [|assumption|].
      * simpl. now rewrite <- app_assoc.
      * unfold ZipJs.filenames in *. simpl.
        rewrite map_app, <- app_assoc. exact Hnodup.
    + apply NoDup_remove_2 in Hnodup.
      intros Hin. apply Hnodup, in_or_app. now left.
Qed.

(** [getData] with the password the archive was written with gives
    back the bytes of a file entry. *)
Lemma getData_new_entry zipReader o n d :
  ZipJs.readerPassword zipReader = ZipJs.password o ->
  whole_from 1 (ZipJs.level o) ->
  endsWith n ZipJs.DIRECTORY_SIGNATURE = false ->
  ZipJs.getData zipReader (ZipJs.new_entry o now n d) = Resolved d.
Proof.
  intros Hpw Hlevel Hfile. unfold ZipJs.getData, ZipJs.new_entry. simpl.
  rewrite Hfile, Hpw, (whole_nonzero _ Hlevel).
  destruct Hlevel as [k [-> Hk]]. simpl.
  destruct (ZipJs.encryption_password o) as [p|] eqn:Hp.
  - apply encryption_password_some in Hp as [-> ->].
    rewrite ZipJs.decrypt_encrypt. simpl.
    rewrite ZipJs.inflate_deflate by assumption. simpl.
    now rewrite ZipJs.getData_of_declared_size.
  - simpl. rewrite ZipJs.inflate_deflate by assumption. simpl.
    now rewrite ZipJs.getData_of_declared_size.
Qed.

End WriterFacts.

Section ReaderFacts.
Context {codec : ZipJs.Codec}.

(** The accumulator of the extraction loop only ever grows at its
    end. *)
Lemma extract_entries_acc zipReader entries : forall results,
  extract_entries zipReader entries results =
  await rest <- extract_entries zipReader entries [] ;;
  Resolved (results ++ rest).
Proof.
  induction entries as [|entry entries IH]; intros results; simpl.
  - now rewrite app_nil_r.
  - destruct (negb (ZipJs.directory entry) && ZipJs.has_getData entry).
    + destruct (ZipJs.getData zipReader entry) as [d|e]; simpl; [|reflexivity].
      rewrite IH. rewrite (IH [_]).
      destruct (extract_entries zipReader entries []); simpl; [|reflexivity].
      now rewrite <- app_assoc.
    + apply IH.
Qed.

(** A directory entry is skipped. *)
Lemma extract_entries_directory zipReader entry entries results :
  ZipJs.directory entry = true ->
  extract_entries zipReader (entry :: entries) results =
  extract_entries zipReader entries results.
Proof. intros H. simpl. now rewrite H. Qed.

(** A file entry is extracted first; a failure ends the loop. *)
Lemma extract_entries_file zipReader entry entries results :
  ZipJs.directory entry = false ->
  extract_entries zipReader (entry :: entries) results =
  await data <- ZipJs.getData zipReader entry ;;
  extract_entries zipReader entries
    (results ++ [ {| Extracted.name := ZipJs.filename entry;
                     Extracted.data := data |} ]).
Proof. intros H. simpl. now rewrite H. Qed.

Lemma extract_entries_app zipReader entries1 : forall entries2 results,
  extract_entries zipReader (entries1 ++ entries2) results =
  await results' <- extract_entries zipReader entries1 results ;;
  extract_entries zipReader entries2 results'.
Proof.
  induction entries1 as [|entry entries1 IH]; intros entries2 results; simpl.
  - reflexivity.
  - destruct (negb (ZipJs.directory entry) && ZipJs.has_getData entry).
    + destruct (ZipJs.getData zipReader entry) as [d|e]; simpl; [|reflexivity].
      apply IH.
    + apply IH.
Qed.

(** Extraction of the entries written for files, with the password of
    the writer. *)
Lemma extract_written now zipReader o items : forall results,
  ZipJs.readerPassword zipReader = ZipJs.password o ->
  whole_from 1 (ZipJs.level o) ->
  Forall (fun i => file_name (Item.name i)) items ->
  extract_entries zipReader (map (entry_of now o) items) results =
  Resolved (results ++
    map (fun i => {| Extracted.name := Item.name i;
                     Extracted.data := reader_of (Item.data i) |}) items).
Proof.
  intros results Hpw Hlevel Hnames. revert results.
  induction Hnames as [|item rest [_ Hfile] _ IH]; intros results; simpl.
  - now rewrite app_nil_r.
  - rewrite Hfile. simpl.
    unfold entry_of at 1.
    rewrite (getData_new_entry now zipReader o _ _ Hpw Hlevel Hfile). simpl.
    rewrite IH, <- app_assoc. reflexivity.
Qed.

(** The loop of [getZipInfo] computes [metadata_of]. *)
Lemma collect_info_spec entries : forall files totalSize totalCompressedSize,
  collect_info entries files totalSize totalCompressedSize =
  (files ++ map info_of (filter is_file entries),
   totalSize + list_sum (map ZipJs.uncompressedSize (filter is_file entries)),
   totalCompressedSize + list_sum (map ZipJs.compressedSize (filter is_file entries))).
Proof.
  unfold is_file.
  induction entries as [|entry entries IH]; intros files ts tc; simpl.
  - now rewrite app_nil_r, !Nat.add_0_r.
  - destruct (ZipJs.directory entry); simpl; rewrite IH; [reflexivity|].
    now rewrite <- app_assoc, !Nat.add_assoc.
Qed.

Lemma getZipInfo_zip entries archiveComment options :
  getZipInfo (ZipJs.Zip entries archiveComment) options =
  Resolved (metadata_of entries archiveComment).
Proof.
  unfold getZipInfo. simpl. rewrite collect_info_spec. reflexivity.
Qed.

End ReaderFacts.

(** ** Writing and reading back *)

Section RoundTrip.
Context {codec : ZipJs.Codec}.
Variable now : Z.

Lemma last_occurrences_distinct entries :
  NoDup (map fst entries) -> last_occurrences entries = entries.
Proof.
  induction entries as [|e rest IH]; simpl; [reflexivity|].
  intros Hnodup. inversion Hnodup as [|? ? Hfresh Hrest]; subst.
  rewrite (existsb_eqb_absent _ _ Hfresh), IH; auto.
Qed.

(** The archive written for an array of files with distinct names. *)
Lemma compressData_files items options :
  Forall (fun i => file_name (Item.name i)) items ->
  NoDup (map Item.name items) ->
  compressData now (Array items) options =
  Resolved (ZipJs.Zip (map (entry_of now (writer_options options)) items) []).
Proof.
  intros Hnames Hnodup. unfold compressData, write_all.
  rewrite add_items_files; [reflexivity | assumption | exact Hnodup].
Qed.

Lemma decompressData_written zipPassword options items :
  DecompressionOptions.password zipPassword = CompressionOptions.password options ->
  valid_level (CompressionOptions.level options) ->
  Forall (fun i => file_name (Item.name i)) items ->
  decompressData (ZipJs.Zip (map (entry_of now (writer_options options)) items) [])
    zipPassword =
  Resolved (map (fun i => {| Extracted.name := Item.name i;
                             Extracted.data := reader_of (Item.data i) |}) items).
Proof.
  intros Hpw Hlevel Hnames. unfold decompressData. simpl.
  rewrite extract_written; auto.
  simpl. now apply js_or_valid_level.
Qed.

Lemma items_of_names entries :
  map Item.name (items_of entries) = map fst entries.
Proof. unfold items_of. rewrite map_map. reflexivity. Qed.

Lemma items_of_file_names entries :
  Forall (fun e => file_name (fst e)) entries ->
  Forall (fun i => file_name (Item.name i)) (items_of entries).
Proof. unfold items_of. rewrite Forall_map. trivial. Qed.

Lemma extracted_of_items entries :
  map (fun i => {| Extracted.name := Item.name i;
                   Extracted.data := reader_of (Item.data i) |}) (items_of entries) =
  extracted_of entries.
Proof. unfold items_of, extracted_of. rewrite map_map. reflexivity. Qed.

End RoundTrip.

(** C1, as amended.  For every sequence of (name, byte-content) pairs
    whose names are pairwise distinct, carry no surrounding white space and
    do not end in the separator, and every configuration whose level is
    absent or in 0..9 (with or without password), [decompressData] applied
    with the same password to the buffer [compressData] produced yields
    entries with the same names and the same bytes, in input order. *)
Theorem compress_decompress_round_trip {codec : ZipJs.Codec} (now : Z)
  (entries : list (string * bytes)) (options : CompressionOptions.t) :
  valid_level (CompressionOptions.level options) ->
  NoDup (map fst entries) ->
  Forall (fun e => file_name (fst e)) entries ->
  round_trip now entries options.
Proof.
  intros Hlevel Hnodup Hnames.
  exists (ZipJs.Zip (map (entry_of now (writer_options options)) (items_of entries)) []).
  split.
  - apply compressData_files.
    + now apply items_of_file_names.
    + now rewrite items_of_names.
  - rewrite decompressData_written.
    + now rewrite extracted_of_items, last_occurrences_distinct.
    + reflexivity.
    + assumption.
    + now apply items_of_file_names.
Qed.

Lemma compress_decompress_round_trip_witness :
  valid_level (CompressionOptions.level (Sample.options (Some 0%Q) (Some "p"%string))) /\
  NoDup (map fst Sample.two_files) /\
  Forall (fun e => file_name (fst e)) Sample.two_files /\
  round_trip (codec := RefCodec.codec) 0 Sample.two_files
    (Sample.options (Some 0%Q) (Some "p"%string)).
Proof.
  assert (Hlevel : valid_level (Some 0%Q))
    by (exists 0%Z; split; [reflexivity | lia]).
  assert (Hnodup : NoDup (map fst Sample.two_files)).
  { repeat constructor; simpl; intuition discriminate. }
  assert (Hnames : Forall (fun e => file_name (fst e)) Sample.two_files).
  { repeat constructor. }
  split; [exact Hlevel|]. split; [exact Hnodup|]. split; [exact Hnames|].
  exact (compress_decompress_round_trip (codec := RefCodec.codec) 0
           Sample.two_files (Sample.options (Some 0%Q) (Some "p"%string))
           Hlevel Hnodup Hnames).
Defined.

(** C1 as stated fails on the code: a second item with a name already
    added makes [compressData] throw, and an item whose name ends in the
    separator is written as a directory entry, which [decompressData]
    skips, so its bytes do not come back. *)
Lemma round_trip_fails_on_same_name_and_on_folder :
  compressData (codec := RefCodec.codec) 0 (Array (items_of Sample.same_name))
    CompressionOptions.empty
  = Rejected (compress_error ZipJs.ERR_DUPLICATED_NAME) /\
  ~ round_trip (codec := RefCodec.codec) 0 Sample.same_name CompressionOptions.empty /\
  (exists buffer,
      compressData (codec := RefCodec.codec) 0 (Array (items_of Sample.slash_name))
        CompressionOptions.empty = Resolved buffer /\
      decompressData (codec := RefCodec.codec) buffer DecompressionOptions.empty
      = Resolved []) /\
  ~ round_trip (codec := RefCodec.codec) 0 Sample.slash_name CompressionOptions.empty.
Proof.
  split; [reflexivity|]. split.
  { intros [buffer [Hw _]]. vm_compute in Hw. discriminate. }
  split.
  { eexists. split; reflexivity. }
  intros [buffer [Hw Hr]]. vm_compute in Hw.
  injection Hw as <-. vm_compute in Hr. discriminate.
Qed.

(** A name that differs from another one by a no-break space in front
    is the same name to the writer. *)
Example no_break_space_is_trimmed :
  compressData (codec := RefCodec.codec) 0
    (Array (items_of
       [ ((string_of_list_ascii (utf8 [194; 160]%N) ++ "a.txt")%string, Sample.hello);
         ("a.txt"%string, Sample.world) ]))
    CompressionOptions.empty
  = Rejected (new_Error "压缩失败: File already exists").
Proof. reflexivity. Qed.

(** ** Passwords and failures while reading *)

Section Passwords.
Context {codec : ZipJs.Codec}.
Variable now : Z.




(** The first entry whose extraction fails ends [decompressData]: the
    entries extracted before it are dropped and the error of the package
    is thrown again under the prefix of the engine. *)
Lemma decompressData_aborts entries1 entry entries2 archiveComment options results e :
  let zipReader :=
    ZipJs.new_ZipReader (ZipJs.Zip (entries1 ++ entry :: entries2) archiveComment)
      (DecompressionOptions.password options) in
  extract_entries zipReader entries1 [] = Resolved results ->
  ZipJs.directory entry = false ->
  ZipJs.getData zipReader entry = Rejected e ->
  decompressData (ZipJs.Zip (entries1 ++ entry :: entries2) archiveComment) options
  = Rejected (decompress_error e).
Proof.
  intros zipReader Hbefore Hfile Hfail. unfold decompressData. simpl.
  fold zipReader.
  rewrite extract_entries_app, Hbefore. simpl.
  rewrite Hfile. simpl. rewrite Hfail. reflexivity.
Qed.

End Passwords.



(** The password check of the reference cipher refuses the password
    "wrong" for what was written under "p", and [decompressData] reports
    it. *)
Example wrong_password_runs :
  exists buffer,
    compressData (codec := RefCodec.codec) 0 (Array (items_of Sample.two_files))
      (Sample.options (Some 9%Q) (Some "p"%string)) = Resolved buffer /\
    password_refused (codec := RefCodec.codec) "wrong" buffer /\
    decompressData (codec := RefCodec.codec) buffer (Sample.with_password (Some "wrong"%string))
    = Rejected (new_Error "解压失败: Invalid password").
Proof. eexists. split; [reflexivity|]. split; reflexivity. Qed.


(** ** The level handed to the writer *)

(** Levels 1 to 9 reach the writer unchanged. *)
Lemma requested_level_reaches_writer l password strength :
  whole_from 1 l ->
  ZipJs.level (writer_options
    {| CompressionOptions.level := Some l;
       CompressionOptions.password := password;
       CompressionOptions.encryptionStrength := strength |}) = l.
Proof. intros Hl. apply js_or_nonzero. now apply whole_nonzero. Qed.

(** C3, evaluated where the code departs from it.  With level 0,
    [options.level || 5] hands level 5 to the writer: the bytes of a file
    are deflated at effort 5 and recorded with the Deflate method, exactly
    as with level 5; they are not stored. *)
Theorem level_zero_runs_deflate {codec : ZipJs.Codec} (now : Z) (d : bytes) :
  compressData now (Array (items_of [("a.txt"%string, d)])) (Sample.options (Some 0%Q) None)
  = Resolved (ZipJs.Zip
      [ {| ZipJs.filename := "a.txt";
           ZipJs.directory := false;
           ZipJs.encrypted := false;
           ZipJs.compressionMethod := ZipJs.Deflate;
           ZipJs.uncompressedSize := List.length d;
           ZipJs.compressedSize := List.length (ZipJs.deflate 5 d);
           ZipJs.lastModDate := now;
           ZipJs.comment := "";
           ZipJs.rawData := ZipJs.deflate 5 d |} ] []) /\
  forall data password strength,
    compressData now data
      {| CompressionOptions.level := Some 0%Q;
         CompressionOptions.password := password;
         CompressionOptions.encryptionStrength := strength |}
    = compressData now data
      {| CompressionOptions.level := Some 5%Q;
         CompressionOptions.password := password;
         CompressionOptions.encryptionStrength := strength |}.
Proof. split; reflexivity. Qed.

(** ** What the writer produces *)

Section Sizes.
Context {codec : ZipJs.Codec}.

(** What [add] does to the writer when it succeeds. *)
Lemma add_resolved zipWriter now n d zipWriter' :
  ZipJs.add zipWriter now n d = Resolved zipWriter' ->
  zipWriter' =
  {| ZipJs.options := ZipJs.options zipWriter;
     ZipJs.files := ZipJs.files zipWriter ++
       [ZipJs.new_entry (ZipJs.options zipWriter) now (trim n) d] |}.
Proof.
  unfold ZipJs.add.
  destruct (existsb _ _); [discriminate|]. now intros [= <-].
Qed.

Lemma add_written zipWriter now n d zipWriter' :
  Forall (written_by (ZipJs.options zipWriter) now) (ZipJs.files zipWriter) ->
  ZipJs.add zipWriter now n d = Resolved zipWriter' ->
  ZipJs.options zipWriter' = ZipJs.options zipWriter /\
  Forall (written_by (ZipJs.options zipWriter) now) (ZipJs.files zipWriter').
Proof.
  intros Hall Hadd. apply add_resolved in Hadd. subst zipWriter'. simpl.
  split; [reflexivity|].
  apply Forall_app. split; [assumption|].
  constructor; [|constructor]. now exists (trim n), d.
Qed.

Lemma add_items_written now items : forall zipWriter zipWriter',
  Forall (written_by (ZipJs.options zipWriter) now) (ZipJs.files zipWriter) ->
  add_items zipWriter now items = Resolved zipWriter' ->
  Forall (written_by (ZipJs.options zipWriter) now) (ZipJs.files zipWriter').
Proof.
  induction items as [|item rest IH]; intros zipWriter zipWriter' Hall Hadd.
  - simpl in Hadd. now injection Hadd as <-.
  - simpl in Hadd.
    destruct (ZipJs.add zipWriter now (Item.name item) _) as [zw1|e] eqn:Hone;
      simpl in Hadd; [|discriminate].
    destruct (add_written _ _ _ _ _ Hall Hone) as [Hopts Hall1].
    rewrite <- Hopts in Hall1 |- *. now apply (IH zw1).
Qed.

(** Every archive [compressData] returns is made of entries built by
    [add] under the options of the call, and has no comment. *)
Lemma compressData_written now data options buffer :
  compressData now data options = Resolved buffer ->
  exists entries,
    buffer = ZipJs.Zip entries [] /\
    Forall (written_by (writer_options options) now) entries.
Proof.
  unfold compressData, write_all. fold (writer_options options).
  set (zipWriter := ZipJs.new_ZipWriter (writer_options options)).
  assert (Hinit : Forall (written_by (ZipJs.options zipWriter) now)
                         (ZipJs.files zipWriter)) by constructor.
  destruct data as [d | items].
  - destruct (ZipJs.add zipWriter now "file" _) as [zw|e] eqn:Hadd;
      simpl; [|discriminate].
    intros [= <-]. exists (ZipJs.files zw). split; [reflexivity|].
    now destruct (add_written _ _ _ _ _ Hinit Hadd).
  - destruct (add_items zipWriter now items) as [zw|e] eqn:Hadd;
      simpl; [|discriminate].
    intros [= <-]. exists (ZipJs.files zw). split; [reflexivity|].
    exact (add_items_written _ _ _ _ Hinit Hadd).
Qed.

(** The entries built by [add] are extracted with the password of the
    writer, and the bytes that come back have the sizes the records
    declare. *)
Lemma extract_written_by zipReader o now entries :
  ZipJs.readerPassword zipReader = ZipJs.password o ->
  whole_from 1 (ZipJs.level o) ->
  Forall (written_by o now) entries ->
  exists out,
    extract_entries zipReader entries [] = Resolved out /\
    content_size out = list_sum (map ZipJs.uncompressedSize (filter is_file entries)).
Proof.
  intros Hpw Hlevel Hall.
  induction Hall as [|entry entries [n [d ->]] _ [out [Hout Hsize]]].
  - exists []. split; reflexivity.
  - cbn [filter]. unfold is_file at 1.
    destruct (ZipJs.directory (ZipJs.new_entry o now n d)) eqn:Hdir; cbn [negb].
    + exists out. split; [|exact Hsize].
      now rewrite extract_entries_directory.
    + exists ({| Extracted.name := n; Extracted.data := d |} :: out).
      rewrite extract_entries_file by assumption.
      rewrite (getData_new_entry now zipReader o n d Hpw Hlevel Hdir).
      rewrite bind_resolved, extract_entries_acc, Hout.
      split; [reflexivity|].
      unfold content_size in *. simpl. now rewrite Hsize.
Qed.

End Sizes.

(** ** Directory entries *)

Section Directories.
Context {codec : ZipJs.Codec}.

(** [getData] only looks at the password of the reader. *)
Lemma getData_password_only zipReader1 zipReader2 entry :
  ZipJs.readerPassword zipReader1 = ZipJs.readerPassword zipReader2 ->
  ZipJs.getData zipReader1 entry = ZipJs.getData zipReader2 entry.
Proof. intros H. unfold ZipJs.getData. now rewrite H. Qed.

Lemma extract_entries_password_only zipReader1 zipReader2 entries : forall results,
  ZipJs.readerPassword zipReader1 = ZipJs.readerPassword zipReader2 ->
  extract_entries zipReader1 entries results =
  extract_entries zipReader2 entries results.
Proof.
  intros results H. revert results.
  induction entries as [|entry entries IH]; intros results; simpl; [reflexivity|].
  rewrite (getData_password_only _ _ entry H).
  destruct (negb (ZipJs.directory entry) && ZipJs.has_getData entry); [|apply IH].
  destruct (ZipJs.getData zipReader2 entry); simpl; [apply IH | reflexivity].
Qed.

(** [decompressData] on a well-formed archive, with the reader reduced
    to its password. *)
Lemma decompressData_zip entries archiveComment options :
  decompressData (ZipJs.Zip entries archiveComment) options =
  try_catch_rethrow "解压失败: "
    (extract_entries
       (ZipJs.new_ZipReader (ZipJs.Zip [] []) (DecompressionOptions.password options))
       entries []).
Proof.
  unfold decompressData. simpl.
  rewrite (extract_entries_password_only
             (ZipJs.new_ZipReader (ZipJs.Zip entries archiveComment)
                (DecompressionOptions.password options))
             (ZipJs.new_ZipReader (ZipJs.Zip [] [])
                (DecompressionOptions.password options)) entries [] eq_refl).
  now destruct (extract_entries _ entries []).
Qed.

Lemma filter_is_file_directory before entry after :
  ZipJs.directory entry = true ->
  filter is_file (before ++ entry :: after) = filter is_file (before ++ after).
Proof.
  intros Hdir. rewrite !filter_app. simpl.
  unfold is_file at 2. now rewrite Hdir.
Qed.

End Directories.

(** C5, as amended.  For every archive containing a directory entry,
    that entry is left out of the [files] list and of
    [totalSize]/[totalCompressedSize] returned by [getZipInfo], and out of
    the entry list returned by [decompressData]: both functions return
    what they return for the archive without the entry. *)
Theorem directory_entry_excluded {codec : ZipJs.Codec}
  (before : list ZipJs.Entry) (entry : ZipJs.Entry) (after : list ZipJs.Entry)
  (archiveComment : bytes) (options : DecompressionOptions.t) :
  ZipJs.directory entry = true ->
  getZipInfo (ZipJs.Zip (before ++ entry :: after) archiveComment) options
  = getZipInfo (ZipJs.Zip (before ++ after) archiveComment) options /\
  decompressData (ZipJs.Zip (before ++ entry :: after) archiveComment) options
  = decompressData (ZipJs.Zip (before ++ after) archiveComment) options.
Proof.
  intros Hdir. split.
  - rewrite !getZipInfo_zip. unfold metadata_of.
    now rewrite (filter_is_file_directory _ _ _ Hdir).
  - rewrite !decompressData_zip, !extract_entries_app.
    destruct (extract_entries _ before []) as [results|e]; simpl; [|reflexivity].
    now rewrite Hdir.
Qed.

Lemma directory_entry_excluded_witness :
  ZipJs.directory Sample.docs = true /\
  getZipInfo (ZipJs.Zip ([Sample.plain] ++ Sample.docs :: []) [])
    DecompressionOptions.empty
  = getZipInfo (ZipJs.Zip ([Sample.plain] ++ []) []) DecompressionOptions.empty /\
  decompressData (codec := RefCodec.codec)
    (ZipJs.Zip ([Sample.plain] ++ Sample.docs :: []) []) DecompressionOptions.empty
  = decompressData (codec := RefCodec.codec)
    (ZipJs.Zip ([Sample.plain] ++ []) []) DecompressionOptions.empty.
Proof.
  split; [reflexivity|].
  exact (directory_entry_excluded (codec := RefCodec.codec) [Sample.plain]
           Sample.docs [] [] DecompressionOptions.empty eq_refl).
Defined.

(** C5 as stated fails on the code: the loop of [getZipInfo] pushes a
    record to [files] only under [if (!entry.directory)], so a directory
    entry is not retained in the metadata. *)
Lemma directory_entry_not_in_metadata :
  (exists buffer,
     compressData (codec := RefCodec.codec) 0 (Array (items_of Sample.folder))
       CompressionOptions.empty = Resolved buffer /\
     exists entry, buffer = ZipJs.Zip [entry] [] /\
       ZipJs.filename entry = "docs/"%string /\ ZipJs.directory entry = true /\
     getZipInfo buffer DecompressionOptions.empty
     = Resolved {| ZipMetadata.files := [];
                   ZipMetadata.totalSize := 0;
                   ZipMetadata.totalCompressedSize := 0;
                   ZipMetadata.comment := Some ""%string |}) /\
  getZipInfo (ZipJs.Zip [Sample.docs] []) DecompressionOptions.empty
  = Resolved {| ZipMetadata.files := [];
                ZipMetadata.totalSize := 0;
                ZipMetadata.totalCompressedSize := 0;
                ZipMetadata.comment := Some ""%string |}.
Proof.
  split; [|reflexivity].
  eexists. split; [reflexivity|].
  eexists. repeat split.
Qed.

(** ** Failures *)

Section Failures.
Context {codec : ZipJs.Codec}.

Lemma add_items_app now items1 : forall items2 zipWriter,
  add_items zipWriter now (items1 ++ items2) =
  await zipWriter' <- add_items zipWriter now items1 ;;
  add_items zipWriter' now items2.
Proof.
  induction items1 as [|item items1 IH]; intros items2 zipWriter; simpl.
  - reflexivity.
  - destruct (ZipJs.add zipWriter now (Item.name item) _); simpl; [apply IH | reflexivity].
Qed.

(** [add] fails in one way only. *)
Lemma add_rejected zipWriter now n d e :
  ZipJs.add zipWriter now n d = Rejected e -> e = ZipJs.ERR_DUPLICATED_NAME.
Proof.
  unfold ZipJs.add. destruct (existsb _ _); [|discriminate]. now intros [= <-].
Qed.

Lemma getData_rejected zipReader entry e :
  ZipJs.getData zipReader entry = Rejected e -> In e getData_errors.
Proof.
  unfold ZipJs.getData, getData_errors. intros Hfail.
  repeat match type of Hfail with
         | context [match ?x with _ => _ end] => destruct x; simpl in Hfail
         end;
    try discriminate; injection Hfail as <-; simpl; auto 10.
Qed.

(** The first item [add] refuses ends [compressData]: no buffer is
    returned. *)
Lemma compressData_aborts now options items1 item items2 zipWriter e :
  add_items (ZipJs.new_ZipWriter (writer_options options)) now items1
  = Resolved zipWriter ->
  ZipJs.add zipWriter now (Item.name item) (reader_of (Item.data item)) = Rejected e ->
  compressData now (Array (items1 ++ item :: items2)) options
  = Rejected (compress_error e).
Proof.
  intros Hbefore Hfail. unfold compressData, write_all.
  fold (writer_options options).
  rewrite add_items_app, Hbefore. simpl.
  rewrite reader_of_encode, Hfail. reflexivity.
Qed.

End Failures.

(** C7, as amended.  When [add] fails for an item, [compressData] as a
    whole fails and returns no buffer; when [getData] fails for a file
    entry, [decompressData] as a whole fails and returns none of the
    entries extracted before.  The error thrown is a plain [Error] whose
    message is the prefix of the function followed by the message of the
    package, one of a fixed set of texts: it does not carry the name of the
    entry. *)
Theorem entry_failure_aborts {codec : ZipJs.Codec} (now : Z) :
  (forall options items1 item items2 zipWriter e,
     add_items (ZipJs.new_ZipWriter (writer_options options)) now items1
     = Resolved zipWriter ->
     ZipJs.add zipWriter now (Item.name item) (reader_of (Item.data item)) = Rejected e ->
     compressData now (Array (items1 ++ item :: items2)) options
     = Rejected (new_Error "压缩失败: File already exists")) /\
  (forall entries1 entry entries2 archiveComment options results e,
     let zipReader :=
       ZipJs.new_ZipReader (ZipJs.Zip (entries1 ++ entry :: entries2) archiveComment)
         (DecompressionOptions.password options) in
     extract_entries zipReader entries1 [] = Resolved results ->
     ZipJs.directory entry = false ->
     ZipJs.getData zipReader entry = Rejected e ->
     In e getData_errors /\
     decompressData (ZipJs.Zip (entries1 ++ entry :: entries2) archiveComment) options
     = Rejected (new_Error ("解压失败: " ++ message e))).
Proof.
  split.
  - intros options items1 item items2 zipWriter e Hbefore Hfail.
    rewrite (compressData_aborts _ _ _ _ _ _ _ Hbefore Hfail).
    now rewrite (add_rejected _ _ _ _ _ Hfail).
  - intros entries1 entry entries2 archiveComment options results e zipReader
      Hbefore Hfile Hfail.
    split; [exact (getData_rejected _ _ _ Hfail)|].
    exact (decompressData_aborts _ _ _ _ _ _ _ Hbefore Hfile Hfail).
Qed.

Lemma entry_failure_aborts_witness :
  compressData (codec := RefCodec.codec) 0
    (Array ([ {| Item.name := "a.txt"; Item.data := U8 Sample.hello |} ] ++
            {| Item.name := "a.txt"; Item.data := Str "world" |} :: []))
    CompressionOptions.empty
  = Rejected (new_Error "压缩失败: File already exists") /\
  (In ZipJs.ERR_ENCRYPTED (getData_errors (codec := RefCodec.codec)) /\
   decompressData (codec := RefCodec.codec)
     (ZipJs.Zip ([Sample.plain] ++ Sample.secret :: []) []) DecompressionOptions.empty
   = Rejected (new_Error ("解压失败: " ++ message ZipJs.ERR_ENCRYPTED))).
Proof.
  split.
  - exact (proj1 (entry_failure_aborts (codec := RefCodec.codec) 0)
             CompressionOptions.empty
             [ {| Item.name := "a.txt"; Item.data := U8 Sample.hello |} ]
             {| Item.name := "a.txt"; Item.data := Str "world" |} []
             {| ZipJs.options := writer_options CompressionOptions.empty;
                ZipJs.files :=
                  [entry_of (codec := RefCodec.codec) 0
                     (writer_options CompressionOptions.empty)
                     {| Item.name := "a.txt"; Item.data := U8 Sample.hello |}] |}
             ZipJs.ERR_DUPLICATED_NAME eq_refl eq_refl).
  - exact (proj2 (entry_failure_aborts (codec := RefCodec.codec) 0)
             [Sample.plain] Sample.secret [] [] DecompressionOptions.empty
             [ {| Extracted.name := "a.txt"; Extracted.data := [x61; x62; x63] |} ]
             ZipJs.ERR_ENCRYPTED eq_refl eq_refl eq_refl).
Defined.

(** C7 as stated fails on the code: the errors thrown for a file that
    cannot be decrypted and for an item that cannot be added are the same
    whatever the name of the entry, and the name does not occur in
    them. *)
Lemma thrown_error_does_not_name_the_entry :
  (exists buffer,
     compressData (codec := RefCodec.codec) 0
       (Array (items_of (Sample.one_file "secret.txt")))
       (Sample.options None (Some "p"%string)) = Resolved buffer /\
     decompressData (codec := RefCodec.codec) buffer (Sample.with_password None)
     = Rejected (new_Error "解压失败: File contains encrypted entry")) /\
  (exists buffer,
     compressData (codec := RefCodec.codec) 0
       (Array (items_of (Sample.one_file "other.txt")))
       (Sample.options None (Some "p"%string)) = Resolved buffer /\
     decompressData (codec := RefCodec.codec) buffer (Sample.with_password None)
     = Rejected (new_Error "解压失败: File contains encrypted entry")) /\
  includes "解压失败: File contains encrypted entry" "secret.txt" = false /\
  compressData (codec := RefCodec.codec) 0 (Array (items_of Sample.same_name))
    CompressionOptions.empty
  = Rejected (new_Error "压缩失败: File already exists") /\
  includes "压缩失败: File already exists" "a.txt" = false.
Proof.
  split; [eexists; split; reflexivity|].
  split; [eexists; split; reflexivity|].
  repeat split.
Qed.

(** ** Metadata and passwords *)

(** C8.  For every well-formed archive, [getZipInfo] succeeds and returns
    the metadata of its records (names, sizes, encrypted flags, comment),
    computed without the password; and for every buffer its outcome is the
    same whatever password is supplied, or none. *)
Theorem metadata_independent_of_password :
  (forall entries archiveComment options,
     getZipInfo (ZipJs.Zip entries archiveComment) options
     = Resolved (metadata_of entries archiveComment)) /\
  (forall buffer options1 options2,
     getZipInfo buffer options1 = getZipInfo buffer options2).
Proof.
  split.
  - apply @getZipInfo_zip.
  - intros [entries archiveComment | raw] options1 options2.
    + now rewrite !getZipInfo_zip.
    + reflexivity.
Qed.

(** The metadata of an archive whose entry is encrypted is read without a
    password and with a wrong one, while the content is not: the password
    check of the reference cipher refuses "wrong". *)
Example metadata_of_encrypted_archive_runs :
  getZipInfo (ZipJs.Zip [Sample.secret] []) (Sample.with_password None)
  = Resolved (metadata_of [Sample.secret] []) /\
  getZipInfo (ZipJs.Zip [Sample.secret] []) (Sample.with_password (Some "wrong"%string))
  = Resolved (metadata_of [Sample.secret] []) /\
  map ZipInfo.encrypted (ZipMetadata.files (metadata_of [Sample.secret] [])) = [true] /\
  decompressData (codec := RefCodec.codec) (ZipJs.Zip [Sample.secret] [])
    (Sample.with_password (Some "wrong"%string))
  = Rejected (new_Error "解压失败: Invalid password") /\
  getZipInfo (ZipJs.NotZip []) (Sample.with_password None)
  = Rejected (new_Error "获取压缩包信息失败: End of central directory not found").
Proof. repeat split. Qed.

(** ** Encryption strength without a password *)

Section Strength.
Context {codec : ZipJs.Codec}.

Lemma new_entry_strength s o now n d :
  ZipJs.encryption_password o = None ->
  ZipJs.new_entry
    {| ZipJs.level := ZipJs.level o;
       ZipJs.password := ZipJs.password o;
       ZipJs.encryptionStrength := s |} now n d
  = ZipJs.new_entry o now n d.
Proof.
  intros Hnone. unfold ZipJs.new_entry.
  change (ZipJs.encryption_password
            {| ZipJs.level := ZipJs.level o;
               ZipJs.password := ZipJs.password o;
               ZipJs.encryptionStrength := s |})
    with (ZipJs.encryption_password o).
  rewrite Hnone. reflexivity.
Qed.

Lemma add_with_strength s zipWriter now n d :
  ZipJs.encryption_password (ZipJs.options zipWriter) = None ->
  ZipJs.add (with_strength s zipWriter) now n d
  = map_promise (with_strength s) (ZipJs.add zipWriter now n d).
Proof.
  intros Hnone. unfold ZipJs.add, ZipJs.filenames. simpl.
  destruct (existsb _ _); simpl; [reflexivity|].
  unfold with_strength. simpl. now rewrite new_entry_strength.
Qed.

Lemma add_items_with_strength s now items : forall zipWriter,
  ZipJs.encryption_password (ZipJs.options zipWriter) = None ->
  add_items (with_strength s zipWriter) now items
  = map_promise (with_strength s) (add_items zipWriter now items).
Proof.
  induction items as [|item rest IH]; intros zipWriter Hnone; simpl.
  - reflexivity.
  - rewrite add_with_strength by assumption.
    destruct (ZipJs.add zipWriter now (Item.name item) _) as [zw|e] eqn:Hadd;
      simpl; [|reflexivity].
    apply IH. apply add_resolved in Hadd. now subst zw.
Qed.

(** The buffer written does not depend on the strength held by a writer
    that does not encrypt. *)
Lemma write_all_with_strength s zipWriter now data :
  ZipJs.encryption_password (ZipJs.options zipWriter) = None ->
  write_all (with_strength s zipWriter) now data = write_all zipWriter now data.
Proof.
  intros Hnone. unfold write_all. destruct data as [d | items].
  - rewrite add_with_strength by assumption.
    now destruct (ZipJs.add zipWriter now "file" _).
  - rewrite add_items_with_strength by assumption.
    now destruct (add_items zipWriter now items).
Qed.

End Strength.

(** C9.  When no password is set, [encryptionStrength] has no effect:
    for every input and every level, at the same clock reading,
    [compressData] returns the same outcome, hence the same buffer, for
    every value of [encryptionStrength] and for its absence. *)
Theorem strength_ignored_without_password {codec : ZipJs.Codec} (now : Z)
  (data : Data) (level : option number)
  (strength1 strength2 : option EncryptionStrength) :
  compressData now data
    {| CompressionOptions.level := level;
       CompressionOptions.password := None;
       CompressionOptions.encryptionStrength := strength1 |}
  = compressData now data
    {| CompressionOptions.level := level;
       CompressionOptions.password := None;
       CompressionOptions.encryptionStrength := strength2 |}.
Proof.
  unfold compressData. simpl.
  set (zipWriter := ZipJs.new_ZipWriter
         {| ZipJs.level := js_or level 5;
            ZipJs.password := None;
            ZipJs.encryptionStrength := None |}).
  change (ZipJs.new_ZipWriter
            {| ZipJs.level := js_or level 5;
               ZipJs.password := None;
               ZipJs.encryptionStrength := strength1 |})
    with (with_strength strength1 zipWriter).
  change (ZipJs.new_ZipWriter
            {| ZipJs.level := js_or level 5;
               ZipJs.password := None;
               ZipJs.encryptionStrength := strength2 |})
    with (with_strength strength2 zipWriter).
  now rewrite !write_all_with_strength.
Qed.

(** ** Levels outside 0..9 and the [compress] tool *)

(** The cap of the tool: a level above 3 becomes 3. *)
Lemma cap_above_three (options : option CompressTool.Options) (l : number) :
  CompressTool.requested_level options = Some l -> (3 < l)%Q ->
  CompressionOptions.level (CompressTool.compressionOptions options) = Some 3%Q /\
  CompressTool.writer_level options = 3%Q.
Proof.
  intros Hreq Hgt. unfold CompressTool.writer_level.
  destruct options as [o|]; simpl in *; [|discriminate].
  rewrite Hreq. simpl. unfold js_gt.
  destruct (Qeq_bool l 0) eqn:E; [apply Qeq_bool_iff in E; lra|].
  destruct (Qle_bool l 3) eqn:E3; [apply Qle_bool_iff in E3; lra|].
  simpl. split; reflexivity.
Qed.

(** A level above 0 and up to 3 is left as it is. *)
Lemma cap_up_to_three (options : option CompressTool.Options) (l : number) :
  CompressTool.requested_level options = Some l -> (0 < l <= 3)%Q ->
  CompressionOptions.level (CompressTool.compressionOptions options) = Some l /\
  CompressTool.writer_level options = l.
Proof.
  intros Hreq Hl. unfold CompressTool.writer_level.
  destruct options as [o|]; simpl in *; [|discriminate].
  rewrite Hreq. simpl. unfold js_gt.
  destruct (Qeq_bool l 0) eqn:E; [apply Qeq_bool_iff in E; lra|].
  destruct (Qle_bool l 3) eqn:E3.
  - simpl. rewrite E. split; reflexivity.
  - exfalso. assert (H3 : Qle_bool l 3 = true) by (apply Qle_bool_iff; lra).
    congruence.
Qed.


(** C6, as amended.  [compressData] does not check the level: a level
    below 0 or above 9 is handed to the writer unchanged, the call runs
    the same steps as for any other level, and an empty array of items
    gives the empty archive.  The range is enforced by the parameter schema
    of the [compress] tool, which refuses such a request before
    [compressData] is called. *)
Theorem level_out_of_range_not_checked {codec : ZipJs.Codec} (now : Z) (l : number)
  (password : option string) (strength : option EncryptionStrength) :
  (l < 0 \/ 9 < l)%Q ->
  (forall data,
     compressData now data
       {| CompressionOptions.level := Some l;
          CompressionOptions.password := password;
          CompressionOptions.encryptionStrength := strength |}
     = try_catch_rethrow "压缩失败: "
         (write_all
            (ZipJs.new_ZipWriter
               {| ZipJs.level := l;
                  ZipJs.password := password;
                  ZipJs.encryptionStrength := strength |}) now data)) /\
  compressData now (Array [])
    {| CompressionOptions.level := Some l;
       CompressionOptions.password := password;
       CompressionOptions.encryptionStrength := strength |}
  = Resolved (ZipJs.Zip [] []) /\
  (forall filesToCompress comment overwrite,
     CompressTool.execute now filesToCompress
       (Some {| CompressTool.level := Some l;
                CompressTool.comment := comment;
                CompressTool.password := password;
                CompressTool.encryptionStrength := strength;
                CompressTool.overwrite := overwrite |}) = None).
Proof.
  intros Hl. split; [|split].
  - intros data. unfold compressData. simpl.
    destruct (Qeq_bool l 0) eqn:E; [|reflexivity].
    apply Qeq_bool_iff in E. lra.
  - reflexivity.
  - intros filesToCompress comment overwrite.
    unfold CompressTool.execute. simpl.
    destruct (Qle_bool 0 l) eqn:Hlow; [|reflexivity].
    destruct (Qle_bool l 9) eqn:Hhigh; [|reflexivity].
    apply Qle_bool_iff in Hlow, Hhigh. lra.
Qed.

Lemma level_out_of_range_not_checked_witness :
  (10 < 0 \/ 9 < 10)%Q /\
  compressData (codec := RefCodec.codec) 0 (Array [])
    {| CompressionOptions.level := Some 10%Q;
       CompressionOptions.password := None;
       CompressionOptions.encryptionStrength := None |}
  = Resolved (ZipJs.Zip [] []).
Proof.
  assert (Hl : (10 < 0 \/ 9 < 10)%Q) by (right; reflexivity).
  split; [exact Hl|].
  exact (proj1 (proj2 (level_out_of_range_not_checked (codec := RefCodec.codec)
                         0 10 None None Hl))).
Defined.

(** C6 as stated fails on the code: with level 10, and with level -1,
    [compressData] rejects nothing and returns an archive. *)
Lemma level_out_of_range_accepted :
  compressData (codec := RefCodec.codec) 0 (Array []) (Sample.options (Some 10%Q) None)
  = Resolved (ZipJs.Zip [] []) /\
  compressData (codec := RefCodec.codec) 0 (Array []) (Sample.options (Some (-1)%Q) None)
  = Resolved (ZipJs.Zip [] []).
Proof. split; reflexivity. Qed.

(** C10, as amended.  For every request the schema accepts: a level
    greater than 3, whole or not, is replaced by 3 before [compressData] is
    called; a level above 0 and up to 3 is passed unchanged; when the level
    is absent [compressData] falls back to effort 5.  So for a request with
    a level other than 0 the writer runs at an effort above 0 and at most
    3, and for a request without a level at effort 5: efforts 4 and 6 to 9
    are not reached, effort 5 is. *)
Theorem compress_tool_levels {codec : ZipJs.Codec}
  (options : option CompressTool.Options) :
  CompressTool.schema_accepts options = true ->
  (forall l, CompressTool.requested_level options = Some l -> (3 < l)%Q ->
     CompressionOptions.level (CompressTool.compressionOptions options) = Some 3%Q /\
     CompressTool.writer_level options = 3%Q) /\
  (forall l, CompressTool.requested_level options = Some l -> (0 < l <= 3)%Q ->
     CompressionOptions.level (CompressTool.compressionOptions options) = Some l /\
     CompressTool.writer_level options = l) /\
  (CompressTool.requested_level options = None ->
     CompressionOptions.level (CompressTool.compressionOptions options) = None /\
     CompressTool.writer_level options = 5%Q) /\
  (forall now filesToCompress,
     CompressTool.execute now filesToCompress options
     = Some (try_catch_rethrow "压缩失败: "
         (write_all
            (ZipJs.new_ZipWriter
               {| ZipJs.level := CompressTool.writer_level options;
                  ZipJs.password :=
                    CompressionOptions.password (CompressTool.compressionOptions options);
                  ZipJs.encryptionStrength :=
                    CompressionOptions.encryptionStrength
                      (CompressTool.compressionOptions options) |})
            now (Array (items_of filesToCompress))))) /\
  (forall l, CompressTool.requested_level options = Some l -> ~ (l == 0)%Q ->
     (0 < CompressTool.writer_level options <= 3)%Q).
Proof.
  intros Hschema.
  split; [|split; [|split; [|split]]].
  - intros l Hreq Hgt. apply (cap_above_three options l Hreq Hgt).
  - intros l Hreq Hl. apply (cap_up_to_three options l Hreq Hl).
  - intros Hreq. unfold CompressTool.writer_level.
    destruct options as [o|]; simpl in *; [|auto].
    rewrite Hreq. simpl. auto.
  - intros now filesToCompress. unfold CompressTool.execute.
    now rewrite Hschema.
  - intros l Hreq Hnonzero.
    assert (Hlow : (0 <= l)%Q).
    { destruct options as [o|]; simpl in *; [|discriminate].
      rewrite Hreq in Hschema.
      apply andb_true_iff in Hschema as [Hlow _]. now apply Qle_bool_iff. }
    destruct (Qlt_le_dec 3 l) as [Hgt|Hle].
    + rewrite (proj2 (cap_above_three options l Hreq Hgt)). lra.
    + assert (Hl : (0 < l <= 3)%Q) by (split; [|assumption]; lra).
      rewrite (proj2 (cap_up_to_three options l Hreq Hl)). exact Hl.
Qed.

Lemma compress_tool_levels_witness :
  CompressTool.schema_accepts
    (Some {| CompressTool.level := Some (17 # 2)%Q;
             CompressTool.comment := None;
             CompressTool.password := None;
             CompressTool.encryptionStrength := None;
             CompressTool.overwrite := None |}) = true /\
  CompressionOptions.level
    (CompressTool.compressionOptions
       (Some {| CompressTool.level := Some (17 # 2)%Q;
                CompressTool.comment := None;
                CompressTool.password := None;
                CompressTool.encryptionStrength := None;
                CompressTool.overwrite := None |})) = Some 3%Q /\
  CompressTool.writer_level
    (Some {| CompressTool.level := Some (17 # 2)%Q;
             CompressTool.comment := None;
             CompressTool.password := None;
             CompressTool.encryptionStrength := None;
             CompressTool.overwrite := None |}) = 3%Q.
Proof.
  split; [reflexivity|].
  exact (proj1 (compress_tool_levels (codec := RefCodec.codec)
    (Some {| CompressTool.level := Some (17 # 2)%Q;
             CompressTool.comment := None;
             CompressTool.password := None;
             CompressTool.encryptionStrength := None;
             CompressTool.overwrite := None |}) eq_refl) (17 # 2)%Q eq_refl eq_refl).
Defined.

(** A level that is not whole passes the schema and, up to 3, reaches
    the writer as it is. *)
Example fractional_level_runs :
  CompressTool.schema_accepts
    (Some {| CompressTool.level := Some (5 # 2)%Q;
             CompressTool.comment := None;
             CompressTool.password := None;
             CompressTool.encryptionStrength := None;
             CompressTool.overwrite := None |}) = true /\
  CompressTool.writer_level
    (Some {| CompressTool.level := Some (5 # 2)%Q;
             CompressTool.comment := None;
             CompressTool.password := None;
             CompressTool.encryptionStrength := None;
             CompressTool.overwrite := None |}) = (5 # 2)%Q.
Proof. split; reflexivity. Qed.

(** C10 as stated fails on the code: a request without [options], or
    without [options.level], is accepted and reaches the writer at effort
    5, one of the efforts 4 to 9. *)
Lemma compress_tool_default_level_is_five :
  CompressTool.schema_accepts None = true /\
  CompressTool.writer_level None = 5%Q /\
  (4 <= 5 <= 9)%Q /\
  CompressTool.execute (codec := RefCodec.codec) 0 [("a.txt"%string, Sample.hello)] None
  = Some (compressData (codec := RefCodec.codec) 0
            (Array (items_of [("a.txt"%string, Sample.hello)]))
            (Sample.options (Some 5%Q) None)) /\
  CompressTool.execute (codec := RefCodec.codec) 0 [("a.txt"%string, Sample.hello)] None
  = Some (Resolved (ZipJs.Zip
      [ {| ZipJs.filename := "a.txt";
           ZipJs.directory := false;
           ZipJs.encrypted := false;
           ZipJs.compressionMethod := ZipJs.Deflate;
           ZipJs.uncompressedSize := 5;
           ZipJs.compressedSize := 6;
           ZipJs.lastModDate := 0;
           ZipJs.comment := "";
           ZipJs.rawData := RefCodec.deflate 5 Sample.hello |} ] [])).
Proof. repeat split; try reflexivity; discriminate. Qed.

(** * Further properties of the engine *)

Section WriterClosedForm.
Context {codec : ZipJs.Codec}.
Variable now : Z.

Lemma existsb_eqb_false_iff n l :
  existsb (String.eqb n) l = false <-> ~ In n l.
Proof.
  split; [|apply existsb_eqb_absent].
  intros E Hin. rewrite <- not_true_iff_false in E. apply E.
  apply existsb_exists. exists n. split; [assumption | apply String.eqb_refl].
Qed.

Lemma distinct_from_spec names : forall seen,
  distinct_from seen names = true <->
  NoDup names /\ forall n, In n names -> ~ In n seen.
Proof.
  induction names as [|n rest IH]; intros seen; simpl.
  - split; [intros _; split; [constructor | contradiction] | reflexivity].
  - destruct (existsb (String.eqb n) seen) eqn:E.
    + split; [discriminate|]. intros [_ Hout].
      rewrite <- not_false_iff_true in E. exfalso. apply E.
      apply existsb_eqb_false_iff. apply Hout. now left.
    + apply existsb_eqb_false_iff in E. rewrite IH. split.
      * intros [Hnodup Hout]. split.
        -- constructor; [|assumption].
           intros Hin. apply (Hout n Hin), in_or_app. right. now left.
        -- intros m [<- | Hin]; [assumption|].
           intros Hseen. apply (Hout m Hin), in_or_app. now left.
      * intros [Hnodup Hout]. inversion Hnodup as [|? ? Hfresh Hrest]; subst.
        split; [assumption|].
        intros m Hin Hm. apply in_app_or in Hm as [Hm | [<- | []]].
        -- apply (Hout m); [now right | assumption].
        -- contradiction.
Qed.

Lemma distinctb_NoDup names :
  distinctb names = true <-> NoDup names.
Proof.
  unfold distinctb. rewrite distinct_from_spec. split; [tauto|].
  intros H. split; [assumption|]. intros n _ [].
Qed.

(** The loop over the items in closed form: either every item is added,
    in order and under its trimmed name, or a name comes back and the
    loop stops there. *)
Lemma add_items_closed_form items : forall zipWriter,
  add_items zipWriter now items =
  if distinct_from (ZipJs.filenames zipWriter) (map stored_name items)
  then Resolved {| ZipJs.options := ZipJs.options zipWriter;
                   ZipJs.files := ZipJs.files zipWriter ++
                     map (stored_entry now (ZipJs.options zipWriter)) items |}
  else Rejected ZipJs.ERR_DUPLICATED_NAME.
Proof.
  induction items as [|item rest IH]; intros zipWriter; simpl.
  - rewrite app_nil_r. now destruct zipWriter.
  - rewrite reader_of_encode. unfold ZipJs.add. fold (stored_name item).
    destruct (existsb (String.eqb (stored_name item)) (ZipJs.filenames zipWriter));
      [reflexivity|].
    rewrite bind_resolved, IH. unfold ZipJs.filenames. simpl.
    rewrite map_app. simpl.
    destruct (distinct_from _ _); [|reflexivity].
    now rewrite <- app_assoc.
Qed.

End WriterClosedForm.

Lemma compressData_array_closed {codec : ZipJs.Codec} (now : Z)
  (items : list Item.t) (options : CompressionOptions.t) :
  compressData now (Array items) options =
  if distinctb (map stored_name items)
  then Resolved (ZipJs.Zip (map (stored_entry now (writer_options options)) items) [])
  else Rejected (new_Error "压缩失败: File already exists").
Proof.
  unfold compressData, write_all. fold (writer_options options).
  rewrite add_items_closed_form. unfold distinctb.
  change (ZipJs.filenames (ZipJs.new_ZipWriter (writer_options options)))
    with (@nil string).
  now destruct (distinct_from [] (map stored_name items)).
Qed.

(** X1.  [compressData] on an array succeeds exactly when the trimmed
    names of the items are pairwise distinct; it then writes one entry per
    item, in input order, under the trimmed name; otherwise it fails with
    "压缩失败: File already exists". *)
Theorem compressData_array_closed_form {codec : ZipJs.Codec} (now : Z)
  (items : list Item.t) (options : CompressionOptions.t) :
  compressData now (Array items) options =
  if distinctb (map stored_name items)
  then Resolved (ZipJs.Zip (map (stored_entry now (writer_options options)) items) [])
  else Rejected (new_Error "压缩失败: File already exists").
Proof. apply compressData_array_closed. Qed.

Section WrittenArchives.
Context {codec : ZipJs.Codec}.
Variable now : Z.

Lemma stored_entry_directory o item :
  ZipJs.directory (stored_entry now o item) = negb (is_file_item item).
Proof. unfold is_file_item. now rewrite negb_involutive. Qed.

Lemma filter_is_file_stored o items :
  filter is_file (map (stored_entry now o) items) =
  map (stored_entry now o) (filter is_file_item items).
Proof.
  induction items as [|item rest IH]; simpl; [reflexivity|].
  unfold is_file at 1. rewrite stored_entry_directory, negb_involutive.
  destruct (is_file_item item); simpl; now rewrite IH.
Qed.

(** Reading back what [add] stored: directory entries are skipped, file
    entries give their bytes. *)
Lemma extract_stored zipReader o items : forall results,
  ZipJs.readerPassword zipReader = ZipJs.password o ->
  whole_from 1 (ZipJs.level o) ->
  extract_entries zipReader (map (stored_entry now o) items) results =
  Resolved (results ++ map extracted_item (filter is_file_item items)).
Proof.
  intros results Hpw Hlevel. revert results.
  induction items as [|item rest IH]; intros results.
  - simpl. now rewrite app_nil_r.
  - cbn [map filter]. destruct (is_file_item item) eqn:Hfile.
    + rewrite extract_entries_file
        by (rewrite stored_entry_directory, Hfile; reflexivity).
      unfold stored_entry at 1.
      rewrite (getData_new_entry now zipReader o _ _ Hpw Hlevel)
        by (unfold is_file_item in Hfile; now apply negb_true_iff in Hfile).
      rewrite bind_resolved, IH, <- app_assoc. reflexivity.
    + rewrite extract_entries_directory
        by (rewrite stored_entry_directory, Hfile; reflexivity).
      apply IH.
Qed.

(** A single datum is written as the one-item array named "file". *)
Lemma compressData_one d options :
  compressData now (One d) options =
  compressData now (Array [ {| Item.name := "file"; Item.data := d |} ]) options.
Proof.
  unfold compressData, write_all. cbn [add_items Item.name Item.data].
  match goal with |- context [ZipJs.add ?w now "file" ?r] =>
    now destruct (ZipJs.add w now "file" r)
  end.
Qed.

Lemma js_or_never_zero l : Qeq_bool (js_or l 5) 0 = false.
Proof.
  destruct l as [l|]; simpl; [|reflexivity].
  now destruct (Qeq_bool l 0) eqn:E.
Qed.

End WrittenArchives.

Lemma round_trip_stored {codec : ZipJs.Codec} (now : Z)
  (items : list Item.t) (options : CompressionOptions.t) :
  valid_level (CompressionOptions.level options) ->
  distinctb (map stored_name items) = true ->
  exists buffer,
    compressData now (Array items) options = Resolved buffer /\
    decompressData buffer
      {| DecompressionOptions.password := CompressionOptions.password options |}
    = Resolved (map extracted_item (filter is_file_item items)).
Proof.
  intros Hlevel Hdistinct.
  exists (ZipJs.Zip (map (stored_entry now (writer_options options)) items) []).
  split.
  - now rewrite compressData_array_closed, Hdistinct.
  - rewrite decompressData_zip, extract_stored; [reflexivity | reflexivity |].
    simpl. now apply js_or_valid_level.
Qed.

(** X2.  Round trip for any array: when the trimmed names are pairwise
    distinct and the level is absent or in 0..9, reading the written
    buffer with the same password returns, in input order, the items whose
    trimmed name does not end in the separator, under their trimmed names
    and with their bytes; the items named as directories do not come
    back. *)
Theorem round_trip_of_any_array {codec : ZipJs.Codec} (now : Z)
  (items : list Item.t) (options : CompressionOptions.t) :
  valid_level (CompressionOptions.level options) ->
  distinctb (map stored_name items) = true ->
  exists buffer,
    compressData now (Array items) options = Resolved buffer /\
    decompressData buffer
      {| DecompressionOptions.password := CompressionOptions.password options |}
    = Resolved (map extracted_item (filter is_file_item items)).
Proof. apply round_trip_stored. Qed.

Lemma round_trip_of_any_array_witness :
  valid_level (Some 3%Q) /\
  distinctb (map stored_name
    [ {| Item.name := " a.txt "; Item.data := Str "hello" |};
      {| Item.name := "docs/"; Item.data := U8 [] |};
      {| Item.name := "docs/b.txt"; Item.data := Blob Sample.world |} ]) = true /\
  exists buffer,
    compressData (codec := RefCodec.codec) 0
      (Array [ {| Item.name := " a.txt "; Item.data := Str "hello" |};
               {| Item.name := "docs/"; Item.data := U8 [] |};
               {| Item.name := "docs/b.txt"; Item.data := Blob Sample.world |} ])
      (Sample.options (Some 3%Q) (Some "p"%string)) = Resolved buffer /\
    decompressData (codec := RefCodec.codec) buffer
      {| DecompressionOptions.password := Some "p"%string |}
    = Resolved [ {| Extracted.name := "a.txt"; Extracted.data := Sample.hello |};
                 {| Extracted.name := "docs/b.txt"; Extracted.data := Sample.world |} ].
Proof.
  assert (Hlevel : valid_level (Some 3%Q))
    by (exists 3%Z; split; [reflexivity | lia]).
  split; [exact Hlevel|]. split; [reflexivity|].
  exact (round_trip_of_any_array (codec := RefCodec.codec) 0
           [ {| Item.name := " a.txt "; Item.data := Str "hello" |};
             {| Item.name := "docs/"; Item.data := U8 [] |};
             {| Item.name := "docs/b.txt"; Item.data := Blob Sample.world |} ]
           (Sample.options (Some 3%Q) (Some "p"%string)) Hlevel eq_refl).
Defined.

(** X3.  A single datum round-trips under the name "file": for every
    datum and every level that is absent or in 0..9, [compressData] writes
    an archive from which [decompressData], given the same password,
    returns exactly one entry named "file" holding the bytes of the datum
    (the UTF-8 bytes when it is a string). *)
Theorem single_datum_round_trip {codec : ZipJs.Codec} (now : Z)
  (d : FileData) (options : CompressionOptions.t) :
  valid_level (CompressionOptions.level options) ->
  exists buffer,
    compressData now (One d) options = Resolved buffer /\
    decompressData buffer
      {| DecompressionOptions.password := CompressionOptions.password options |}
    = Resolved [ {| Extracted.name := "file"; Extracted.data := reader_of d |} ].
Proof.
  intros Hlevel. rewrite compressData_one.
  exact (round_trip_stored now [ {| Item.name := "file"; Item.data := d |} ]
           options Hlevel eq_refl).
Qed.

Lemma single_datum_round_trip_witness :
  valid_level None /\
  exists buffer,
    compressData (codec := RefCodec.codec) 0 (One (Str "hello"))
      (Sample.options None None) = Resolved buffer /\
    decompressData (codec := RefCodec.codec) buffer
      {| DecompressionOptions.password := None |}
    = Resolved [ {| Extracted.name := "file"; Extracted.data := Sample.hello |} ].
Proof.
  split; [exact I|].
  exact (single_datum_round_trip (codec := RefCodec.codec) 0 (Str "hello")
           (Sample.options None None) I).
Defined.

Section MetadataFacts.
Context {codec : ZipJs.Codec}.

Lemma info_of_stored_name now o items :
  map ZipInfo.filename (map info_of (map (stored_entry now o) items)) =
  map stored_name items.
Proof. rewrite !map_map. reflexivity. Qed.

Lemma info_of_stored_size now o items :
  map ZipInfo.size (map info_of (map (stored_entry now o) items)) =
  map (fun i => List.length (reader_of (Item.data i))) items.
Proof. rewrite !map_map. reflexivity. Qed.

Lemma stored_uncompressed_size now o items :
  map ZipJs.uncompressedSize (map (stored_entry now o) items) =
  map (fun i => List.length (reader_of (Item.data i))) items.
Proof. rewrite map_map. reflexivity. Qed.

(** The names extracted are the names of the file entries, in order. *)
Lemma extracted_names zipReader entries : forall out,
  extract_entries zipReader entries [] = Resolved out ->
  map Extracted.name out = map ZipJs.filename (filter is_file entries).
Proof.
  induction entries as [|entry entries IH]; intros out Hout.
  - simpl in Hout. now injection Hout as <-.
  - cbn [filter]. unfold is_file at 1.
    destruct (ZipJs.directory entry) eqn:Hdir; cbn [negb].
    + rewrite extract_entries_directory in Hout by assumption. now apply IH.
    + rewrite extract_entries_file in Hout by assumption.
      destruct (ZipJs.getData zipReader entry) as [d|e]; simpl in Hout; [|discriminate].
      rewrite extract_entries_acc in Hout.
      destruct (extract_entries zipReader entries []) as [out'|e] eqn:Hrec;
        simpl in Hout; [|discriminate].
      injection Hout as <-. simpl. now rewrite (IH out' eq_refl).
Qed.

End MetadataFacts.

(** X4.  The metadata of a written archive: whenever [compressData]
    succeeds on an array, [getZipInfo] on the buffer lists exactly the
    items not named as directories, in input order, each under its trimmed
    name and with the byte length of its data as size; every listed file
    is flagged encrypted exactly when a non-empty password was given;
    [totalSize] is the sum of those lengths; and the archive comment is the
    empty string. *)
Theorem metadata_of_written_archive {codec : ZipJs.Codec} (now : Z)
  (items : list Item.t) (options : CompressionOptions.t)
  (readOptions : DecompressionOptions.t) (buffer : ZipJs.ArchiveBuffer) :
  compressData now (Array items) options = Resolved buffer ->
  exists metadata,
    getZipInfo buffer readOptions = Resolved metadata /\
    map ZipInfo.filename (ZipMetadata.files metadata)
    = map stored_name (filter is_file_item items) /\
    map ZipInfo.size (ZipMetadata.files metadata)
    = map (fun i => List.length (reader_of (Item.data i))) (filter is_file_item items) /\
    Forall (fun f => ZipInfo.encrypted f = encrypts options)
           (ZipMetadata.files metadata) /\
    ZipMetadata.totalSize metadata
    = list_sum (map (fun i => List.length (reader_of (Item.data i)))
                    (filter is_file_item items)) /\
    ZipMetadata.comment metadata = Some ""%string.
Proof.
  rewrite compressData_array_closed.
  destruct (distinctb (map stored_name items)); [|discriminate].
  intros [= <-]. eexists. split; [apply getZipInfo_zip|].
  unfold metadata_of. cbn [ZipMetadata.files ZipMetadata.totalSize ZipMetadata.comment].
  rewrite filter_is_file_stored.
  split; [apply info_of_stored_name|].
  split; [apply info_of_stored_size|].
  split; [|split; [now rewrite stored_uncompressed_size | reflexivity]].
  rewrite !Forall_map. apply Forall_forall. intros item _.
  unfold encrypts, info_of, stored_entry, ZipJs.new_entry. simpl.
  now destruct (ZipJs.encryption_password (writer_options options)).
Qed.

Lemma metadata_of_written_archive_witness :
  exists buffer metadata,
    compressData (codec := RefCodec.codec) 0
      (Array (items_of (Sample.two_files ++ Sample.folder)))
      (Sample.options None (Some "p"%string)) = Resolved buffer /\
    getZipInfo buffer DecompressionOptions.empty = Resolved metadata /\
    map ZipInfo.filename (ZipMetadata.files metadata)
    = ["a.txt"; "docs/b.txt"]%string /\
    map ZipInfo.size (ZipMetadata.files metadata) = [5; 5] /\
    Forall (fun f => ZipInfo.encrypted f = true) (ZipMetadata.files metadata) /\
    ZipMetadata.totalSize metadata = 10 /\
    ZipMetadata.comment metadata = Some ""%string.
Proof.
  pose (items := items_of (Sample.two_files ++ Sample.folder)).
  pose (options := Sample.options None (Some "p"%string)).
  pose (buffer := ZipJs.Zip
          (map (stored_entry (codec := RefCodec.codec) 0 (writer_options options)) items) []).
  assert (Hwrite : compressData (codec := RefCodec.codec) 0 (Array items) options
                   = Resolved buffer) by reflexivity.
  destruct (metadata_of_written_archive (codec := RefCodec.codec) 0 items options
              DecompressionOptions.empty buffer Hwrite) as [metadata H].
  exists buffer, metadata. split; [exact Hwrite|]. exact H.
Defined.

(** X5.  Whatever [getZipInfo] returns is consistent in itself:
    [totalSize] is the sum of the sizes of the listed files and
    [totalCompressedSize] the sum of their compressed sizes. *)
Theorem metadata_totals_are_sums_of_files (buffer : ZipJs.ArchiveBuffer)
  (options : DecompressionOptions.t) (metadata : ZipMetadata.t) :
  getZipInfo buffer options = Resolved metadata ->
  ZipMetadata.totalSize metadata
  = list_sum (map ZipInfo.size (ZipMetadata.files metadata)) /\
  ZipMetadata.totalCompressedSize metadata
  = list_sum (map ZipInfo.compressedSize (ZipMetadata.files metadata)).
Proof.
  destruct buffer as [entries archiveComment | raw]; [|discriminate].
  rewrite getZipInfo_zip. intros [= <-]. simpl.
  rewrite !map_map. split; reflexivity.
Qed.

Lemma metadata_totals_are_sums_of_files_witness :
  getZipInfo (ZipJs.Zip [Sample.plain; Sample.docs; Sample.secret] [])
    DecompressionOptions.empty
  = Resolved (metadata_of [Sample.plain; Sample.docs; Sample.secret] []) /\
  ZipMetadata.totalSize (metadata_of [Sample.plain; Sample.docs; Sample.secret] [])
  = list_sum (map ZipInfo.size
      (ZipMetadata.files (metadata_of [Sample.plain; Sample.docs; Sample.secret] []))).
Proof.
  split; [reflexivity|].
  exact (proj1 (metadata_totals_are_sums_of_files
                  (ZipJs.Zip [Sample.plain; Sample.docs; Sample.secret] [])
                  DecompressionOptions.empty _ eq_refl)).
Defined.

(** X6.  [getZipInfo] and [decompressData] agree on the names: whenever
    both succeed on a buffer, with whatever passwords, the names of the
    extracted entries are the names of the listed files, in the same
    order. *)
Theorem extracted_names_are_listed_names {codec : ZipJs.Codec}
  (buffer : ZipJs.ArchiveBuffer) (options1 options2 : DecompressionOptions.t)
  (out : list Extracted.t) (metadata : ZipMetadata.t) :
  decompressData buffer options1 = Resolved out ->
  getZipInfo buffer options2 = Resolved metadata ->
  map Extracted.name out = map ZipInfo.filename (ZipMetadata.files metadata).
Proof.
  destruct buffer as [entries archiveComment | raw]; [|discriminate].
  rewrite decompressData_zip, getZipInfo_zip. intros Hout [= <-].
  destruct (extract_entries _ entries []) as [out'|e] eqn:Hext;
    simpl in Hout; [|discriminate].
  injection Hout as <-. rewrite (extracted_names _ _ _ Hext).
  simpl. rewrite map_map. reflexivity.
Qed.

Lemma extracted_names_are_listed_names_witness :
  decompressData (codec := RefCodec.codec)
    (ZipJs.Zip [Sample.plain; Sample.docs; Sample.secret] [])
    (Sample.with_password (Some "p"%string))
  = Resolved [ {| Extracted.name := "a.txt"; Extracted.data := [x61; x62; x63] |};
               {| Extracted.name := "secret.txt"; Extracted.data := Sample.hello |} ] /\
  map Extracted.name
    [ {| Extracted.name := "a.txt"; Extracted.data := [x61; x62; x63] |};
      {| Extracted.name := "secret.txt"; Extracted.data := Sample.hello |} ]
  = map ZipInfo.filename
      (ZipMetadata.files (metadata_of [Sample.plain; Sample.docs; Sample.secret] [])).
Proof.
  split; [reflexivity|].
  exact (extracted_names_are_listed_names (codec := RefCodec.codec)
           (ZipJs.Zip [Sample.plain; Sample.docs; Sample.secret] [])
           (Sample.with_password (Some "p"%string)) DecompressionOptions.empty
           _ _ eq_refl eq_refl).
Defined.

(** X7.  Empty input: for every configuration, [compressData] on the
    empty array succeeds, with or without password and whatever the level;
    on the buffer [getZipInfo] reports no file and zero totals, and
    [decompressData] returns no entry, whatever password is supplied. *)
Theorem empty_array_gives_empty_archive {codec : ZipJs.Codec} (now : Z)
  (options : CompressionOptions.t) (readOptions : DecompressionOptions.t) :
  exists buffer,
    compressData now (Array []) options = Resolved buffer /\
    getZipInfo buffer readOptions
    = Resolved {| ZipMetadata.files := [];
                  ZipMetadata.totalSize := 0;
                  ZipMetadata.totalCompressedSize := 0;
                  ZipMetadata.comment := Some ""%string |} /\
    decompressData buffer readOptions = Resolved [].
Proof. exists (ZipJs.Zip [] []). repeat split. Qed.

Section DataKinds.
Context {codec : ZipJs.Codec}.

Lemma stored_entry_as_bytes now o item :
  stored_entry now o {| Item.name := Item.name item;
                        Item.data := as_bytes (Item.data item) |}
  = stored_entry now o item.
Proof. reflexivity. Qed.

End DataKinds.

(** X8.  [compressData] only sees the bytes of its data: a string is
    written as its UTF-8 bytes, a blob as its bytes, so replacing every
    datum by the byte array of the same bytes changes nothing in the
    outcome. *)
Theorem data_written_as_bytes {codec : ZipJs.Codec} (now : Z) (data : Data)
  (options : CompressionOptions.t) :
  compressData now (data_as_bytes data) options = compressData now data options.
Proof.
  destruct data as [d | items]; simpl.
  - rewrite !compressData_one, !compressData_array_closed. reflexivity.
  - rewrite !compressData_array_closed, !map_map. reflexivity.
Qed.

Section Unencrypted.
Context {codec : ZipJs.Codec}.
Variable now : Z.

(** An entry written without encryption is read whatever password the
    reader holds. *)
Lemma getData_unencrypted zipReader o n d :
  ZipJs.encryption_password o = None ->
  whole_from 1 (ZipJs.level o) ->
  endsWith n ZipJs.DIRECTORY_SIGNATURE = false ->
  ZipJs.getData zipReader (ZipJs.new_entry o now n d) = Resolved d.
Proof.
  intros Hnone Hlevel Hfile. unfold ZipJs.getData, ZipJs.new_entry. simpl.
  rewrite Hfile, Hnone, (whole_nonzero _ Hlevel).
  destruct Hlevel as [k [-> Hk]]. simpl.
  rewrite ZipJs.inflate_deflate by assumption. simpl.
  now rewrite ZipJs.getData_of_declared_size.
Qed.

Lemma extract_unencrypted zipReader o items : forall results,
  ZipJs.encryption_password o = None ->
  whole_from 1 (ZipJs.level o) ->
  extract_entries zipReader (map (stored_entry now o) items) results =
  Resolved (results ++ map extracted_item (filter is_file_item items)).
Proof.
  intros results Hnone Hlevel. revert results.
  induction items as [|item rest IH]; intros results.
  - simpl. now rewrite app_nil_r.
  - cbn [map filter]. destruct (is_file_item item) eqn:Hfile.
    + rewrite extract_entries_file
        by (rewrite stored_entry_directory, Hfile; reflexivity).
      unfold stored_entry at 1.
      rewrite (getData_unencrypted zipReader o _ _ Hnone Hlevel)
        by (unfold is_file_item in Hfile; now apply negb_true_iff in Hfile).
      rewrite bind_resolved, IH, <- app_assoc. reflexivity.
    + rewrite extract_entries_directory
        by (rewrite stored_entry_directory, Hfile; reflexivity).
      apply IH.
Qed.

End Unencrypted.

(** X9.  An archive written without a password is read with any
    password: when no password, or the empty one, was given to
    [compressData], [decompressData] returns the files whatever password it
    is given, or none. *)
Theorem unencrypted_archive_read_with_any_password {codec : ZipJs.Codec} (now : Z)
  (items : list Item.t) (options : CompressionOptions.t)
  (readOptions : DecompressionOptions.t) :
  valid_level (CompressionOptions.level options) ->
  encrypts options = false ->
  distinctb (map stored_name items) = true ->
  exists buffer,
    compressData now (Array items) options = Resolved buffer /\
    decompressData buffer readOptions
    = Resolved (map extracted_item (filter is_file_item items)).
Proof.
  intros Hlevel Hplain Hdistinct.
  exists (ZipJs.Zip (map (stored_entry now (writer_options options)) items) []).
  split.
  - now rewrite compressData_array_closed, Hdistinct.
  - rewrite decompressData_zip, extract_unencrypted; [reflexivity | |].
    + unfold encrypts in Hplain.
      now destruct (ZipJs.encryption_password (writer_options options)).
    + simpl. now apply js_or_valid_level.
Qed.

Lemma unencrypted_archive_read_with_any_password_witness :
  valid_level (Some 1%Q) /\
  encrypts (Sample.options (Some 1%Q) (Some ""%string)) = false /\
  distinctb (map stored_name (items_of Sample.two_files)) = true /\
  exists buffer,
    compressData (codec := RefCodec.codec) 0 (Array (items_of Sample.two_files))
      (Sample.options (Some 1%Q) (Some ""%string)) = Resolved buffer /\
    decompressData (codec := RefCodec.codec) buffer
      (Sample.with_password (Some "anything"%string))
    = Resolved (extracted_of Sample.two_files).
Proof.
  assert (Hlevel : valid_level (Some 1%Q))
    by (exists 1%Z; split; [reflexivity | lia]).
  split; [exact Hlevel|]. split; [reflexivity|]. split; [reflexivity|].
  exact (unencrypted_archive_read_with_any_password (codec := RefCodec.codec) 0
           (items_of Sample.two_files) (Sample.options (Some 1%Q) (Some ""%string))
           (Sample.with_password (Some "anything"%string)) Hlevel eq_refl eq_refl).
Defined.

(** X10.  The empty password is no password: for every input,
    [compressData] with the password "" returns what it returns without a
    password. *)
Theorem empty_password_is_no_password {codec : ZipJs.Codec} (now : Z) (data : Data)
  (level : option number) (strength : option EncryptionStrength) :
  compressData now data
    {| CompressionOptions.level := level;
       CompressionOptions.password := Some ""%string;
       CompressionOptions.encryptionStrength := strength |}
  = compressData now data
    {| CompressionOptions.level := level;
       CompressionOptions.password := None;
       CompressionOptions.encryptionStrength := strength |}.
Proof.
  destruct data as [d | items].
  - rewrite !compressData_one, !compressData_array_closed. reflexivity.
  - rewrite !compressData_array_closed. reflexivity.
Qed.

(** X11.  [compressData] never stores a file: whatever the level, 0
    included, every entry of a buffer it returns that is not a directory
    is recorded with the Deflate method, and every directory entry with the
    Store method. *)
Theorem written_files_are_always_deflated {codec : ZipJs.Codec} (now : Z)
  (data : Data) (options : CompressionOptions.t) (buffer : ZipJs.ArchiveBuffer) :
  compressData now data options = Resolved buffer ->
  exists entries,
    buffer = ZipJs.Zip entries [] /\
    Forall (fun e => ZipJs.compressionMethod e
                     = if ZipJs.directory e then ZipJs.Store else ZipJs.Deflate)
           entries.
Proof.
  intros Hwrite.
  destruct (compressData_written _ _ _ _ Hwrite) as [entries [-> Hall]].
  exists entries. split; [reflexivity|].
  apply Forall_forall. intros e Hin.
  destruct (proj1 (Forall_forall _ _) Hall e Hin) as [n [d ->]].
  unfold ZipJs.new_entry. simpl.
  rewrite js_or_never_zero.
  now destruct (endsWith n ZipJs.DIRECTORY_SIGNATURE).
Qed.

Lemma written_files_are_always_deflated_witness :
  exists buffer entries,
    compressData (codec := RefCodec.codec) 0
      (Array (items_of (Sample.two_files ++ Sample.folder)))
      (Sample.options (Some 0%Q) None) = Resolved buffer /\
    buffer = ZipJs.Zip entries [] /\
    Forall (fun e => ZipJs.compressionMethod e
                     = if ZipJs.directory e then ZipJs.Store else ZipJs.Deflate)
           entries.
Proof.
  pose (buffer := ZipJs.Zip
          (map (stored_entry (codec := RefCodec.codec) 0
                  (writer_options (Sample.options (Some 0%Q) None)))
               (items_of (Sample.two_files ++ Sample.folder))) []).
  assert (Hwrite : compressData (codec := RefCodec.codec) 0
            (Array (items_of (Sample.two_files ++ Sample.folder)))
            (Sample.options (Some 0%Q) None) = Resolved buffer) by reflexivity.
  destruct (written_files_are_always_deflated (codec := RefCodec.codec) 0 _ _ _ Hwrite)
    as [entries H].
  exists buffer, entries. split; [exact Hwrite | exact H].
Defined.

(** * Properties of the tools *)

(** ** Runs of composed bodies *)

Lemma runs_and_then {A B} (p : Async A) (k : A -> Async B) :
  forall trace o,
  runs (and_then p k) trace o ->
  (exists a t1 t2, runs p t1 (Returned a) /\ runs (k a) t2 o /\ trace = t1 ++ t2) \/
  (exists e, runs p trace (Threw e) /\ o = Threw e) \/
  (runs p trace Unfinished /\ o = Unfinished).
Proof.
  induction p as [a | e | | X call k' IH]; intros trace o Hrun; simpl in *.
  - left. exists a, [], trace. auto.
  - right. left. exists e. destruct Hrun as [-> ->]. auto.
  - right. right. destruct Hrun as [-> ->]. auto.
  - destruct Hrun as (answer & rest & -> & Hrest).
    apply IH in Hrest as [(a & t1 & t2 & H1 & H2 & ->) | [(e & H1 & ->) | (H1 & ->)]].
    + left. exists a, (event call answer :: t1), t2.
      split; [exists answer, t1; auto | auto].
    + right. left. exists e. split; [exists answer, rest; auto | reflexivity].
    + right. right. split; [exists answer, rest; auto | reflexivity].
Qed.

Lemma runs_try_catch {A} (p : Async A) (handler : Error -> Async A) :
  forall trace o,
  runs (try_catch p handler) trace o ->
  (exists a, runs p trace (Returned a) /\ o = Returned a) \/
  (exists e t1 t2, runs p t1 (Threw e) /\ runs (handler e) t2 o /\ trace = t1 ++ t2) \/
  (runs p trace Unfinished /\ o = Unfinished).
Proof.
  induction p as [a | e | | X call k' IH]; intros trace o Hrun; simpl in *.
  - left. exists a. destruct Hrun as [-> ->]. auto.
  - right. left. exists e, [], trace. auto.
  - right. right. destruct Hrun as [-> ->]. auto.
  - destruct Hrun as (answer & rest & -> & Hrest).
    apply IH in Hrest as [(a & H1 & ->) | [(e & t1 & t2 & H1 & H2 & ->) | (H1 & ->)]].
    + left. exists a. split; [exists answer, rest; auto | reflexivity].
    + right. left. exists e, (event call answer :: t1), t2.
      split; [exists answer, t1; auto | auto].
    + right. right. split; [exists answer, rest; auto | reflexivity].
Qed.

(** Following an oracle is one of the runs. *)
Lemma runs_of_oracle {A} (w : Oracle) (p : Async A) :
  runs p (trace_of w p) (eval w p).
Proof.
  induction p as [a | e | | X call k IH]; simpl; auto.
  exists (w _ call), (trace_of w (k (w _ call))). auto.
Qed.

Lemma eval_and_then {A B} (w : Oracle) (p : Async A) (k : A -> Async B) :
  eval w (and_then p k) =
  match eval w p with
  | Returned a => eval w (k a)
  | Threw e => Threw e
  | Unfinished => Unfinished
  end.
Proof. induction p as [a | e | | X call k' IH]; simpl; auto. Qed.

Lemma trace_of_and_then {A B} (w : Oracle) (p : Async A) (k : A -> Async B) :
  trace_of w (and_then p k) =
  trace_of w p ++ match eval w p with
                  | Returned a => trace_of w (k a)
                  | _ => []
                  end.
Proof.
  induction p as [a | e | | X call k' IH]; simpl; auto.
  now rewrite IH.
Qed.

Lemma eval_try_catch {A} (w : Oracle) (p : Async A) (handler : Error -> Async A) :
  eval w (try_catch p handler) =
  match eval w p with
  | Returned a => Returned a
  | Threw e => eval w (handler e)
  | Unfinished => Unfinished
  end.
Proof. induction p as [a | e | | X call k' IH]; simpl; auto. Qed.

Lemma trace_of_try_catch {A} (w : Oracle) (p : Async A) (handler : Error -> Async A) :
  trace_of w (try_catch p handler) =
  trace_of w p ++ match eval w p with
                  | Threw e => trace_of w (handler e)
                  | _ => []
                  end.
Proof.
  induction p as [a | e | | X call k' IH]; simpl; auto using app_nil_r.
  now rewrite IH.
Qed.

Lemma runs_exists filePath trace o :
  runs (exists_ filePath) trace o ->
  exists answer,
    trace = [event (Fs.access filePath) answer] /\
    o = Returned match answer with Resolved _ => true | Rejected _ => false end.
Proof.
  intros (answer & rest & -> & Hrest). exists answer.
  destruct answer; destruct Hrest as [-> ->]; auto.
Qed.

Lemma runs_perform {X} (call : Fs.Call (Promise X)) trace o :
  runs (perform call) trace o ->
  exists answer,
    trace = [event call answer] /\
    o = match answer with Resolved x => Returned x | Rejected e => Threw e end.
Proof.
  intros (answer & rest & -> & Hrest). exists answer.
  destruct answer; destruct Hrest as [-> ->]; auto.
Qed.

Lemma runs_settle {A} (p : Promise A) trace o :
  runs (settle p) trace o ->
  trace = [] /\ o = match p with Resolved a => Returned a | Rejected e => Threw e end.
Proof. destruct p; simpl; auto. Qed.

Lemma writes_app t1 t2 : writes (t1 ++ t2) = writes t1 ++ writes t2.
Proof.
  induction t1 as [|e t1 IH]; simpl; [reflexivity|].
  destruct (write_of e); simpl; now rewrite IH.
Qed.

Lemma changes_app t1 t2 : changes (t1 ++ t2) = changes t1 ++ changes t2.
Proof.
  induction t1 as [|e t1 IH]; simpl; [reflexivity|].
  destruct (write_of e), (mkdir_of e); simpl; now rewrite IH.
Qed.

Lemma writes_of_changes trace : changes trace = [] -> writes trace = [].
Proof.
  induction trace as [|e t IH]; simpl; [reflexivity|].
  destruct (write_of e); [discriminate|].
  destruct (mkdir_of e); [discriminate | exact IH].
Qed.

(** ** [getAllFiles] *)

Section Traversal.
Context {runtime : Runtime}.

Lemma eval_perform {X} (w : Oracle) (call : Fs.Call (Promise X)) :
  eval w (perform call) =
  match w _ call with
  | Resolved x => Returned x
  | Rejected e => Threw e
  end.
Proof. simpl. now destruct (w _ call). Qed.

Lemma getAllFiles_loop_on_tree (w : Oracle) (basePath : string)
  (recurse : string -> list string -> Async (list string)) (bound : nat) :
  (forall dirPath children fileList,
     describes w dirPath (DirTree children) ->
     S (forest_depth children) <= bound ->
     eval w (recurse dirPath fileList)
     = Returned (fileList ++ map (path_relative basePath) (forest_files dirPath children))) ->
  forall dirPath children fileList,
    describes_children w dirPath children ->
    forest_depth children <= bound ->
    eval w (getAllFiles_loop recurse dirPath basePath (child_names children) fileList)
    = Returned (fileList ++ map (path_relative basePath) (forest_files dirPath children)).
Proof.
  intros Hrec dirPath children.
  induction children as [|name child rest IH]; intros fileList Hdesc Hdepth.
  - simpl. now rewrite app_nil_r.
  - cbn [child_names getAllFiles_loop forest_files]. cbn [describes_children] in Hdesc.
    destruct Hdesc as [Hchild Hrest].
    cbn [forest_depth] in Hdepth.
    rewrite eval_and_then, eval_perform.
    destruct child as [data | grandchildren].
    + cbn [describes] in Hchild. rewrite Hchild. cbn [Fs.isDirectory tree_files].
      rewrite IH by (try assumption; lia).
      now rewrite map_app, app_assoc.
    + pose proof Hchild as [Hstat _]. rewrite Hstat. cbn [Fs.isDirectory tree_files].
      rewrite eval_and_then, (Hrec _ grandchildren)
        by (try assumption; cbn [tree_depth] in Hdepth; lia).
      rewrite IH by (try assumption; lia).
      now rewrite map_app, app_assoc.
Qed.

Lemma getAllFiles_on_tree (w : Oracle) (basePath : string) (fuel : nat) :
  forall dirPath children fileList,
    describes w dirPath (DirTree children) ->
    S (forest_depth children) <= fuel ->
    eval w (getAllFiles fuel dirPath fileList basePath)
    = Returned (fileList ++ map (path_relative basePath) (forest_files dirPath children)).
Proof.
  induction fuel as [|fuel IH]; intros dirPath children fileList Hdesc Hdepth; [lia|].
  cbn [getAllFiles]. rewrite eval_and_then, eval_perform.
  destruct Hdesc as (_ & Hdir & Hchildren). rewrite Hdir.
  apply (getAllFiles_loop_on_tree w basePath _ fuel); [exact IH | assumption | lia].
Qed.

(** The traversal only looks: whatever the file system answers, it calls
    nothing but [readdir] and [stat]. *)
Lemma getAllFiles_loop_changes_nothing
  (recurse : string -> list string -> Async (list string)) (dirPath basePath : string) :
  (forall filePath fileList trace o,
     runs (recurse filePath fileList) trace o -> changes trace = []) ->
  forall files fileList trace o,
    runs (getAllFiles_loop recurse dirPath basePath files fileList) trace o ->
    changes trace = [].
Proof.
  intros Hrec files.
  induction files as [|file rest IH]; intros fileList trace o Hrun.
  - destruct Hrun as [-> _]. reflexivity.
  - cbn [getAllFiles_loop] in Hrun.
    apply runs_and_then in Hrun
      as [(st & t1 & t2 & H1 & H2 & ->) | [(e & H1 & ->) | (H1 & ->)]];
      apply runs_perform in H1 as (answer & -> & Hanswer);
      rewrite ?changes_app; simpl; try reflexivity.
    destruct (Fs.isDirectory st).
    + apply runs_and_then in H2
        as [(l & t3 & t4 & H3 & H4 & ->) | [(e & H3 & ->) | (H3 & ->)]];
        rewrite ?changes_app, (Hrec _ _ _ _ H3); simpl; eauto.
    + eauto.
Qed.

Lemma getAllFiles_changes_nothing (fuel : nat) :
  forall dirPath fileList basePath trace o,
    runs (getAllFiles fuel dirPath fileList basePath) trace o ->
    changes trace = [].
Proof.
  induction fuel as [|fuel IH]; intros dirPath fileList basePath trace o Hrun.
  - destruct Hrun as [-> _]. reflexivity.
  - cbn [getAllFiles] in Hrun.
    apply runs_and_then in Hrun
      as [(files & t1 & t2 & H1 & H2 & ->) | [(e & H1 & ->) | (H1 & ->)]];
      apply runs_perform in H1 as (answer & -> & Hanswer);
      rewrite ?changes_app; simpl; try reflexivity.
    apply (getAllFiles_loop_changes_nothing _ dirPath basePath) in H2; [assumption|].
    intros filePath fileList' trace' o'. apply IH.
Qed.

End Traversal.

(** X12.  On a file system that answers [stat] and [readdir] as a
    directory tree says, [getAllFiles], given a bound no smaller than the
    nesting of the tree, returns the relative paths of exactly the regular
    files of the tree, depth first and in the order [readdir] lists the
    children; directories themselves are not listed, so an empty directory
    contributes nothing. *)
Theorem getAllFiles_lists_the_files_of_the_tree {runtime : Runtime} (w : Oracle)
  (fuel : nat) (dirPath : string) (children : Forest) :
  describes w dirPath (DirTree children) ->
  tree_depth (DirTree children) <= fuel ->
  eval w (getAllFiles fuel dirPath [] dirPath)
  = Returned (map (path_relative dirPath) (forest_files dirPath children)).
Proof.
  intros Hdesc Hdepth.
  exact (getAllFiles_on_tree w dirPath fuel dirPath children [] Hdesc Hdepth).
Qed.

(** X13.  [getAllFiles] only reads: in every run, whatever the file
    system answers and whatever the bound, it issues no [writeFile] and no
    [mkdir]. *)
Theorem getAllFiles_only_reads {runtime : Runtime} (fuel : nat)
  (dirPath : string) (fileList : list string) (basePath : string)
  (trace : list Event) (o : Outcome (list string)) :
  runs (getAllFiles fuel dirPath fileList basePath) trace o ->
  changes trace = [].
Proof. apply getAllFiles_changes_nothing. Qed.

Lemma getAllFiles_lists_the_files_of_the_tree_witness :
  describes (runtime := RefRuntime.runtime) SampleDisk.disk "/in"
    (DirTree SampleDisk.in_children) /\
  tree_depth (DirTree SampleDisk.in_children) <= 2 /\
  eval SampleDisk.disk (getAllFiles (runtime := RefRuntime.runtime) 2 "/in" [] "/in")
  = Returned ["a.txt"; "sub/b.txt"]%string.
Proof.
  assert (Hdesc : describes (runtime := RefRuntime.runtime) SampleDisk.disk "/in"
                    (DirTree SampleDisk.in_children)) by (simpl; tauto).
  assert (Hdepth : tree_depth (DirTree SampleDisk.in_children) <= 2) by (simpl; lia).
  split; [exact Hdesc|]. split; [exact Hdepth|].
  exact (getAllFiles_lists_the_files_of_the_tree (runtime := RefRuntime.runtime)
           SampleDisk.disk 2 "/in" SampleDisk.in_children Hdesc Hdepth).
Defined.

Lemma getAllFiles_only_reads_witness :
  runs (getAllFiles (runtime := RefRuntime.runtime) 2 "/in" [] "/in")
    (trace_of SampleDisk.disk (getAllFiles (runtime := RefRuntime.runtime) 2 "/in" [] "/in"))
    (eval SampleDisk.disk (getAllFiles (runtime := RefRuntime.runtime) 2 "/in" [] "/in")) /\
  changes (trace_of SampleDisk.disk
             (getAllFiles (runtime := RefRuntime.runtime) 2 "/in" [] "/in")) = [].
Proof.
  split; [apply runs_of_oracle|].
  exact (getAllFiles_only_reads (runtime := RefRuntime.runtime) 2 "/in" [] "/in" _ _
           (runs_of_oracle SampleDisk.disk _)).
Defined.

(** ** The [compress] tool *)

Lemma mkdirs_app t1 t2 : mkdirs (t1 ++ t2) = mkdirs t1 ++ mkdirs t2.
Proof.
  induction t1 as [|e t1 IH]; simpl; [reflexivity|].
  destruct (mkdir_of e); simpl; now rewrite IH.
Qed.

Lemma mkdirs_of_changes trace : changes trace = [] -> mkdirs trace = [].
Proof.
  induction trace as [|e t IH]; simpl; [reflexivity|].
  destruct (write_of e); [discriminate|].
  destruct (mkdir_of e); [discriminate | exact IH].
Qed.

Lemma reads_only_return {A} (a : A) : reads_only (Return a).
Proof. intros trace o [-> _]. reflexivity. Qed.

Lemma reads_only_throw {A} (e : Error) : reads_only (@Throw A e).
Proof. intros trace o [-> _]. reflexivity. Qed.

Lemma reads_only_and_then {A B} (p : Async A) (k : A -> Async B) :
  reads_only p -> (forall a, reads_only (k a)) -> reads_only (and_then p k).
Proof.
  intros Hp Hk trace o Hrun.
  apply runs_and_then in Hrun
    as [(a & t1 & t2 & H1 & H2 & ->) | [(e & H1 & ->) | (H1 & ->)]].
  - now rewrite changes_app, (Hp _ _ H1), (Hk _ _ _ H2).
  - exact (Hp _ _ H1).
  - exact (Hp _ _ H1).
Qed.

Lemma reads_only_exists filePath : reads_only (exists_ filePath).
Proof.
  intros trace o Hrun. apply runs_exists in Hrun as (answer & -> & _). reflexivity.
Qed.

Lemma reads_only_perform {X} (call : Fs.Call (Promise X)) :
  (forall answer, changes [event call answer] = []) -> reads_only (perform call).
Proof.
  intros Hcall trace o Hrun. apply runs_perform in Hrun as (answer & -> & _).
  apply Hcall.
Qed.

Lemma reads_only_settle {A} (p : Promise A) : reads_only (settle p).
Proof. intros trace o Hrun. apply runs_settle in Hrun as [-> _]. reflexivity. Qed.

Section CompressToolFacts.
Context {runtime : Runtime} {codec : ZipJs.Codec}.

Lemma reads_only_getAllFiles fuel dirPath fileList basePath :
  reads_only (getAllFiles fuel dirPath fileList basePath).
Proof. intros trace o. apply getAllFiles_changes_nothing. Qed.

Lemma reads_only_read_listed_files inputPath baseDir files :
  forall filesToCompress,
    reads_only (read_listed_files inputPath baseDir files filesToCompress).
Proof.
  induction files as [|relPath rest IH]; intros filesToCompress;
    cbn [read_listed_files].
  - apply reads_only_return.
  - apply reads_only_and_then; [now apply reads_only_perform | intros d; apply IH].
Qed.

Lemma reads_only_collect_inputs fuel inputPaths :
  forall filesToCompress, reads_only (collect_inputs fuel inputPaths filesToCompress).
Proof.
  induction inputPaths as [|inputPath rest IH]; intros filesToCompress;
    cbn [collect_inputs].
  - apply reads_only_return.
  - apply reads_only_and_then; [apply reads_only_exists|]. intros found.
    destruct (negb found); [apply reads_only_throw|].
    apply reads_only_and_then; [now apply reads_only_perform|]. intros stats.
    apply reads_only_and_then; [|intros files; apply IH].
    destruct (Fs.isDirectory stats).
    + apply reads_only_and_then; [apply reads_only_getAllFiles|].
      intros files. apply reads_only_read_listed_files.
    + apply reads_only_and_then; [now apply reads_only_perform|].
      intros d. apply reads_only_return.
Qed.

End CompressToolFacts.

Lemma compress_execute_runs {runtime : Runtime} {codec : ZipJs.Codec}
  (fuel : nat) (now : Z) (args : CompressArgs.t) (trace : list Event)
  (o : Outcome (list string)) :
  runs (compress_execute fuel now args) trace o ->
  incl (mkdirs trace) [path_dirname (CompressArgs.output args)] /\
  ((writes trace = [] /\
    (o = Unfinished \/ exists text, o = Returned [("压缩失败: " ++ text)%string])) \/
   (exists files buffer answer before,
      compressData now (Array files)
        (CompressTool.compressionOptions (CompressArgs.options args)) = Resolved buffer /\
      trace = before ++
        [event (Fs.writeFile (CompressArgs.output args) (bytes_of_archive buffer)) answer] /\
      writes before = [] /\
      o = Returned [match answer with
                    | Resolved _ =>
                        compress_done (CompressArgs.output args) (List.length files)
                    | Rejected e => ("压缩失败: " ++ message e)%string
                    end])).
Proof.
  intros Hrun. unfold compress_execute in Hrun.
  set (outputPath := CompressArgs.output args) in *.
  set (outputDir := path_dirname outputPath) in *.
  match type of Hrun with
  | runs (try_catch ?body _) _ _ =>
      assert (Hbody : forall t o',
        runs body t o' ->
        incl (mkdirs t) [outputDir] /\
        ((writes t = [] /\ (o' = Unfinished \/ exists e, o' = Threw e)) \/
         (exists files buffer answer before,
            compressData now (Array files)
              (CompressTool.compressionOptions (CompressArgs.options args))
            = Resolved buffer /\
            t = before ++
              [event (Fs.writeFile outputPath (bytes_of_archive buffer)) answer] /\
            writes before = [] /\
            o' = match answer with
                 | Resolved _ => Returned [compress_done outputPath (List.length files)]
                 | Rejected e => Threw e
                 end)))
  end.
  { clear Hrun trace o. intros t o' H.
    apply runs_and_then in H
      as [(outputExists & t1 & t2 & H1 & H2 & ->) | [(e & H1 & ->) | (H1 & ->)]];
      apply runs_exists in H1 as (a1 & -> & Ho1); try discriminate.
    clear Ho1.
    destruct (outputExists && _).
    { destruct H2 as [-> ->]. split; [apply incl_nil_l|]. left. eauto. }
    apply runs_and_then in H2
      as [(dirExists & t3 & t4 & H3 & H4 & ->) | [(e & H3 & ->) | (H3 & ->)]];
      apply runs_exists in H3 as (a3 & -> & Ho3); try discriminate.
    clear Ho3.
    apply runs_and_then in H4
      as [(u & t5 & t6 & H5 & H6 & ->) | [(e & H5 & ->) | (H5 & ->)]].
    2, 3: destruct (negb dirExists);
      [ apply runs_perform in H5 as (a5 & -> & Ho5)
      | destruct H5 as [-> Ho5]; discriminate ];
      (split; [simpl; apply incl_refl | left; simpl; eauto]).
    assert (Hm5 : incl (mkdirs t5) [outputDir] /\ writes t5 = []).
    { destruct (negb dirExists).
      - apply runs_perform in H5 as (a5 & -> & _). simpl. split; [apply incl_refl | reflexivity].
      - destruct H5 as [-> _]. simpl. split; [apply incl_nil_l | reflexivity]. }
    destruct Hm5 as [Hm5 Hw5]. clear H5.
    apply runs_and_then in H6
      as [(files & t7 & t8 & H7 & H8 & ->) | [(e & H7 & ->) | (H7 & ->)]];
      pose proof (reads_only_collect_inputs _ _ _ _ _ H7) as Hquiet;
      pose proof (writes_of_changes _ Hquiet) as Hw7;
      pose proof (mkdirs_of_changes _ Hquiet) as Hm7.
    2, 3: split;
      [ simpl; rewrite !mkdirs_app, Hm7, app_nil_r; exact Hm5
      | left; simpl; rewrite !writes_app, Hw5, Hw7; simpl; eauto ].
    apply runs_and_then in H8
      as [(result & t9 & t10 & H9 & H10 & ->) | [(e & H9 & ->) | (H9 & ->)]];
      apply runs_settle in H9 as [-> Ho9].
    2: { split;
         [ simpl; rewrite !mkdirs_app, Hm7, !app_nil_r; exact Hm5
         | left; simpl; rewrite !writes_app, Hw5, Hw7; simpl; eauto ]. }
    2: { destruct (compressData now (Array files) _); discriminate. }
    destruct (compressData now (Array files) _) as [buffer|e] eqn:Hengine;
      [|discriminate].
    injection Ho9 as ->.
    apply runs_and_then in H10
      as [(u' & t11 & t12 & H11 & H12 & ->) | [(e & H11 & ->) | (H11 & ->)]];
      apply runs_perform in H11 as (a11 & -> & Ho11).
    - destruct H12 as [-> ->]. destruct a11 as [[]|e]; [|discriminate].
      split.
      + simpl. rewrite !mkdirs_app, Hm7. simpl. rewrite app_nil_r. exact Hm5.
      + right. exists files, buffer, (Resolved tt),
          (event (Fs.access outputPath) a1 :: event (Fs.access outputDir) a3 :: t5 ++ t7).
        split; [exact Hengine|]. split.
        * simpl. now rewrite <- !app_assoc.
        * split; [|reflexivity]. simpl. now rewrite writes_app, Hw5, Hw7.
    - destruct a11 as [u'|e']; [discriminate|]. injection Ho11 as ->.
      split.
      + simpl. rewrite !mkdirs_app, Hm7. simpl. rewrite app_nil_r. exact Hm5.
      + right. exists files, buffer, (Rejected e'),
          (event (Fs.access outputPath) a1 :: event (Fs.access outputDir) a3 :: t5 ++ t7).
        split; [exact Hengine|]. split.
        * simpl. now rewrite <- !app_assoc.
        * split; [|reflexivity]. simpl. now rewrite writes_app, Hw5, Hw7.
    - destruct a11; discriminate. }
  apply runs_try_catch in Hrun
    as [(a & Hb & ->) | [(e & t1 & t2 & Hb & Hh & ->) | (Hb & ->)]];
    apply Hbody in Hb as [Hmk [[Hw Ho] | (files & buffer & answer & before & He & Ht & Hw & Ho)]].
  - destruct Ho as [Ho | [e Ho]]; discriminate.
  - split; [exact Hmk|]. right. exists files, buffer, answer, before.
    destruct answer; [|discriminate]. injection Ho as ->. auto.
  - destruct Hh as [-> ->]. rewrite app_nil_r. split; [exact Hmk|]. left.
    split; [exact Hw|]. right. eauto.
  - destruct Hh as [-> ->]. rewrite app_nil_r. split; [exact Hmk|]. right.
    exists files, buffer, answer, before.
    destruct answer; [discriminate|]. injection Ho as ->. auto.
  - split; [exact Hmk|]. left. auto.
  - destruct answer; discriminate.
Qed.

(** X14.  What the [compress] tool changes on disk, in every run and
    whatever the file system answers: it creates at most the directory of
    the output path, and it writes at most once, to the output path, as its
    last call, the bytes of the archive [compressData] returned for the
    collected files under the options of the request.  It never throws:
    without a write the answer is a failure text (or the traversal bound
    was reached); with a write the answer is the success text with the
    number of files if the write succeeded, and a failure text otherwise. *)
Theorem compress_tool_writes_only_its_output {runtime : Runtime} {codec : ZipJs.Codec}
  (fuel : nat) (now : Z) (args : CompressArgs.t) (trace : list Event)
  (o : Outcome (list string)) :
  runs (compress_execute fuel now args) trace o ->
  incl (mkdirs trace) [path_dirname (CompressArgs.output args)] /\
  ((writes trace = [] /\
    (o = Unfinished \/ exists text, o = Returned [("压缩失败: " ++ text)%string])) \/
   (exists files buffer answer before,
      compressData now (Array files)
        (CompressTool.compressionOptions (CompressArgs.options args)) = Resolved buffer /\
      trace = before ++
        [event (Fs.writeFile (CompressArgs.output args) (bytes_of_archive buffer)) answer] /\
      writes before = [] /\
      o = Returned [match answer with
                    | Resolved _ =>
                        compress_done (CompressArgs.output args) (List.length files)
                    | Rejected e => ("压缩失败: " ++ message e)%string
                    end])).
Proof. apply compress_execute_runs. Qed.

Example compress_tool_runs :
  eval SampleDisk.disk
    (compress_execute (runtime := RefRuntime.runtime) (codec := RefCodec.codec) 3 0
       (SampleDisk.compress_args ["/in"; "/other/a.txt"]%string "/out/new.zip" None))
  = Returned ["压缩完成。已创建 /out/new.zip 文件，包含 3 个文件。"%string] /\
  map fst (writes (trace_of SampleDisk.disk
    (compress_execute (runtime := RefRuntime.runtime) (codec := RefCodec.codec) 3 0
       (SampleDisk.compress_args ["/in"; "/other/a.txt"]%string "/out/new.zip" None))))
  = ["/out/new.zip"%string].
Proof. split; vm_compute; reflexivity. Qed.

Lemma compress_tool_writes_only_its_output_witness :
  runs (compress_execute (runtime := RefRuntime.runtime) (codec := RefCodec.codec) 3 0
          (SampleDisk.compress_args ["/in"; "/other/a.txt"]%string "/out/new.zip" None))
    (trace_of SampleDisk.disk
       (compress_execute (runtime := RefRuntime.runtime) (codec := RefCodec.codec) 3 0
          (SampleDisk.compress_args ["/in"; "/other/a.txt"]%string "/out/new.zip" None)))
    (eval SampleDisk.disk
       (compress_execute (runtime := RefRuntime.runtime) (codec := RefCodec.codec) 3 0
          (SampleDisk.compress_args ["/in"; "/other/a.txt"]%string "/out/new.zip" None))) /\
  incl (mkdirs (trace_of SampleDisk.disk
       (compress_execute (runtime := RefRuntime.runtime) (codec := RefCodec.codec) 3 0
          (SampleDisk.compress_args ["/in"; "/other/a.txt"]%string "/out/new.zip" None))))
    ["/out"%string].
Proof.
  split; [apply runs_of_oracle|].
  exact (proj1 (compress_tool_writes_only_its_output
                  (runtime := RefRuntime.runtime) (codec := RefCodec.codec) 3 0
                  (SampleDisk.compress_args ["/in"; "/other/a.txt"]%string "/out/new.zip" None)
                  _ _ (runs_of_oracle SampleDisk.disk _))).
Defined.

Section CompressScenarios.
Context {runtime : Runtime} {codec : ZipJs.Codec}.

Lemma eval_exists (w : Oracle) filePath :
  eval w (exists_ filePath) =
  Returned match w _ (Fs.access filePath) with
           | Resolved _ => true
           | Rejected _ => false
           end.
Proof. simpl. now destruct (w _ (Fs.access filePath)). Qed.

Lemma trace_of_exists (w : Oracle) filePath :
  trace_of w (exists_ filePath)
  = [event (Fs.access filePath) (w _ (Fs.access filePath))].
Proof. simpl. now destruct (w _ (Fs.access filePath)). Qed.

Lemma trace_of_perform {X} (w : Oracle) (call : Fs.Call (Promise X)) :
  trace_of w (perform call) = [event call (w _ call)].
Proof. simpl. now destruct (w _ call). Qed.

Lemma eval_settle {A} (w : Oracle) (p : Promise A) :
  eval w (settle p) =
  match p with
  | Resolved a => Returned a
  | Rejected e => Threw e
  end.
Proof. now destruct p. Qed.

Lemma trace_of_settle {A} (w : Oracle) (p : Promise A) : trace_of w (settle p) = [].
Proof. now destruct p. Qed.

(** An input path that is a regular file adds one item, named by its
    base name. *)
Lemma collect_regular_file (w : Oracle) fuel inputPath rest filesToCompress u d :
  w _ (Fs.access inputPath) = Resolved u ->
  w _ (Fs.stat inputPath) = Resolved {| Fs.isDirectory := false |} ->
  w _ (Fs.readFile inputPath) = Resolved d ->
  eval w (collect_inputs fuel (inputPath :: rest) filesToCompress)
  = eval w (collect_inputs fuel rest
              (filesToCompress ++
                 [ {| Item.name := path_basename inputPath; Item.data := U8 d |} ])).
Proof.
  intros Haccess Hstat Hread. cbn [collect_inputs].
  rewrite eval_and_then, eval_exists, Haccess. cbn [negb].
  rewrite eval_and_then, eval_perform, Hstat. cbn [Fs.isDirectory].
  rewrite !eval_and_then, eval_perform, Hread. reflexivity.
Qed.

End CompressScenarios.

(** X15.  The [compress] tool does not overwrite: when the output path
    exists and [overwrite] is not [true], the tool answers that the output
    file exists and has made no other call than the check itself: nothing
    is read, created or written. *)
Theorem compress_tool_refuses_to_overwrite {runtime : Runtime} {codec : ZipJs.Codec}
  (w : Oracle) (fuel : nat) (now : Z) (args : CompressArgs.t) (u : unit) :
  w _ (Fs.access (CompressArgs.output args)) = Resolved u ->
  compress_overwrite args = false ->
  eval w (compress_execute fuel now args)
  = Returned [("压缩失败: 输出文件 " ++ CompressArgs.output args
               ++ " 已存在。设置 overwrite: true 以覆盖。")%string] /\
  trace_of w (compress_execute fuel now args)
  = [event (Fs.access (CompressArgs.output args)) (Resolved u)].
Proof.
  intros Hexists Hkeep. unfold compress_execute.
  fold (compress_overwrite args). rewrite Hkeep.
  rewrite eval_try_catch, trace_of_try_catch, eval_and_then, trace_of_and_then,
    eval_exists, trace_of_exists, Hexists.
  split; reflexivity.
Qed.

Lemma compress_tool_refuses_to_overwrite_witness :
  SampleDisk.disk _ (Fs.access "/out/a.txt") = Resolved tt /\
  compress_overwrite (SampleDisk.compress_args ["/in"%string] "/out/a.txt" None) = false /\
  eval SampleDisk.disk
    (compress_execute (runtime := RefRuntime.runtime) (codec := RefCodec.codec) 3 0
       (SampleDisk.compress_args ["/in"%string] "/out/a.txt" None))
  = Returned ["压缩失败: 输出文件 /out/a.txt 已存在。设置 overwrite: true 以覆盖。"%string].
Proof.
  split; [reflexivity|]. split; [reflexivity|].
  exact (proj1 (compress_tool_refuses_to_overwrite
                  (runtime := RefRuntime.runtime) (codec := RefCodec.codec)
                  SampleDisk.disk 3 0
                  (SampleDisk.compress_args ["/in"%string] "/out/a.txt" None) tt
                  eq_refl eq_refl)).
Defined.

(** X16.  Two inputs with the same base name cannot be compressed
    together: when both input paths are regular files whose base names are
    equal up to surrounding white space, the engine refuses the second one
    and the tool answers "压缩失败: 压缩失败: File already exists", the
    prefix appearing twice, without writing anything. *)
Theorem compress_tool_same_base_name_fails {runtime : Runtime} {codec : ZipJs.Codec}
  (w : Oracle) (fuel : nat) (now : Z) (output : string)
  (options : option CompressTool.Options) (p1 p2 : string) (d1 d2 : bytes)
  (missing : Error) :
  w _ (Fs.access output) = Rejected missing ->
  w _ (Fs.access (path_dirname output)) = Resolved tt ->
  w _ (Fs.access p1) = Resolved tt ->
  w _ (Fs.stat p1) = Resolved {| Fs.isDirectory := false |} ->
  w _ (Fs.readFile p1) = Resolved d1 ->
  w _ (Fs.access p2) = Resolved tt ->
  w _ (Fs.stat p2) = Resolved {| Fs.isDirectory := false |} ->
  w _ (Fs.readFile p2) = Resolved d2 ->
  trim (path_basename p1) = trim (path_basename p2) ->
  eval w (compress_execute fuel now
            {| CompressArgs.input := CompressArgs.Paths [p1; p2];
               CompressArgs.output := output;
               CompressArgs.options := options |})
  = Returned ["压缩失败: 压缩失败: File already exists"%string] /\
  writes (trace_of w (compress_execute fuel now
            {| CompressArgs.input := CompressArgs.Paths [p1; p2];
               CompressArgs.output := output;
               CompressArgs.options := options |})) = [].
Proof.
  intros Hout Hdir Ha1 Hs1 Hr1 Ha2 Hs2 Hr2 Hsame.
  assert (Hcollect : eval w (collect_inputs fuel [p1; p2] [])
            = Returned [ {| Item.name := path_basename p1; Item.data := U8 d1 |};
                         {| Item.name := path_basename p2; Item.data := U8 d2 |} ]).
  { rewrite (collect_regular_file w fuel p1 _ _ tt d1 Ha1 Hs1 Hr1).
    rewrite (collect_regular_file w fuel p2 _ _ tt d2 Ha2 Hs2 Hr2).
    reflexivity. }
  assert (Hengine : forall o,
            compressData now
              (Array [ {| Item.name := path_basename p1; Item.data := U8 d1 |};
                       {| Item.name := path_basename p2; Item.data := U8 d2 |} ]) o
            = Rejected (new_Error "压缩失败: File already exists")).
  { intros o. rewrite compressData_array_closed. unfold distinctb. simpl.
    unfold stored_name. simpl. rewrite Hsame, String.eqb_refl. reflexivity. }
  unfold compress_execute. cbn [CompressArgs.output CompressArgs.input CompressArgs.options].
  match goal with |- context [try_catch ?b _] => set (body := b) end.
  assert (Heval : eval w body
                  = Threw (new_Error "压缩失败: File already exists")).
  { subst body.
    rewrite eval_and_then, eval_exists, Hout. cbn [andb].
    rewrite eval_and_then, eval_exists, Hdir. cbn [negb].
    rewrite eval_and_then. cbn [eval].
    rewrite eval_and_then, Hcollect.
    rewrite eval_and_then, eval_settle, Hengine. reflexivity. }
  assert (Hquiet : writes (trace_of w body) = []).
  { subst body.
    rewrite trace_of_and_then, eval_exists, trace_of_exists, Hout. cbn [andb].
    rewrite trace_of_and_then, eval_exists, trace_of_exists, Hdir. cbn [negb].
    rewrite trace_of_and_then. cbn [eval trace_of].
    rewrite trace_of_and_then, Hcollect.
    rewrite trace_of_and_then, eval_settle, trace_of_settle, Hengine.
    rewrite !writes_app.
    rewrite (writes_of_changes _
               (reads_only_collect_inputs fuel [p1; p2] [] _ _ (runs_of_oracle w _))).
    reflexivity. }
  rewrite eval_try_catch, trace_of_try_catch, Heval, writes_app, Hquiet.
  split; reflexivity.
Qed.

Lemma compress_tool_same_base_name_fails_witness :
  SampleDisk.disk _ (Fs.access "/out/new.zip") = Rejected SampleDisk.ENOENT /\
  trim (RefRuntime.basename "/in/a.txt") = trim (RefRuntime.basename "/other/a.txt") /\
  eval SampleDisk.disk
    (compress_execute (runtime := RefRuntime.runtime) (codec := RefCodec.codec) 3 0
       {| CompressArgs.input := CompressArgs.Paths ["/in/a.txt"; "/other/a.txt"]%string;
          CompressArgs.output := "/out/new.zip";
          CompressArgs.options := None |})
  = Returned ["压缩失败: 压缩失败: File already exists"%string].
Proof.
  split; [reflexivity|]. split; [reflexivity|].
  exact (proj1 (compress_tool_same_base_name_fails
                  (runtime := RefRuntime.runtime) (codec := RefCodec.codec)
                  SampleDisk.disk 3 0 "/out/new.zip" None "/in/a.txt" "/other/a.txt"
                  Sample.hello Sample.world SampleDisk.ENOENT
                  eq_refl eq_refl eq_refl eq_refl eq_refl eq_refl eq_refl eq_refl
                  eq_refl)).
Defined.

(** X17.  The [comment] option of the [compress] tool is accepted and
    never used: the tool is the same whatever comment the request carries,
    and whatever it writes is an archive whose comment is empty. *)
Theorem compress_tool_ignores_the_comment {runtime : Runtime} {codec : ZipJs.Codec}
  (fuel : nat) (now : Z) :
  (forall input output level comment1 comment2 password strength overwrite,
     compress_execute fuel now
       {| CompressArgs.input := input;
          CompressArgs.output := output;
          CompressArgs.options :=
            Some {| CompressTool.level := level;
                    CompressTool.comment := comment1;
                    CompressTool.password := password;
                    CompressTool.encryptionStrength := strength;
                    CompressTool.overwrite := overwrite |} |}
     = compress_execute fuel now
       {| CompressArgs.input := input;
          CompressArgs.output := output;
          CompressArgs.options :=
            Some {| CompressTool.level := level;
                    CompressTool.comment := comment2;
                    CompressTool.password := password;
                    CompressTool.encryptionStrength := strength;
                    CompressTool.overwrite := overwrite |} |}) /\
  (forall args trace o path data,
     runs (compress_execute fuel now args) trace o ->
     In (path, data) (writes trace) ->
     exists entries, data = bytes_of_archive (ZipJs.Zip entries [])).
Proof.
  split; [reflexivity|].
  intros args trace o path data Hrun Hin.
  apply compress_execute_runs in Hrun
    as [_ [[Hw _] | (files & buffer & answer & before & Hengine & -> & Hw & _)]].
  - rewrite Hw in Hin. contradiction.
  - rewrite writes_app, Hw in Hin. simpl in Hin.
    destruct Hin as [[= <- <-] | []].
    destruct (compressData_written _ _ _ _ Hengine) as [entries [-> _]].
    now exists entries.
Qed.

(** ** The [decompress] tool *)

Lemma reads_app t1 t2 : reads (t1 ++ t2) = reads t1 ++ reads t2.
Proof.
  induction t1 as [|e t1 IH]; simpl; [reflexivity|].
  destruct (read_of e); simpl; now rewrite IH.
Qed.

Lemma writes_guarded_after_quiet prefix : forall previous trace,
  writes prefix = [] ->
  (forall before, writes_guarded before trace) ->
  writes_guarded previous (prefix ++ trace).
Proof.
  induction prefix as [|e prefix IH]; intros previous trace Hquiet Htrace; simpl.
  - apply Htrace.
  - simpl in Hquiet. destruct (write_of e) as [[path data]|]; [discriminate|].
    split; [exact I | now apply IH].
Qed.

Section DecompressToolFacts.
Context {runtime : Runtime} {codec : ZipJs.Codec}.

(** The extraction loop without [overwrite]: every write comes right
    after the check that found the path missing. *)
Lemma write_extracted_guarded outputPath result :
  forall extractedFiles trace o,
    runs (write_extracted outputPath false result extractedFiles) trace o ->
    forall before, writes_guarded before trace.
Proof.
  induction result as [|file rest IH]; intros extractedFiles trace o Hrun before.
  - destruct Hrun as [-> _]. exact I.
  - cbn [write_extracted] in Hrun.
    apply runs_and_then in Hrun
      as [(dirExists & t1 & t2 & H1 & H2 & ->) | [(e & H1 & ->) | (H1 & ->)]];
      apply runs_exists in H1 as (a1 & -> & Ho1); try discriminate.
    clear Ho1. simpl. split; [exact I|].
    apply runs_and_then in H2
      as [(u & t3 & t4 & H3 & H4 & ->) | [(e & H3 & ->) | (H3 & ->)]].
    2, 3: destruct (negb dirExists);
      [ apply runs_perform in H3 as (a3 & -> & _); simpl; auto
      | destruct H3 as [-> _]; exact I ].
    apply writes_guarded_after_quiet.
    { destruct (negb dirExists);
        [ apply runs_perform in H3 as (a3 & -> & _) | destruct H3 as [-> _] ];
        reflexivity. }
    clear H3. intros before'.
    apply runs_and_then in H4
      as [(fileExists & t5 & t6 & H5 & H6 & ->) | [(e & H5 & ->) | (H5 & ->)]];
      apply runs_exists in H5 as (a5 & -> & Ho5); try discriminate.
    injection Ho5 as ->. simpl. split; [exact I|].
    destruct a5 as [u5 | missing]; cbn [andb negb] in H6.
    + destruct H6 as (answer & tail & -> & Htail). simpl. split; [exact I|].
      exact (IH _ _ _ Htail _).
    + apply runs_and_then in H6
        as [(u' & t7 & t8 & H7 & H8 & ->) | [(e & H7 & ->) | (H7 & ->)]];
        apply runs_perform in H7 as (a7 & -> & _); simpl;
        (split; [reflexivity|]); try exact I.
      exact (IH _ _ _ H8 _).
Qed.

(** Whatever [overwrite] says, the loop reads no file, writes only
    extracted entries below the output path, and returns one name per
    write. *)
Lemma write_extracted_runs outputPath overwrite result :
  forall extractedFiles trace o,
    runs (write_extracted outputPath overwrite result extractedFiles) trace o ->
    reads trace = [] /\
    (forall path data, In (path, data) (writes trace) ->
       exists file, In file result /\
         path = path_join outputPath (Extracted.name file) /\
         data = Extracted.data file) /\
    o <> Unfinished /\
    (forall names, o = Returned names ->
       List.length names = List.length extractedFiles + List.length (writes trace)).
Proof.
  induction result as [|file rest IH]; intros extractedFiles trace o Hrun.
  - destruct Hrun as [-> ->]. simpl. repeat split; try contradiction; try discriminate.
    intros names [= <-]. lia.
  - cbn [write_extracted] in Hrun.
    apply runs_and_then in Hrun
      as [(dirExists & t1 & t2 & H1 & H2 & ->) | [(e & H1 & ->) | (H1 & ->)]];
      apply runs_exists in H1 as (a1 & -> & Ho1); try discriminate.
    clear Ho1.
    apply runs_and_then in H2
      as [(u & t3 & t4 & H3 & H4 & ->) | [(e & H3 & ->) | (H3 & ->)]].
    2, 3: destruct (negb dirExists);
      [ apply runs_perform in H3 as (a3 & -> & Ho3); destruct a3; try discriminate;
        (split; [reflexivity|]); (split; [intros ? ? []|]);
        (split; [discriminate | intros ? ?; discriminate])
      | destruct H3 as [-> Ho3]; discriminate ].
    assert (Hquiet : reads t3 = [] /\ writes t3 = []).
    { destruct (negb dirExists);
        [ apply runs_perform in H3 as (a3 & -> & _) | destruct H3 as [-> _] ];
        split; reflexivity. }
    destruct Hquiet as [Hr3 Hw3]. clear H3.
    apply runs_and_then in H4
      as [(fileExists & t5 & t6 & H5 & H6 & ->) | [(e & H5 & ->) | (H5 & ->)]];
      apply runs_exists in H5 as (a5 & -> & Ho5); try discriminate.
    clear Ho5.
    assert (Htail : (exists tail extractedFiles' wrote,
              runs (write_extracted outputPath overwrite rest extractedFiles') tail o /\
              reads t6 = reads tail /\
              writes t6 = wrote ++ writes tail /\
              (wrote = [] /\ extractedFiles' = extractedFiles \/
               wrote = [(path_join outputPath (Extracted.name file), Extracted.data file)] /\
               extractedFiles' = extractedFiles ++ [Extracted.name file]))
            \/ reads t6 = [] /\ (exists e, o = Threw e) /\
               writes t6 = [(path_join outputPath (Extracted.name file),
                             Extracted.data file)]).
    { destruct (fileExists && negb overwrite).
      - destruct H6 as (answer & tail & -> & Htail). left.
        exists tail, extractedFiles, [].
        split; [exact Htail|]. split; [reflexivity|]. split; [reflexivity|].
        left. auto.
      - apply runs_and_then in H6
          as [(u' & t7 & t8 & H7 & H8 & ->) | [(e & H7 & ->) | (H7 & ->)]];
          apply runs_perform in H7 as (a7 & -> & Ho7).
        + left. exists t8, (extractedFiles ++ [Extracted.name file]),
            [(path_join outputPath (Extracted.name file), Extracted.data file)].
          split; [exact H8|]. split; [reflexivity|]. split; [reflexivity|].
          right. auto.
        + right. destruct a7 as [u7|e7]; [discriminate|].
          simpl. split; [reflexivity|]. split; [|reflexivity]. eauto.
        + destruct a7; discriminate. }
    destruct Htail as [(tail & extractedFiles' & wrote & Htail & Hr6 & Hw6 & Hwrote)
                      | (Hr6 & [e ->] & Hw6)].
    + destruct (IH _ _ _ Htail) as (Hr & Hw & Hfuel & Hcount).
      split; [|split; [|split]].
      * now rewrite !reads_app, Hr3, Hr6, Hr.
      * intros path data Hin.
        rewrite !writes_app, Hw3, Hw6 in Hin. simpl in Hin.
        apply in_app_or in Hin as [Hin | Hin].
        -- destruct Hwrote as [[-> _] | [-> _]]; [contradiction|].
           destruct Hin as [[= <- <-] | []]. exists file. simpl. auto.
        -- destruct (Hw _ _ Hin) as (f & Hf & Hp & Hd). exists f. simpl. auto.
      * exact Hfuel.
      * intros names Hnames. specialize (Hcount names Hnames).
        rewrite !writes_app, Hw3, Hw6. simpl. rewrite length_app.
        destruct Hwrote as [[-> ->] | [-> ->]]; simpl;
          rewrite ?length_app in Hcount; simpl in Hcount; lia.
    + split; [|split; [|split]].
      * now rewrite !reads_app, Hr3, Hr6.
      * intros path data Hin.
        rewrite !writes_app, Hw3, Hw6 in Hin. simpl in Hin.
        destruct Hin as [[= <- <-] | []]. exists file. simpl. auto.
      * discriminate.
      * discriminate.
Qed.

End DecompressToolFacts.

(** The runs of the [decompress] tool: either it fails before the
    extraction loop, having written nothing, or it has read the input,
    [decompressData] has returned entries for it, and the loop runs. *)
Lemma decompress_execute_runs {runtime : Runtime} {codec : ZipJs.Codec}
  (args : DecompressArgs.t) (trace : list Event) (o : Outcome (list string)) :
  runs (decompress_execute args) trace o ->
  (writes trace = [] /\
   (exists text, o = Returned [("解压失败: " ++ text)%string]) /\
   (forall zipData,
      In (DecompressArgs.input args, Some zipData) (reads trace) ->
      exists e,
        decompressData (archive_of_bytes zipData) (decompress_password args) = Rejected e /\
        o = Returned [("解压失败: " ++ message e)%string])) \/
  (exists before zipData result loop o_loop,
     trace = before ++ loop /\
     writes before = [] /\
     reads before = [(DecompressArgs.input args, Some zipData)] /\
     decompressData (archive_of_bytes zipData) (decompress_password args) = Resolved result /\
     runs (write_extracted (DecompressArgs.output args) (decompress_overwrite args) result [])
          loop o_loop /\
     o = match o_loop with
         | Returned names =>
             Returned [decompress_done (DecompressArgs.output args) (List.length names)]
         | Threw e => Returned [("解压失败: " ++ message e)%string]
         | Unfinished => Unfinished
         end).
Proof.
  intros Hrun. unfold decompress_execute in Hrun.
  fold (decompress_password args) in Hrun. fold (decompress_overwrite args) in Hrun.
  set (inputPath := DecompressArgs.input args) in *.
  set (outputPath := DecompressArgs.output args) in *.
  match type of Hrun with
  | runs (try_catch ?body _) _ _ =>
      assert (Hbody : forall t o',
        runs body t o' ->
        (writes t = [] /\
         exists e, o' = Threw e /\
           forall zipData, In (inputPath, Some zipData) (reads t) ->
             decompressData (archive_of_bytes zipData) (decompress_password args)
             = Rejected e) \/
        (exists before zipData result loop o_loop,
           t = before ++ loop /\
           writes before = [] /\
           reads before = [(inputPath, Some zipData)] /\
           decompressData (archive_of_bytes zipData) (decompress_password args)
           = Resolved result /\
           runs (write_extracted outputPath (decompress_overwrite args) result [])
                loop o_loop /\
           o' = match o_loop with
                | Returned names =>
                    Returned [decompress_done outputPath (List.length names)]
                | Threw e => Threw e
                | Unfinished => Unfinished
                end))
  end.
  { clear Hrun trace o. intros t o' H.
    apply runs_and_then in H
      as [(inputExists & t1 & t2 & H1 & H2 & ->) | [(e & H1 & ->) | (H1 & ->)]];
      apply runs_exists in H1 as (a1 & -> & Ho1); try discriminate.
    clear Ho1.
    destruct (negb inputExists).
    { destruct H2 as [-> ->]. left. split; [reflexivity|].
      eexists. split; [reflexivity|]. intros zipData []. }
    apply runs_and_then in H2
      as [(outputExists & t3 & t4 & H3 & H4 & ->) | [(e & H3 & ->) | (H3 & ->)]];
      apply runs_exists in H3 as (a3 & -> & Ho3); try discriminate.
    clear Ho3.
    apply runs_and_then in H4
      as [(u & t5 & t6 & H5 & H6 & ->) | [(e & H5 & ->) | (H5 & ->)]].
    - assert (Hquiet : writes t5 = [] /\ reads t5 = []).
      { destruct outputExists.
        - apply runs_and_then in H5
            as [(stats & t7 & t8 & H7 & H8 & ->) | [(e & H7 & Hbad) | (H7 & Hbad)]];
            try discriminate.
          apply runs_perform in H7 as (a7 & -> & _).
          destruct (negb (Fs.isDirectory stats)); destruct H8 as [-> _];
            split; reflexivity.
        - destruct (nullish_or _ true).
          + apply runs_perform in H5 as (a5 & -> & _). split; reflexivity.
          + destruct H5 as [-> _]. split; reflexivity. }
      destruct Hquiet as [Hw5 Hr5]. clear H5.
      apply runs_and_then in H6
        as [(zipData & t7 & t8 & H7 & H8 & ->) | [(e & H7 & ->) | (H7 & ->)]];
        apply runs_perform in H7 as (a7 & -> & Ho7).
      + destruct a7 as [d|e7]; [|discriminate]. injection Ho7 as ->.
        apply runs_and_then in H8
          as [(result & t9 & t10 & H9 & H10 & ->) | [(e & H9 & ->) | (H9 & ->)]];
          apply runs_settle in H9 as [-> Ho9].
        * destruct (decompressData (archive_of_bytes d) _) as [entries|e] eqn:Hengine;
            [|discriminate].
          injection Ho9 as ->.
          apply runs_and_then in H10
            as [(names & t11 & t12 & H11 & H12 & ->) | [(e & H11 & ->) | (H11 & ->)]].
          -- destruct H12 as [-> ->]. right.
             exists (event (Fs.access inputPath) a1 :: event (Fs.access outputPath) a3
                       :: t5 ++ [event (Fs.readFile inputPath) (Resolved d)]),
               d, entries, t11, (Returned names).
             split; [simpl; now rewrite <- !app_assoc, app_nil_r|].
             split; [simpl; now rewrite writes_app, Hw5|].
             split; [simpl; now rewrite reads_app, Hr5|].
             auto.
          -- right.
             exists (event (Fs.access inputPath) a1 :: event (Fs.access outputPath) a3
                       :: t5 ++ [event (Fs.readFile inputPath) (Resolved d)]),
               d, entries, t10, (Threw e).
             split; [simpl; now rewrite <- !app_assoc|].
             split; [simpl; now rewrite writes_app, Hw5|].
             split; [simpl; now rewrite reads_app, Hr5|].
             auto.
          -- right.
             exists (event (Fs.access inputPath) a1 :: event (Fs.access outputPath) a3
                       :: t5 ++ [event (Fs.readFile inputPath) (Resolved d)]),
               d, entries, t10, Unfinished.
             split; [simpl; now rewrite <- !app_assoc|].
             split; [simpl; now rewrite writes_app, Hw5|].
             split; [simpl; now rewrite reads_app, Hr5|].
             auto.
        * destruct (decompressData (archive_of_bytes d) _) as [entries|e'] eqn:Hengine;
            [discriminate|].
          injection Ho9 as ->. left.
          split; [simpl; now rewrite !writes_app, Hw5|].
          exists e'. split; [reflexivity|].
          intros zipData Hin. simpl in Hin. rewrite !reads_app, Hr5 in Hin.
          simpl in Hin. destruct Hin as [[= <-] | []]. exact Hengine.
        * destruct (decompressData (archive_of_bytes d) _); discriminate.
      + destruct a7 as [d|e7]; [discriminate|]. left.
        split; [simpl; now rewrite !writes_app, Hw5|].
        exists e. split; [reflexivity|].
        intros zipData Hin. simpl in Hin. rewrite !reads_app, Hr5 in Hin.
        simpl in Hin. destruct Hin as [[=] | []].
      + destruct a7; discriminate.
    - left.
      assert (Hquiet : writes t4 = [] /\ reads t4 = []).
      { destruct outputExists.
        - apply runs_and_then in H5
            as [(stats & t7 & t8 & H7 & H8 & ->) | [(e' & H7 & _) | (H7 & Hbad)]];
            try discriminate;
            apply runs_perform in H7 as (a7 & -> & _); try (split; reflexivity).
          destruct (negb (Fs.isDirectory stats)); destruct H8 as [-> _];
            split; reflexivity.
        - destruct (nullish_or _ true).
          + apply runs_perform in H5 as (a5 & -> & _). split; reflexivity.
          + destruct H5 as [-> _]. split; reflexivity. }
      destruct Hquiet as [Hw4 Hr4].
      split; [simpl; exact Hw4|].
      exists e. split; [reflexivity|].
      intros zipData Hin. simpl in Hin. rewrite Hr4 in Hin. contradiction.
    - exfalso. destruct outputExists.
      + apply runs_and_then in H5
          as [(stats & t7 & t8 & H7 & H8 & Ht) | [(e' & H7 & Ho) | (H7 & _)]];
          try discriminate;
          apply runs_perform in H7 as (a7 & _ & Ho7).
        * destruct (negb (Fs.isDirectory stats)); destruct H8 as [_ H8]; discriminate.
        * destruct a7; discriminate.
      + destruct (nullish_or _ true).
        * apply runs_perform in H5 as (a5 & _ & Ho5). destruct a5; discriminate.
        * destruct H5 as [_ H5]. discriminate. }
  apply runs_try_catch in Hrun
    as [(a & Hb & ->) | [(e & t1 & t2 & Hb & Hh & ->) | (Hb & ->)]];
    apply Hbody in Hb
      as [(Hw & e' & Ho & Hread)
         | (before & zipData & result & loop & o_loop & Ht & Hw & Hr & He & Hloop & Ho)].
  - discriminate.
  - right. exists before, zipData, result, loop, o_loop.
    destruct o_loop; try discriminate. injection Ho as ->.
    repeat split; try assumption; reflexivity.
  - destruct Hh as [-> ->]. injection Ho as <-. rewrite app_nil_r. left.
    split; [exact Hw|]. split; [eauto|].
    intros zipData Hin. exists e. split; [now apply Hread | reflexivity].
  - destruct Hh as [-> ->]. rewrite app_nil_r. right.
    exists before, zipData, result, loop, o_loop.
    destruct o_loop; try discriminate. injection Ho as ->.
    repeat split; try assumption; reflexivity.
  - discriminate.
  - right. exists before, zipData, result, loop, o_loop.
    destruct o_loop; try discriminate.
    repeat split; try assumption; reflexivity.
Qed.

Lemma writes_guarded_quiet trace :
  writes trace = [] -> forall before, writes_guarded before trace.
Proof.
  intros Hquiet before. rewrite <- (app_nil_r trace).
  apply writes_guarded_after_quiet; [assumption | intros; exact I].
Qed.

Lemma decompressData_rejected_prefix {codec : ZipJs.Codec} buffer options e :
  decompressData buffer options = Rejected e ->
  exists m, message e = ("解压失败: " ++ m)%string.
Proof.
  unfold decompressData.
  match goal with |- try_catch_rethrow _ ?p = _ -> _ => destruct p as [out|e'] end;
    simpl; [discriminate|].
  intros [= <-]. now exists (message e').
Qed.

(** X18.  Without [overwrite], the [decompress] tool never writes over
    what it found: in every run in which [overwrite] is absent or false,
    each [writeFile] comes immediately after an [access] of the very same
    path that reported the path missing. *)
Theorem decompress_tool_checks_before_every_write {runtime : Runtime}
  {codec : ZipJs.Codec} (args : DecompressArgs.t) (trace : list Event)
  (o : Outcome (list string)) :
  runs (decompress_execute args) trace o ->
  decompress_overwrite args = false ->
  writes_guarded None trace.
Proof.
  intros Hrun Hkeep.
  apply decompress_execute_runs in Hrun
    as [(Hw & _) | (before & zipData & result & loop & o_loop & -> & Hw & _ & _ & Hloop & _)].
  - now apply writes_guarded_quiet.
  - apply writes_guarded_after_quiet; [assumption|].
    rewrite Hkeep in Hloop. exact (write_extracted_guarded _ _ _ _ _ Hloop).
Qed.

Lemma decompress_tool_checks_before_every_write_witness :
  decompress_overwrite (SampleDisk.decompress_args "/plain.zip" "/fresh" None None) = false /\
  writes (trace_of SampleDisk.disk
    (decompress_execute (runtime := RefRuntime.runtime) (codec := RefCodec.codec)
       (SampleDisk.decompress_args "/plain.zip" "/fresh" None None)))
  = [("/fresh/a.txt"%string, [x61; x62; x63])] /\
  writes_guarded None (trace_of SampleDisk.disk
    (decompress_execute (runtime := RefRuntime.runtime) (codec := RefCodec.codec)
       (SampleDisk.decompress_args "/plain.zip" "/fresh" None None))).
Proof.
  split; [reflexivity|]. split; [reflexivity|].
  exact (decompress_tool_checks_before_every_write
           (runtime := RefRuntime.runtime) (codec := RefCodec.codec)
           (SampleDisk.decompress_args "/plain.zip" "/fresh" None None) _ _
           (runs_of_oracle SampleDisk.disk _) eq_refl).
Defined.

(** X19.  The [decompress] tool extracts all or nothing with respect to
    the engine: in every run in which the input was read and
    [decompressData] rejects the bytes read (a wrong or missing password, a
    damaged archive), nothing is written, not even the entries that precede
    the failing one, and the answer is the message of the engine under a
    second prefix, "解压失败: 解压失败: ...". *)
Theorem decompress_tool_writes_nothing_when_the_engine_fails {runtime : Runtime}
  {codec : ZipJs.Codec} (args : DecompressArgs.t) (trace : list Event)
  (o : Outcome (list string)) (zipData : bytes) (e : Error) :
  runs (decompress_execute args) trace o ->
  In (DecompressArgs.input args, Some zipData) (reads trace) ->
  decompressData (archive_of_bytes zipData) (decompress_password args) = Rejected e ->
  writes trace = [] /\
  exists m, message e = ("解压失败: " ++ m)%string /\
            o = Returned [("解压失败: 解压失败: " ++ m)%string].
Proof.
  intros Hrun Hread Hengine.
  destruct (decompressData_rejected_prefix _ _ _ Hengine) as [m Hm].
  apply decompress_execute_runs in Hrun
    as [(Hw & _ & Hfail)
       | (before & zipData' & result & loop & o_loop & -> & Hw & Hr & He & Hloop & _)].
  - split; [exact Hw|]. exists m. split; [exact Hm|].
    destruct (Hfail _ Hread) as (e' & He' & ->).
    rewrite Hengine in He'. injection He' as <-. now rewrite Hm.
  - exfalso. rewrite reads_app, Hr in Hread.
    rewrite (proj1 (write_extracted_runs _ _ _ _ _ _ Hloop)) in Hread.
    simpl in Hread. destruct Hread as [[= <-] | []]. congruence.
Qed.

Lemma decompress_tool_writes_nothing_when_the_engine_fails_witness :
  In ("/secret.zip"%string, Some (list_byte_of_string "PK-secret"))
     (reads (trace_of SampleDisk.disk
        (decompress_execute (runtime := RefRuntime.runtime) (codec := RefCodec.codec)
           (SampleDisk.decompress_args "/secret.zip" "/out" None (Some true))))) /\
  decompressData (codec := RefCodec.codec)
    (RefRuntime.archive_table (list_byte_of_string "PK-secret"))
    (Sample.with_password None)
  = Rejected (new_Error "解压失败: File contains encrypted entry") /\
  writes (trace_of SampleDisk.disk
    (decompress_execute (runtime := RefRuntime.runtime) (codec := RefCodec.codec)
       (SampleDisk.decompress_args "/secret.zip" "/out" None (Some true)))) = [] /\
  eval SampleDisk.disk
    (decompress_execute (runtime := RefRuntime.runtime) (codec := RefCodec.codec)
       (SampleDisk.decompress_args "/secret.zip" "/out" None (Some true)))
  = Returned ["解压失败: 解压失败: File contains encrypted entry"%string].
Proof.
  assert (Hread : In ("/secret.zip"%string, Some (list_byte_of_string "PK-secret"))
     (reads (trace_of SampleDisk.disk
        (decompress_execute (runtime := RefRuntime.runtime) (codec := RefCodec.codec)
           (SampleDisk.decompress_args "/secret.zip" "/out" None (Some true))))))
    by (left; reflexivity).
  split; [exact Hread|]. split; [reflexivity|].
  split; [|reflexivity].
  exact (proj1 (decompress_tool_writes_nothing_when_the_engine_fails
                  (runtime := RefRuntime.runtime) (codec := RefCodec.codec)
                  (SampleDisk.decompress_args "/secret.zip" "/out" None (Some true))
                  _ _ (list_byte_of_string "PK-secret")
                  (new_Error "解压失败: File contains encrypted entry")
                  (runs_of_oracle SampleDisk.disk _) Hread eq_refl)).
Defined.

(** X20.  What the [decompress] tool writes, in every run: each
    [writeFile] carries the bytes of an entry that [decompressData]
    returned for the bytes read from the input, and goes to
    [path.join(output, name)] for the name of that entry, the name being
    used as it is stored.  The tool never throws, and when it does not
    answer with a failure text it reports exactly the number of files it
    wrote. *)
Theorem decompress_tool_writes_the_extracted_entries {runtime : Runtime}
  {codec : ZipJs.Codec} (args : DecompressArgs.t) (trace : list Event)
  (o : Outcome (list string)) :
  runs (decompress_execute args) trace o ->
  (forall path data,
     In (path, data) (writes trace) ->
     exists zipData result file,
       In (DecompressArgs.input args, Some zipData) (reads trace) /\
       decompressData (archive_of_bytes zipData) (decompress_password args)
       = Resolved result /\
       In file result /\
       path = path_join (DecompressArgs.output args) (Extracted.name file) /\
       data = Extracted.data file) /\
  ((exists text, o = Returned [("解压失败: " ++ text)%string]) \/
   o = Returned [decompress_done (DecompressArgs.output args)
                   (List.length (writes trace))]).
Proof.
  intros Hrun.
  apply decompress_execute_runs in Hrun
    as [(Hw & Ho & _)
       | (before & zipData & result & loop & o_loop & -> & Hw & Hr & He & Hloop & ->)].
  - split; [|left; exact Ho]. intros path data Hin. rewrite Hw in Hin. contradiction.
  - destruct (write_extracted_runs _ _ _ _ _ _ Hloop) as (Hrl & Hwl & Hfuel & Hcount).
    split.
    + intros path data Hin. rewrite writes_app, Hw in Hin. simpl in Hin.
      destruct (Hwl _ _ Hin) as (file & Hfile & Hpath & Hdata).
      exists zipData, result, file. rewrite reads_app, Hr. simpl. auto.
    + destruct o_loop as [names | e |].
      * right. rewrite writes_app, Hw. simpl.
        now rewrite (Hcount names eq_refl).
      * left. eauto.
      * contradiction.
Qed.

Lemma decompress_tool_writes_the_extracted_entries_witness :
  eval SampleDisk.disk
    (decompress_execute (runtime := RefRuntime.runtime) (codec := RefCodec.codec)
       (SampleDisk.decompress_args "/plain.zip" "/out" None (Some true)))
  = Returned ["解压完成。已将 1 个文件解压到 /out"%string] /\
  writes (trace_of SampleDisk.disk
    (decompress_execute (runtime := RefRuntime.runtime) (codec := RefCodec.codec)
       (SampleDisk.decompress_args "/plain.zip" "/out" None (Some true))))
  = [("/out/a.txt"%string, [x61; x62; x63])] /\
  ((exists text,
      eval SampleDisk.disk
        (decompress_execute (runtime := RefRuntime.runtime) (codec := RefCodec.codec)
           (SampleDisk.decompress_args "/plain.zip" "/out" None (Some true)))
      = Returned [("解压失败: " ++ text)%string]) \/
   eval SampleDisk.disk
     (decompress_execute (runtime := RefRuntime.runtime) (codec := RefCodec.codec)
        (SampleDisk.decompress_args "/plain.zip" "/out" None (Some true)))
   = Returned [decompress_done "/out"
                 (List.length (writes (trace_of SampleDisk.disk
                    (decompress_execute (runtime := RefRuntime.runtime)
                       (codec := RefCodec.codec)
                       (SampleDisk.decompress_args "/plain.zip" "/out" None
                          (Some true))))))]).
Proof.
  split; [reflexivity|]. split; [reflexivity|].
  exact (proj2 (decompress_tool_writes_the_extracted_entries
                  (runtime := RefRuntime.runtime) (codec := RefCodec.codec)
                  (SampleDisk.decompress_args "/plain.zip" "/out" None (Some true))
                  _ _ (runs_of_oracle SampleDisk.disk _))).
Defined.

(** ** The [getZipInfo] tool *)

Lemma getZipInfo_any_password buffer options1 options2 :
  getZipInfo buffer options1 = getZipInfo buffer options2.
Proof.
  destruct buffer as [entries archiveComment | raw]; [|reflexivity].
  now rewrite !getZipInfo_zip.
Qed.

Lemma info_execute_runs_for_other_password {runtime : Runtime} input options1 options2
  trace o :
  runs (info_execute {| InfoArgs.input := input; InfoArgs.options := options1 |}) trace o ->
  runs (info_execute {| InfoArgs.input := input; InfoArgs.options := options2 |}) trace o.
Proof.
  unfold info_execute.
  cbn [InfoArgs.input InfoArgs.options try_catch and_then exists_ perform runs].
  intros (a1 & rest1 & -> & H1). exists a1, rest1. split; [reflexivity|].
  destruct a1 as [u|e]; cbn [negb try_catch and_then runs] in *; [|exact H1].
  destruct H1 as (a2 & rest2 & -> & H2). exists a2, rest2. split; [reflexivity|].
  destruct a2 as [d|e]; cbn [try_catch and_then runs] in *; [|exact H2].
  now rewrite (getZipInfo_any_password _ _
                 {| DecompressionOptions.password :=
                      match options1 with
                      | Some o => InfoArgs.password o
                      | None => None
                      end |}).
Qed.

(** X21.  The [getZipInfo] tool only looks, and does not need the
    password: in every run it calls nothing but [access] and [readFile] on
    the input path, at most once each, and never throws; and its runs are
    the same whatever password the request carries, or none, also for an
    archive whose entries are encrypted. *)
Theorem info_tool_reads_only_and_ignores_the_password {runtime : Runtime}
  (input : string) :
  (forall options trace o,
     runs (info_execute {| InfoArgs.input := input; InfoArgs.options := options |})
          trace o ->
     changes trace = [] /\ List.length trace <= 2 /\
     (forall path answer, In (path, answer) (reads trace) -> path = input) /\
     exists content, o = Returned content) /\
  (forall options1 options2 trace o,
     runs (info_execute {| InfoArgs.input := input; InfoArgs.options := options1 |})
          trace o <->
     runs (info_execute {| InfoArgs.input := input; InfoArgs.options := options2 |})
          trace o).
Proof.
  split.
  - intros options trace o. unfold info_execute.
    cbn [InfoArgs.input InfoArgs.options try_catch and_then exists_ perform runs].
    intros (a1 & rest1 & -> & H1).
    destruct a1 as [u|e]; cbn [negb try_catch and_then runs] in H1.
    + destruct H1 as (a2 & rest2 & -> & H2).
      destruct a2 as [d|e]; cbn [try_catch and_then runs] in H2.
      * match type of H2 with
        | runs (try_catch (and_then (settle ?p) _) _) _ _ => destruct p as [metadata|e]
        end; destruct H2 as [-> ->]; simpl;
          (split; [reflexivity|]); (split; [lia|]);
          (split; [intros path answer [[= <- _] | []]; reflexivity | eauto]).
      * destruct H2 as [-> ->]. simpl.
        split; [reflexivity|]. split; [lia|].
        split; [intros path answer [[= <- _] | []]; reflexivity | eauto].
    + destruct H1 as [-> ->]. simpl.
      split; [reflexivity|]. split; [lia|].
      split; [intros path answer [] | eauto].
  - intros options1 options2 trace o.
    split; apply info_execute_runs_for_other_password.
Qed.

Example info_tool_runs :
  eval SampleDisk.disk
    (info_execute (runtime := RefRuntime.runtime)
       {| InfoArgs.input := "/secret.zip"; InfoArgs.options := None |})
  = Returned
      [ ("ZIP文件 " ++ String "034"%char "secret.zip" ++ String "034"%char " 信息概览：")%string;
        "总文件数: 2"%string;
        "总大小: 8 B"%string;
        "压缩后大小: 13 B"%string;
        "压缩率: -62.50%"%string;
        ""%string;
        (String "010"%char "文件详情:" ++ String "010"%char
           ("- a.txt: 原始大小=3 B, 压缩后=3 B, 修改日期=0, 加密=否"
            ++ String "010"%char
            "- secret.txt: 原始大小=5 B, 压缩后=10 B, 修改日期=0, 加密=是"))%string ].
Proof. vm_compute. reflexivity. Qed.

(** ** Early failures and directory inputs *)

(** X22.  The checks of the [decompress] tool before it reads anything:
    a missing input is reported after the one check; an output path that
    exists and is not a directory is reported; and with
    [createDirectories: false] a missing output directory is reported and
    not created.  In all three cases nothing is read, created or
    written. *)
Theorem decompress_tool_early_failures {runtime : Runtime} {codec : ZipJs.Codec}
  (w : Oracle) (args : DecompressArgs.t) :
  (forall missing,
     w _ (Fs.access (DecompressArgs.input args)) = Rejected missing ->
     eval w (decompress_execute args)
     = Returned [("解压失败: 找不到输入文件: " ++ DecompressArgs.input args)%string] /\
     List.length (trace_of w (decompress_execute args)) = 1) /\
  (forall u1 u2,
     w _ (Fs.access (DecompressArgs.input args)) = Resolved u1 ->
     w _ (Fs.access (DecompressArgs.output args)) = Resolved u2 ->
     w _ (Fs.stat (DecompressArgs.output args)) = Resolved {| Fs.isDirectory := false |} ->
     eval w (decompress_execute args)
     = Returned [("解压失败: 输出路径不是目录: " ++ DecompressArgs.output args)%string] /\
     changes (trace_of w (decompress_execute args)) = [] /\
     reads (trace_of w (decompress_execute args)) = []) /\
  (forall u1 missing o,
     w _ (Fs.access (DecompressArgs.input args)) = Resolved u1 ->
     w _ (Fs.access (DecompressArgs.output args)) = Rejected missing ->
     DecompressArgs.options args = Some o ->
     DecompressArgs.createDirectories o = Some false ->
     eval w (decompress_execute args)
     = Returned [("解压失败: 输出目录不存在: " ++ DecompressArgs.output args)%string] /\
     changes (trace_of w (decompress_execute args)) = [] /\
     reads (trace_of w (decompress_execute args)) = []).
Proof.
  unfold decompress_execute. split; [|split].
  - intros missing Hin.
    rewrite eval_try_catch, trace_of_try_catch, eval_and_then, trace_of_and_then,
      eval_exists, trace_of_exists, Hin.
    split; reflexivity.
  - intros u1 u2 Hin Hout Hstat.
    match goal with |- context [try_catch ?b _] => set (body := b) end.
    assert (Heval : eval w body
              = Threw (new_Error ("输出路径不是目录: " ++ DecompressArgs.output args))).
    { subst body. rewrite eval_and_then, eval_exists, Hin. cbn [negb].
      rewrite eval_and_then, eval_exists, Hout.
      rewrite !eval_and_then, eval_perform, Hstat. reflexivity. }
    assert (Htrace : trace_of w body
              = [event (Fs.access (DecompressArgs.input args)) (Resolved u1);
                 event (Fs.access (DecompressArgs.output args)) (Resolved u2);
                 event (Fs.stat (DecompressArgs.output args))
                       (Resolved {| Fs.isDirectory := false |})]).
    { subst body. rewrite trace_of_and_then, eval_exists, trace_of_exists, Hin. cbn [negb].
      rewrite trace_of_and_then, eval_exists, trace_of_exists, Hout.
      rewrite !trace_of_and_then, !eval_and_then, trace_of_perform, eval_perform, Hstat.
      reflexivity. }
    rewrite eval_try_catch, trace_of_try_catch, Heval, Htrace. repeat split.
  - intros u1 missing o Hin Hout Hoptions Hcreate.
    match goal with |- context [try_catch ?b _] => set (body := b) end.
    assert (Heval : eval w body
              = Threw (new_Error ("输出目录不存在: " ++ DecompressArgs.output args))).
    { subst body. rewrite Hoptions, Hcreate.
      rewrite eval_and_then, eval_exists, Hin. cbn [negb].
      rewrite eval_and_then, eval_exists, Hout.
      rewrite !eval_and_then. reflexivity. }
    assert (Htrace : trace_of w body
              = [event (Fs.access (DecompressArgs.input args)) (Resolved u1);
                 event (Fs.access (DecompressArgs.output args)) (Rejected missing)]).
    { subst body. rewrite Hoptions, Hcreate.
      rewrite trace_of_and_then, eval_exists, trace_of_exists, Hin. cbn [negb].
      rewrite trace_of_and_then, eval_exists, trace_of_exists, Hout.
      rewrite !trace_of_and_then. reflexivity. }
    rewrite eval_try_catch, trace_of_try_catch, Heval, Htrace. repeat split.
Qed.

Lemma decompress_tool_early_failures_witness :
  SampleDisk.disk _ (Fs.access "/plain.zip") = Resolved tt /\
  SampleDisk.disk _ (Fs.access "/out/a.txt") = Resolved tt /\
  SampleDisk.disk _ (Fs.stat "/out/a.txt") = Resolved {| Fs.isDirectory := false |} /\
  eval SampleDisk.disk
    (decompress_execute (runtime := RefRuntime.runtime) (codec := RefCodec.codec)
       (SampleDisk.decompress_args "/plain.zip" "/out/a.txt" None None))
  = Returned ["解压失败: 输出路径不是目录: /out/a.txt"%string].
Proof.
  split; [reflexivity|]. split; [reflexivity|]. split; [reflexivity|].
  exact (proj1 (proj1 (proj2 (decompress_tool_early_failures
    (runtime := RefRuntime.runtime) (codec := RefCodec.codec) SampleDisk.disk
    (SampleDisk.decompress_args "/plain.zip" "/out/a.txt" None None))) tt tt
    eq_refl eq_refl eq_refl)).
Defined.

(** X23.  The [compress] tool prepares the output before it looks at the
    inputs: when the output path and its directory do not exist and the
    first input path is missing, the tool answers that the input was not
    found, has written nothing, and has nevertheless created the directory
    of the output. *)
Theorem compress_tool_creates_directory_before_checking_inputs {runtime : Runtime}
  {codec : ZipJs.Codec} (w : Oracle) (fuel : nat) (now : Z) (output : string)
  (options : option CompressTool.Options) (inputPath : string) (rest : list string)
  (missing1 missing2 missing3 : Error) :
  w _ (Fs.access output) = Rejected missing1 ->
  w _ (Fs.access (path_dirname output)) = Rejected missing2 ->
  w _ (Fs.mkdir (path_dirname output)) = Resolved tt ->
  w _ (Fs.access inputPath) = Rejected missing3 ->
  eval w (compress_execute fuel now
            {| CompressArgs.input := CompressArgs.Paths (inputPath :: rest);
               CompressArgs.output := output;
               CompressArgs.options := options |})
  = Returned [("压缩失败: 找不到输入路径: " ++ inputPath)%string] /\
  changes (trace_of w (compress_execute fuel now
            {| CompressArgs.input := CompressArgs.Paths (inputPath :: rest);
               CompressArgs.output := output;
               CompressArgs.options := options |}))
  = [event (Fs.mkdir (path_dirname output)) (Resolved tt)].
Proof.
  intros Hout Hdir Hmkdir Hin. unfold compress_execute.
  cbn [CompressArgs.output CompressArgs.input CompressArgs.options].
  match goal with |- context [try_catch ?b _] => set (body := b) end.
  assert (Heval : eval w body = Threw (new_Error ("找不到输入路径: " ++ inputPath))).
  { subst body. rewrite eval_and_then, eval_exists, Hout. cbn [andb].
    rewrite eval_and_then, eval_exists, Hdir. cbn [negb].
    rewrite eval_and_then, eval_perform, Hmkdir.
    rewrite eval_and_then. cbn [collect_inputs].
    rewrite eval_and_then, eval_exists, Hin. reflexivity. }
  assert (Htrace : trace_of w body
            = [event (Fs.access output) (Rejected missing1);
               event (Fs.access (path_dirname output)) (Rejected missing2);
               event (Fs.mkdir (path_dirname output)) (Resolved tt);
               event (Fs.access inputPath) (Rejected missing3)]).
  { subst body. rewrite trace_of_and_then, eval_exists, trace_of_exists, Hout. cbn [andb].
    rewrite trace_of_and_then, eval_exists, trace_of_exists, Hdir. cbn [negb].
    rewrite trace_of_and_then, eval_perform, trace_of_perform, Hmkdir.
    rewrite trace_of_and_then. cbn [collect_inputs].
    rewrite eval_and_then, trace_of_and_then, eval_exists, trace_of_exists, Hin.
    reflexivity. }
  rewrite eval_try_catch, trace_of_try_catch, Heval, Htrace. split; reflexivity.
Qed.

(** ** Declared sizes and extracted contents *)

(** X24.  For every buffer [compressData] returns, the level being absent
    or one of 0 to 9: [getZipInfo] succeeds on it whatever password is
    given, [decompressData] succeeds on it with the password of the writer,
    and [totalSize] is the sum of the byte lengths of the entries
    [decompressData] returns. *)
Theorem written_archive_sizes_agree {codec : ZipJs.Codec} (now : Z)
  (data : Data) (options : CompressionOptions.t) (buffer : ZipJs.ArchiveBuffer)
  (readOptions : DecompressionOptions.t) :
  valid_level (CompressionOptions.level options) ->
  compressData now data options = Resolved buffer ->
  exists metadata out,
    getZipInfo buffer readOptions = Resolved metadata /\
    decompressData buffer
      {| DecompressionOptions.password := CompressionOptions.password options |}
    = Resolved out /\
    ZipMetadata.totalSize metadata = content_size out.
Proof.
  intros Hlevel Hwrite.
  destruct (compressData_written _ _ _ _ Hwrite) as [entries [-> Hall]].
  destruct (extract_written_by
              (ZipJs.new_ZipReader (ZipJs.Zip entries [])
                 (CompressionOptions.password options))
              (writer_options options) now entries eq_refl
              (js_or_valid_level _ Hlevel) Hall) as [out [Hout Hsize]].
  exists (metadata_of entries []), out.
  split; [apply getZipInfo_zip|]. split.
  - unfold decompressData. cbn [DecompressionOptions.password ZipJs.getEntries
      ZipJs.new_ZipReader ZipJs.reader].
    rewrite bind_resolved, Hout. reflexivity.
  - simpl. now rewrite Hsize.
Qed.

Lemma written_archive_sizes_agree_witness :
  valid_level (Some 9%Q) /\
  exists buffer metadata out,
    compressData (codec := RefCodec.codec) 0
      (Array (items_of (Sample.two_files ++ Sample.folder)))
      (Sample.options (Some 9%Q) (Some "p"%string)) = Resolved buffer /\
    getZipInfo buffer (Sample.with_password None) = Resolved metadata /\
    decompressData (codec := RefCodec.codec) buffer
      (Sample.with_password (Some "p"%string)) = Resolved out /\
    ZipMetadata.totalSize metadata = content_size out.
Proof.
  pose (options := Sample.options (Some 9%Q) (Some "p"%string)).
  pose (buffer := ZipJs.Zip
          (map (entry_of (codec := RefCodec.codec) 0 (writer_options options))
               (items_of (Sample.two_files ++ Sample.folder))) []).
  assert (Hlevel : valid_level (Some 9%Q))
    by (exists 9%Z; split; [reflexivity | lia]).
  assert (Hwrite : compressData (codec := RefCodec.codec) 0
            (Array (items_of (Sample.two_files ++ Sample.folder))) options
          = Resolved buffer) by reflexivity.
  split; [exact Hlevel|].
  destruct (written_archive_sizes_agree (codec := RefCodec.codec) 0
              (Array (items_of (Sample.two_files ++ Sample.folder))) options buffer
              (Sample.with_password None) Hlevel Hwrite) as [metadata [out H]].
  exists buffer, metadata, out. split; [exact Hwrite | exact H].
Defined.

(** ** A directory as input of the [compress] tool *)

Lemma eval_read_listed_files {runtime : Runtime} (w : Oracle)
  (inputPath baseDir : string) (content : string -> bytes) (files : list string) :
  forall filesToCompress,
    (forall relPath, In relPath files ->
       w _ (Fs.readFile (path_join inputPath relPath)) = Resolved (content relPath)) ->
    eval w (read_listed_files inputPath baseDir files filesToCompress)
    = Returned (filesToCompress ++
        map (fun relPath => {| Item.name := path_join baseDir relPath;
                               Item.data := U8 (content relPath) |}) files).
Proof.
  induction files as [|relPath rest IH]; intros filesToCompress Hread.
  - simpl. now rewrite app_nil_r.
  - cbn [read_listed_files]. rewrite eval_and_then, eval_perform.
    rewrite (Hread relPath (or_introl eq_refl)).
    rewrite IH by (intros r Hr; apply Hread; now right).
    cbn [map]. now rewrite <- app_assoc.
Qed.

(** X25.  A directory given as input: on a file system that answers as a
    directory tree says, the [compress] tool collects one item for every
    regular file of the tree, in the order of the traversal, named
    [path.join(path.basename(input), relative path)] and holding what
    [readFile] returns for [path.join(input, relative path)].  Directories
    are not among the items: an empty directory leaves no trace in the
    archive. *)
Theorem directory_input_collects_its_files {runtime : Runtime} (w : Oracle)
  (fuel : nat) (inputPath : string) (children : Forest)
  (filesToCompress : list Item.t) (content : string -> bytes) (u : unit) :
  w _ (Fs.access inputPath) = Resolved u ->
  describes w inputPath (DirTree children) ->
  tree_depth (DirTree children) <= fuel ->
  (forall relPath,
     In relPath (map (path_relative inputPath) (forest_files inputPath children)) ->
     w _ (Fs.readFile (path_join inputPath relPath)) = Resolved (content relPath)) ->
  eval w (collect_inputs fuel [inputPath] filesToCompress)
  = Returned (filesToCompress ++
      map (fun relPath => {| Item.name := path_join (path_basename inputPath) relPath;
                             Item.data := U8 (content relPath) |})
          (map (path_relative inputPath) (forest_files inputPath children))).
Proof.
  intros Haccess Hdesc Hdepth Hread.
  cbn [collect_inputs]. rewrite eval_and_then, eval_exists, Haccess. cbn [negb].
  rewrite eval_and_then, eval_perform.
  rewrite (proj1 Hdesc). cbn [Fs.isDirectory].
  rewrite !eval_and_then.
  rewrite (getAllFiles_on_tree w inputPath fuel inputPath children [] Hdesc Hdepth).
  cbn [app].
  rewrite (eval_read_listed_files w inputPath (path_basename inputPath) content _ _ Hread).
  reflexivity.
Qed.

Lemma directory_input_collects_its_files_witness :
  SampleDisk.disk _ (Fs.access "/in") = Resolved tt /\
  describes (runtime := RefRuntime.runtime) SampleDisk.disk "/in"
    (DirTree SampleDisk.in_children) /\
  eval SampleDisk.disk (collect_inputs (runtime := RefRuntime.runtime) 2 ["/in"%string] [])
  = Returned [ {| Item.name := "in/a.txt"; Item.data := U8 Sample.hello |};
               {| Item.name := "in/sub/b.txt"; Item.data := U8 Sample.world |} ].
Proof.
  assert (Hdesc : describes (runtime := RefRuntime.runtime) SampleDisk.disk "/in"
                    (DirTree SampleDisk.in_children)) by (simpl; tauto).
  assert (Hdepth : tree_depth (DirTree SampleDisk.in_children) <= 2) by (simpl; lia).
  assert (Hread : forall relPath,
            In relPath (map (path_relative (Runtime := RefRuntime.runtime) "/in")
                          (forest_files (runtime := RefRuntime.runtime) "/in"
                             SampleDisk.in_children)) ->
            SampleDisk.disk _ (Fs.readFile (path_join (Runtime := RefRuntime.runtime)
                                              "/in" relPath))
            = Resolved (if String.eqb relPath "a.txt" then Sample.hello
                        else Sample.world)).
  { intros relPath [<- | [<- | []]]; reflexivity. }
  split; [reflexivity|]. split; [exact Hdesc|].
  exact (directory_input_collects_its_files (runtime := RefRuntime.runtime)
           SampleDisk.disk 2 "/in" SampleDisk.in_children []
           (fun relPath => if String.eqb relPath "a.txt" then Sample.hello
                           else Sample.world)
           tt eq_refl Hdesc Hdepth Hread).
Defined.

Lemma compress_tool_creates_directory_before_checking_inputs_witness :
  SampleDisk.disk _ (Fs.access "/new/out.zip") = Rejected SampleDisk.ENOENT /\
  SampleDisk.disk _ (Fs.access "/new") = Rejected SampleDisk.ENOENT /\
  SampleDisk.disk _ (Fs.access "/missing.txt") = Rejected SampleDisk.ENOENT /\
  changes (trace_of SampleDisk.disk
    (compress_execute (runtime := RefRuntime.runtime) (codec := RefCodec.codec) 2 0
       {| CompressArgs.input := CompressArgs.Paths ["/missing.txt"%string];
          CompressArgs.output := "/new/out.zip";
          CompressArgs.options := None |}))
  = [event (Fs.mkdir "/new") (Resolved tt)].
Proof.
  split; [reflexivity|]. split; [reflexivity|]. split; [reflexivity|].
  exact (proj2 (compress_tool_creates_directory_before_checking_inputs
    (runtime := RefRuntime.runtime) (codec := RefCodec.codec) SampleDisk.disk 2 0
    "/new/out.zip" None "/missing.txt" [] SampleDisk.ENOENT SampleDisk.ENOENT
    SampleDisk.ENOENT eq_refl eq_refl eq_refl eq_refl)).
Defined.
